(** * compas_fea2: the Part registry, element grouping and Abaqus job data

    A shallow embedding of
    - [compas_fea2/model/parts.py]                 (class [_Part]),
    - [compas_fea2/backends/abaqus/model/parts.py] (class [AbaqusPart]),
    - [compas_fea2/backends/abaqus/model/elements.py],
    - [compas_fea2/backends/_base/model/parts.py]  (class [PartBase]),
    and the properties of these classes.

    Python objects are records that carry their identity ([id(obj)]) next to
    the attributes no modelled method writes; the attributes that methods do
    write ([_key], [_registration], [connected_elements]) live in a heap
    indexed by identity.  A Python [set] of objects hashes them by identity:
    it is a finite map from identities to objects ([pyset]), and iterates in
    a fixed order that the program does not choose.  A method is a function
    in a state-and-exception monad; a raised exception keeps the mutations
    made before it. *)

From Stdlib Require Import QArith Qcanon Ascii String.
From stdpp Require Import gmap strings list fin_maps pretty numbers sorting.

Open Scope string_scope.

(** The newline character. *)
Definition nl : string := String "010"%char EmptyString.

(** ** Outcomes of a Python call *)

Inductive exn := TypeError | ValueError | KeyError | IndexError | AttributeError.

Inductive outcome (A : Type) : Type :=
| Return (a : A)
| Raise (e : exn).
Arguments Return {A} a.
Arguments Raise {A} e.

Definition M (S A : Type) : Type := S → outcome A * S.

Definition ret {S A} (a : A) : M S A := λ s, (Return a, s).
Definition raise {S A} (e : exn) : M S A := λ s, (Raise e, s).
Definition bind {S A B} (c : M S A) (k : A → M S B) : M S B :=
  λ s, match c s with
       | (Return a, s') => k a s'
       | (Raise e, s') => (Raise e, s')
       end.
Definition lift {S A} (f : S → outcome A) : M S A := λ s, (f s, s).
Definition get {S} : M S S := λ s, (Return s, s).
Definition gets {S A} (f : S → A) : M S A := λ s, (Return (f s), s).
Definition modify {S} (f : S → S) : M S unit := λ s, (Return tt, f s).

Declare Scope py_scope.
Delimit Scope py_scope with py.
Notation "x <- c1 ;; c2" := (bind c1 (λ x, c2))
  (at level 100, c1 at next level, right associativity) : py_scope.
Notation "c1 ;;; c2" := (bind c1 (λ _, c2))
  (at level 100, right associativity) : py_scope.
Open Scope py_scope.

(** [[f(x) for x in xs]] and [for x in xs: f(x)]. *)
Fixpoint traverse {S A B} (f : A → M S B) (xs : list A) : M S (list B) :=
  match xs with
  | [] => ret []
  | x :: xs' => y <- f x ;; ys <- traverse f xs' ;; ret (y :: ys)
  end.

Definition for_each {S A B} (xs : list A) (f : A → M S B) : M S unit :=
  traverse f xs ;;; ret tt.

(** Calls that only read: [outcome] with its own sequencing. *)
#[global] Instance outcome_ret : MRet outcome := λ A a, Return a.
#[global] Instance outcome_bind : MBind outcome :=
  λ A B k c, match c with Return a => k a | Raise e => Raise e end.
#[global] Instance outcome_fmap : FMap outcome :=
  λ A B f c, match c with Return a => Return (f a) | Raise e => Raise e end.

Fixpoint otraverse {A B} (f : A → outcome B) (xs : list A) : outcome (list B) :=
  match xs with
  | [] => Return []
  | x :: xs' => y ← f x; ys ← otraverse f xs'; Return (y :: ys)
  end.

(** ** Process-wide settings ([compas_fea2/__init__.py]) *)

Record Config := {
  VERBOSE : bool;
  POINT_OVERLAP : bool;
  GLOBAL_TOLERANCE : Qc
}.

(** ** Objects *)

Definition point : Type := Qc * Qc * Qc.

(** An attribute an object may lack ([hasattr]). *)
Inductive attr (A : Type) : Type :=
| Missing
| Attr (a : A).
Arguments Missing {A}.
Arguments Attr {A} a.

(** A component of an orientation vector.  A float is kept as its [repr],
    which is all the grouping reads of it. *)
Inductive scalar :=
| PyInt (z : Z)
| PyFloat (repr : string).

Definition str (i : scalar) : string :=
  match i with
  | PyInt z => pretty z
  | PyFloat r => r
  end.

Record Node := {
  node_id : positive;
  xyz : point;
  gkey : string
}.

Record Material := {
  material_id : positive;
  material_name : string
}.

(** What a section's [material] attribute may hold. *)
Inductive material_attr :=
| MaterialObj (m : Material)
| MaterialName (name : string)
| MaterialNone.

Record Section := {
  section_id : positive;
  section_name : string;
  material : material_attr
}.

Record Element := {
  element_id : positive;
  nodes : list Node;
  section : Section;
  _eltype : string;
  _orientation : attr (option (list scalar))
}.

Record Release := {
  release_id : positive
}.

#[global] Instance exn_eq_dec : EqDecision exn.
Proof. solve_decision. Defined.
#[global] Instance outcome_eq_dec `{EqDecision A} : EqDecision (outcome A).
Proof. solve_decision. Defined.
#[global] Instance attr_eq_dec `{EqDecision A} : EqDecision (attr A).
Proof. solve_decision. Defined.
#[global] Instance scalar_eq_dec : EqDecision scalar.
Proof. solve_decision. Defined.
#[global] Instance Node_eq_dec : EqDecision Node.
Proof. solve_decision. Defined.
#[global] Instance Material_eq_dec : EqDecision Material.
Proof. solve_decision. Defined.
#[global] Instance material_attr_eq_dec : EqDecision material_attr.
Proof. solve_decision. Defined.
#[global] Instance Section_eq_dec : EqDecision Section.
Proof. solve_decision. Defined.
#[global] Instance Element_eq_dec : EqDecision Element.
Proof. solve_decision. Defined.
#[global] Instance Release_eq_dec : EqDecision Release.
Proof. solve_decision. Defined.

(** ** Sets of objects *)

Class Identified (A : Type) := id_of : A → positive.
#[global] Instance Node_identified : Identified Node := node_id.
#[global] Instance Material_identified : Identified Material := material_id.
#[global] Instance Section_identified : Identified Section := section_id.
#[global] Instance Element_identified : Identified Element := element_id.
#[global] Instance Release_identified : Identified Release := release_id.

Abbreviation pyset A := (gmap positive A).

Section pyset.
Context {A : Type} `{Identified A}.

(** [x in s], [s.add(x)], [s.remove(x)] (of a member), [len(s)],
    [for x in s] / [list(s)], [bool(s)], [set(xs)]. *)
Definition contains (s : pyset A) (x : A) : bool := bool_decide (is_Some (s !! id_of x)).
Definition add (x : A) (s : pyset A) : pyset A := <[id_of x := x]> s.
Definition remove (x : A) (s : pyset A) : pyset A := delete (id_of x) s.
Definition len (s : pyset A) : nat := size s.
Definition iter (s : pyset A) : list A := (map_to_list s).*2.
Definition nonempty (s : pyset A) : bool := bool_decide (s ≠ ∅).
Definition to_set (xs : list A) : pyset A := foldr add ∅ xs.
End pyset.

(** Modelled from the spec: the group classes ([compas_fea2/model/groups.py]
    is not among the sources).  A group is a name, a discriminator and a set
    of members, and "duplicate group objects are detected by value/name":
    two groups are the same when their kind, name and members agree. *)
Inductive Group :=
| NodesGroup (name : string) (members : pyset Node)
| ElementsGroup (name : string) (members : pyset Element)
| FacesGroup (name : string) (members : gset positive).

#[global] Instance Group_eq_dec : EqDecision Group.
Proof. solve_decision. Defined.

Definition group_name (g : Group) : string :=
  match g with
  | NodesGroup n _ | ElementsGroup n _ | FacesGroup n _ => n
  end.

(** A set of groups, in insertion order. *)
Definition group_add (g : Group) (gs : list Group) : list Group :=
  if bool_decide (g ∈ gs) then gs else (gs ++ [g])%list.

(** ** The heap: attributes that the modelled methods write

    An absent entry is the value the constructor leaves: [None] for [_key]
    and [_registration], the empty set for [connected_elements]. *)

Record Heap := {
  h_key : gmap positive Z;
  h_registration : gmap positive positive;
  h_connected : gmap positive (pyset Element);
  h_group_registration : list (Group * positive)
}.

Definition set_key (i : positive) (k : option Z) (h : Heap) : Heap :=
  {| h_key := match k with Some z => <[i := z]> (h_key h) | None => delete i (h_key h) end;
     h_registration := h_registration h;
     h_connected := h_connected h;
     h_group_registration := h_group_registration h |}.

Definition set_registration (i : positive) (r : option positive) (h : Heap) : Heap :=
  {| h_key := h_key h;
     h_registration :=
       match r with
       | Some o => <[i := o]> (h_registration h)
       | None => delete i (h_registration h)
       end;
     h_connected := h_connected h;
     h_group_registration := h_group_registration h |}.

Definition connected_elements (h : Heap) (n : Node) : pyset Element :=
  default ∅ (h_connected h !! node_id n).

Definition connected_elements_add (n : Node) (e : Element) (h : Heap) : Heap :=
  {| h_key := h_key h;
     h_registration := h_registration h;
     h_connected := <[node_id n := add e (connected_elements h n)]> (h_connected h);
     h_group_registration := h_group_registration h |}.

Definition set_group_registration (g : Group) (o : positive) (h : Heap) : Heap :=
  {| h_key := h_key h;
     h_registration := h_registration h;
     h_connected := h_connected h;
     h_group_registration := (g, o) :: h_group_registration h |}.

Definition key_of (h : Heap) (i : positive) : option Z := h_key h !! i.

(** ** [_Part] ([compas_fea2/model/parts.py]) *)

(** The model a part is registered to, as far as [_Part] reads it:
    its identity and [len(model.nodes)]. *)
Record Model := {
  model_id : positive;
  model_nodes_len : Z
}.

Record Part := {
  part_id : positive;
  part_name : string;
  _registration : option Model;
  _key : option Z;
  _nodes : pyset Node;
  _gkey_node : gmap string Node;
  _sections : pyset Section;
  _materials : pyset Material;
  _elements : pyset Element;
  _releases : pyset Release;
  _nodesgroups : list Group;
  _elementsgroups : list Group;
  _facesgroups : list Group
}.

Record World := {
  heap : Heap;
  self : Part
}.

Definition with_heap (f : Heap → Heap) (w : World) : World :=
  {| heap := f (heap w); self := self w |}.
Definition with_self (f : Part → Part) (w : World) : World :=
  {| heap := heap w; self := f (self w) |}.

Definition set_part_key (k : option Z) (p : Part) : Part :=
  {| part_id := part_id p; part_name := part_name p; _registration := _registration p; _key := k;
     _nodes := _nodes p; _gkey_node := _gkey_node p; _sections := _sections p;
     _materials := _materials p; _elements := _elements p; _releases := _releases p;
     _nodesgroups := _nodesgroups p; _elementsgroups := _elementsgroups p;
     _facesgroups := _facesgroups p |}.

Definition set_nodes (ns : pyset Node) (gk : gmap string Node) (p : Part) : Part :=
  {| part_id := part_id p; part_name := part_name p; _registration := _registration p; _key := _key p;
     _nodes := ns; _gkey_node := gk; _sections := _sections p;
     _materials := _materials p; _elements := _elements p; _releases := _releases p;
     _nodesgroups := _nodesgroups p; _elementsgroups := _elementsgroups p;
     _facesgroups := _facesgroups p |}.

Definition set_sections (ss : pyset Section) (p : Part) : Part :=
  {| part_id := part_id p; part_name := part_name p; _registration := _registration p; _key := _key p;
     _nodes := _nodes p; _gkey_node := _gkey_node p; _sections := ss;
     _materials := _materials p; _elements := _elements p; _releases := _releases p;
     _nodesgroups := _nodesgroups p; _elementsgroups := _elementsgroups p;
     _facesgroups := _facesgroups p |}.

Definition set_materials (ms : pyset Material) (p : Part) : Part :=
  {| part_id := part_id p; part_name := part_name p; _registration := _registration p; _key := _key p;
     _nodes := _nodes p; _gkey_node := _gkey_node p; _sections := _sections p;
     _materials := ms; _elements := _elements p; _releases := _releases p;
     _nodesgroups := _nodesgroups p; _elementsgroups := _elementsgroups p;
     _facesgroups := _facesgroups p |}.

Definition set_elements (es : pyset Element) (p : Part) : Part :=
  {| part_id := part_id p; part_name := part_name p; _registration := _registration p; _key := _key p;
     _nodes := _nodes p; _gkey_node := _gkey_node p; _sections := _sections p;
     _materials := _materials p; _elements := es; _releases := _releases p;
     _nodesgroups := _nodesgroups p; _elementsgroups := _elementsgroups p;
     _facesgroups := _facesgroups p |}.

Definition set_groups (ng eg fg : list Group) (p : Part) : Part :=
  {| part_id := part_id p; part_name := part_name p; _registration := _registration p; _key := _key p;
     _nodes := _nodes p; _gkey_node := _gkey_node p; _sections := _sections p;
     _materials := _materials p; _elements := _elements p; _releases := _releases p;
     _nodesgroups := ng; _elementsgroups := eg; _facesgroups := fg |}.

(** The read-only properties. *)
Definition model (p : Part) : option Model := _registration p.
Definition points (p : Part) : list point := xyz <$> iter (_nodes p).

(** [nodes_count] and [elements_count] are one less than the sizes. *)
Definition nodes_count (p : Part) : Z := Z.of_nat (len (_nodes p)) - 1.
Definition elements_count (p : Part) : Z := Z.of_nat (len (_elements p)) - 1.

(** [compas.geometry.distance_point_point_sqrd]. *)
Definition distance_point_point_sqrd (a b : point) : Qc :=
  let '(ax, ay, az) := a in
  let '(bx, by_, bz) := b in
  ((ax - bx) * (ax - bx) + (ay - by_) * (ay - by_) + (az - bz) * (az - bz))%Qc.

(** [find_nodes_around_point(point, distance)] with its defaults
    [plane=None, report=False, single=False]: the nodes strictly closer than
    [distance], in the iteration order of the node set. *)
Definition find_nodes_around_point (p : Part) (pt : point) (distance : Qc) : list Node :=
  let d2 := (distance * distance)%Qc in
  filter (λ node, (distance_point_point_sqrd (xyz node) pt < d2)%Qc) (iter (_nodes p)).

Definition contains_node (p : Part) (node : Node) : bool := contains (_nodes p) node.
Definition contains_material (p : Part) (m : Material) : bool := contains (_materials p) m.
Definition contains_section (p : Part) (s : Section) : bool := contains (_sections p) s.
Definition contains_element (p : Part) (e : Element) : bool := contains (_elements p) e.

(** [add_node].  The printing under [VERBOSE] is left out; the [return node]
    that closes the [VERBOSE] block is not. *)
Definition add_node (cfg : Config) (node : Node) : M World Node :=
  if VERBOSE cfg then
    ret node
  else
    w <- get ;;
    let existing_node :=
      if negb (POINT_OVERLAP cfg)
      then find_nodes_around_point (self w) (xyz node) (GLOBAL_TOLERANCE cfg)
      else [] in
    match existing_node with
    | first :: _ => ret first
    | [] =>
        modify (with_self (λ p,
          match model p with
          | Some m => set_part_key (Some (model_nodes_len m)) p
          | None => p
          end)) ;;;
        modify (with_self (λ p,
          set_nodes (add node (_nodes p)) (<[gkey node := node]> (_gkey_node p)) p)) ;;;
        modify (λ w, with_heap (set_registration (node_id node) (Some (part_id (self w)))) w) ;;;
        ret node
    end.

Definition add_nodes (cfg : Config) (ns : list Node) : M World (list Node) :=
  traverse (add_node cfg) ns.

(** [remove_node]: [dict.pop] raises [KeyError] on a missing key. *)
Definition remove_node (node : Node) : M World unit :=
  w <- get ;;
  if contains_node (self w) node then
    modify (with_self (λ p, set_nodes (remove node (_nodes p)) (_gkey_node p) p)) ;;;
    w <- get ;;
    match _gkey_node (self w) !! gkey node with
    | None => raise KeyError
    | Some _ =>
        modify (with_self (λ p, set_nodes (_nodes p) (delete (gkey node) (_gkey_node p)) p)) ;;;
        modify (with_heap (set_registration (node_id node) None))
    end
  else ret tt.

(** [assign_keys(start)]: nodes, elements, sections and materials are
    numbered from [start] in the iteration order of their sets. *)
Fixpoint enumerate_keys (ids : list positive) (c : Z) (h : Heap) : Heap :=
  match ids with
  | [] => h
  | i :: ids' => enumerate_keys ids' (c + 1) (set_key i (Some c) h)
  end.

Definition assign_keys (start : Z) : M World unit :=
  modify (λ w, with_heap (enumerate_keys (node_id <$> iter (_nodes (self w))) start) w) ;;;
  modify (λ w, with_heap (enumerate_keys (element_id <$> iter (_elements (self w))) start) w) ;;;
  modify (λ w, with_heap (enumerate_keys (section_id <$> iter (_sections (self w))) start) w) ;;;
  modify (λ w, with_heap (enumerate_keys (material_id <$> iter (_materials (self w))) start) w).

(** [add_material]: anything but a material object is a [TypeError]. *)
Definition add_material (m : material_attr) : M World Material :=
  match m with
  | MaterialObj mat =>
      modify (with_self (λ p, set_materials (add mat (_materials p)) p)) ;;;
      modify (λ w, with_heap (set_registration (material_id mat) (Some (part_id (self w)))) w) ;;;
      ret mat
  | _ => raise TypeError
  end.

(** [add_section]: the material is added first; the section is registered
    to the part's own registration (its model). *)
Definition add_section (sec : Section) : M World Section :=
  add_material (material sec) ;;;
  modify (with_self (λ p, set_sections (add sec (_sections p)) p)) ;;;
  modify (λ w, with_heap
    (set_registration (section_id sec) (model_id <$> _registration (self w))) w) ;;;
  ret sec.

(** [add_element]. *)
Definition add_element (cfg : Config) (element : Element) (checks : bool) : M World Element :=
  w <- get ;;
  if checks && contains_element (self w) element then
    ret element
  else
    add_nodes cfg (nodes element) ;;;
    for_each (nodes element) (λ node,
      modify (with_heap (connected_elements_add node element))) ;;;
    add_section (section element) ;;;
    modify (with_self (λ p, set_elements (add element (_elements p)) p)) ;;;
    modify (λ w, with_heap (set_registration (element_id element) (Some (part_id (self w)))) w) ;;;
    ret element.

Definition add_elements (cfg : Config) (es : list Element) : M World (list Element) :=
  traverse (λ e, add_element cfg e true) es.

Definition contains_group (p : Part) (g : Group) : bool :=
  match g with
  | NodesGroup _ _ => bool_decide (g ∈ _nodesgroups p)
  | ElementsGroup _ _ => bool_decide (g ∈ _elementsgroups p)
  | FacesGroup _ _ => bool_decide (g ∈ _facesgroups p)
  end.

(** [add_group]: the members are added first, then the group unless the
    part has it already. *)
Definition add_group (cfg : Config) (g : Group) : M World Group :=
  match g with
  | NodesGroup _ ns => add_nodes cfg (iter ns) ;;; ret tt
  | ElementsGroup _ es => add_elements cfg (iter es) ;;; ret tt
  | FacesGroup _ _ => ret tt
  end ;;;
  w <- get ;;
  if contains_group (self w) g then
    ret g
  else
    modify (with_self (λ p,
      match g with
      | NodesGroup _ _ =>
          set_groups (group_add g (_nodesgroups p)) (_elementsgroups p) (_facesgroups p) p
      | ElementsGroup _ _ =>
          set_groups (_nodesgroups p) (group_add g (_elementsgroups p)) (_facesgroups p) p
      | FacesGroup _ _ =>
          set_groups (_nodesgroups p) (_elementsgroups p) (group_add g (_facesgroups p)) p
      end)) ;;;
    modify (λ w, with_heap (set_group_registration g (part_id (self w))) w) ;;;
    ret g.

(** [scipy.spatial.KDTree(points).query(point, k)]: the [k] nearest points,
    nearest first, as (distance, index) pairs.  The library answers with the
    Euclidean distances; the squares are kept here, which order the points
    the same way. *)
Definition nearer (a b : Qc * nat) : Prop := (a.1 ≤ b.1)%Qc.

#[global] Instance nearer_dec : RelDecision nearer.
Proof. intros a b. unfold nearer. apply _. Defined.

Definition indexed_distances (pts : list point) (pt : point) : list (Qc * nat) :=
  zip ((λ q, distance_point_point_sqrd q pt) <$> pts) (seq 0 (length pts)).

Definition kdtree_query (pts : list point) (pt : point) (k : nat) : list (Qc * nat) :=
  take k (merge_sort nearer (indexed_distances pts pt)).

(** What the query returns: a list of nodes, or with [report=True] a
    [dict] from nodes to distances. *)
Inductive closest :=
| ClosestNodes (found : list Node)
| ClosestReport (found : gmap positive (Node * Qc)).

(** [find_closest_nodes_to_point]. *)
Definition find_closest_nodes_to_point
    (p : Part) (pt : point) (number_of_nodes : Z) (report : bool) : outcome closest :=
  if bool_decide (number_of_nodes ≤ 0)%Z then Raise ValueError
  else if bool_decide (number_of_nodes > Z.of_nat (len (_nodes p)))%Z then Raise ValueError
  else
    let tree := points p in
    let found := kdtree_query tree pt (Z.to_nat number_of_nodes) in
    let distances := found.*1 in
    let indices := found.*2 in
    match mapM (λ i, iter (_nodes p) !! i) indices with
    | None => Raise IndexError
    | Some closest_nodes =>
        if report
        then Return (ClosestReport
               (list_to_map (reverse ((λ '(node, d), (node_id node, (node, d)))
                                        <$> zip closest_nodes distances))))
        else Return (ClosestNodes closest_nodes)
    end.

(** ** More of [_Part] ([compas_fea2/model/parts.py]) *)

(** [node.connected_elements.remove(element)]: [set.remove] raises
    [KeyError] when the element is not in the set. *)
Definition connected_elements_remove (n : Node) (e : Element) : M World unit :=
  w <- get ;;
  if contains (connected_elements (heap w) n) e then
    modify (with_heap (λ h,
      {| h_key := h_key h;
         h_registration := h_registration h;
         h_connected := <[node_id n := remove e (connected_elements h n)]> (h_connected h);
         h_group_registration := h_group_registration h |}))
  else raise KeyError.

(** [remove_element]. *)
Definition remove_element (element : Element) : M World unit :=
  w <- get ;;
  if contains_element (self w) element then
    modify (with_self (λ p, set_elements (remove element (_elements p)) p)) ;;;
    modify (with_heap (set_registration (element_id element) None)) ;;;
    for_each (nodes element) (λ node, connected_elements_remove node element)
  else ret tt.

(** [find_node_by_key]: the first node of the set, in its iteration
    order, whose key is the given one. *)
Definition find_node_by_key (w : World) (key : Z) : option Node :=
  head (filter (λ node, key_of (heap w) (node_id node) = Some key) (iter (_nodes (self w)))).


(** ** Abaqus elements ([backends/abaqus/model/elements.py]) *)

(** [_generate_jobdata(element)]: a key that is still [None] makes [key+1]
    a [TypeError]. *)
Definition element_generate_jobdata (h : Heap) (element : Element) : outcome string :=
  match key_of h (element_id element) with
  | None => Raise TypeError
  | Some k =>
      ks ← otraverse (λ node,
              match key_of h (node_id node) with
              | None => Raise TypeError
              | Some nk => Return (pretty (nk + 1)%Z)
              end) (nodes element);
      Return (pretty (k + 1)%Z ++ ", " ++ String.concat "," ks ++ nl)
  end.

(** ** [AbaqusPart] ([backends/abaqus/model/parts.py]) *)

(** ['_'.join(str(i) for i in x._orientation) if hasattr(x, '_orientation')
    else None]: iterating an [_orientation] that is [None] is a [TypeError]. *)
Definition orientation_of (x : Element) : outcome (option string) :=
  match _orientation x with
  | Missing => Return None
  | Attr None => Raise TypeError
  | Attr (Some v) => Return (Some (String.concat "_" (str <$> v)))
  end.

Definition has_orientation (x : Element) : bool :=
  match _orientation x with Missing => false | Attr _ => true end.

(** A [dict] from orientation keys to sets of elements, in insertion order. *)
Definition by_orientation : Type := list (option string * pyset Element).

Definition setdefault (k : option string) (d : by_orientation) : by_orientation :=
  if bool_decide (k ∈ d.*1) then d else (d ++ [(k, ∅)])%list.

(** [d[k].add(el)]: a missing key is a [KeyError]. *)
Fixpoint dict_add (k : option string) (el : Element) (d : by_orientation)
  : outcome by_orientation :=
  match d with
  | [] => Raise KeyError
  | (k', els) :: d' =>
      if bool_decide (k' = k) then Return ((k', add el els) :: d')
      else d'' ← dict_add k el d'; Return ((k', els) :: d'')
  end.

(** The body of [for el in sub_elements]. *)
Definition place (orientation : option string) (d : by_orientation) (el : Element)
  : outcome by_orientation :=
  if has_orientation el then
    o ← orientation_of el;
    if bool_decide (o = orientation) then dict_add orientation el d else Return d
  else dict_add None el d.

Fixpoint ofold {A B} (f : B → A → outcome B) (b : B) (xs : list A) : outcome B :=
  match xs with
  | [] => Return b
  | x :: xs' => b' ← f b x; ofold f b' xs'
  end.

(** The subgrouping by orientation of the elements of one type and section. *)
Definition group_by_orientation (sub_elements : list Element) : outcome by_orientation :=
  os ← otraverse orientation_of sub_elements;
  let orientations : gset (option string) := list_to_set os in
  ofold (λ d orientation, ofold (place orientation) (setdefault orientation d) sub_elements)
        [] (elements orientations).

Definition by_section : Type := list (Section * by_orientation).
Definition by_eltype : Type := list (string * by_section).

(** The subgrouping by section of the elements of one type; sections are
    compared as objects, by identity. *)
Definition group_by_section (els : list Element) : outcome by_section :=
  let sections : pyset Section := to_set (section <$> els) in
  otraverse (λ sec,
      d ← group_by_orientation
             (filter (λ el, section_id (section el) = section_id sec) els);
      Return (sec, d))
    (iter sections).

(** [_group_elements]: [{eltype: {section: {orientation: set(elements)}}}]. *)
Definition _group_elements (p : Part) : outcome by_eltype :=
  let eltypes : gset string := list_to_set (_eltype <$> iter (_elements p)) in
  otraverse (λ eltype,
      d ← group_by_section (filter (λ el, _eltype el = eltype) (iter (_elements p)));
      Return (eltype, d))
    (elements eltypes).

(** [s.replace(".", "")] and [s.split(sep)] for a one-character [sep]. *)
Fixpoint remove_dots (s : string) : string :=
  match s with
  | EmptyString => EmptyString
  | String c s' => if Ascii.eqb c "."%char then remove_dots s' else String c (remove_dots s')
  end.

Fixpoint split (sep : ascii) (s : string) : list string :=
  match s with
  | EmptyString => [EmptyString]
  | String c s' =>
      if Ascii.eqb c sep then EmptyString :: split sep s'
      else match split sep s' with
           | [] => [String c EmptyString]
           | piece :: pieces => String c piece :: pieces
           end
  end.

(** One entry of [part_data], with the object it was rendered from. *)
Inductive fragment :=
| NodeHeader
| NodeLine (node : Node) (text : string)
| ElementHeader (eltype : string)
| ElementLine (element : Element) (text : string)
| ElsetData (aux_elset : Group) (text : string)
| SectionData (sec : Section) (text : string)
| GroupData (g : Group) (text : string)
| ReleaseHeader
| ReleaseLine (r : Release) (text : string).

Definition fragment_text (f : fragment) : string :=
  match f with
  | NodeHeader => "*Node" ++ nl
  | ElementHeader eltype => "*Element, type=" ++ eltype ++ nl
  | ReleaseHeader => nl ++ "*Release" ++ nl
  | NodeLine _ t | ElementLine _ t | ElsetData _ t | SectionData _ t
  | GroupData _ t | ReleaseLine _ t => t
  end.

(** Modelled from the spec: the [groups] property the serializer iterates is
    not in [model/parts.py]; a part "aggregates ... groups", here the node,
    element and face groups together. *)
Definition groups (p : Part) : list Group :=
  (_nodesgroups p ++ _elementsgroups p ++ _facesgroups p)%list.

(** [if orientation:] holds for a key that is neither [None] nor empty. *)
Definition truthy (o : option string) : bool :=
  match o with
  | Some (String _ _) => true
  | _ => false
  end.

Section AbaqusPart.
(** The renderers of the other Abaqus classes (nodes, groups, sections,
    releases), which are not among the sources: each reads the heap and
    answers with text or raises. *)
Variable node_generate_jobdata : Heap → Node → outcome string.
Variable group_generate_jobdata : Heap → Group → outcome string.
Variable section_generate_jobdata :
  Heap → Section → string → option (list string) → outcome string.
Variable release_generate_jobdata : Heap → Release → outcome string.
Variable cfg : Config.

(** The name of the auxiliary set of a bucket and the orientation handed
    to the section renderer. *)
Definition aux_name (eltype : string) (sec : Section) (orientation : option string) : string :=
  match orientation with
  | Some o =>
      if truthy orientation
      then "aux_" ++ eltype ++ "_" ++ section_name sec ++ "_" ++ remove_dots o
      else "aux_" ++ eltype ++ "_" ++ section_name sec
  | None => "aux_" ++ eltype ++ "_" ++ section_name sec
  end.

Definition aux_orientation (orientation : option string) : option (list string) :=
  match orientation with
  | Some o => if truthy orientation then Some (split "_"%char o) else None
  | None => None
  end.

(** The body of [for orientation, elements in orientations.items()]. *)
Definition write_bucket (eltype : string) (sec : Section)
    (bucket : option string * pyset Element) : M World (list fragment) :=
  let '(orientation, els) := bucket in
  lines <- traverse (λ element,
      t <- lift (λ w, element_generate_jobdata (heap w) element) ;;
      ret (ElementLine element t)) (iter els) ;;
  aux_elset <- add_group cfg (ElementsGroup (aux_name eltype sec orientation) els) ;;
  t1 <- lift (λ w, group_generate_jobdata (heap w) aux_elset) ;;
  t2 <- lift (λ w, section_generate_jobdata (heap w) sec (group_name aux_elset)
                     (aux_orientation orientation)) ;;
  ret (ElementHeader eltype :: lines ++ [ElsetData aux_elset t1; SectionData sec t2])%list.

Definition write_section (eltype : string) (entry : Section * by_orientation)
  : M World (list fragment) :=
  bs <- traverse (write_bucket eltype entry.1) entry.2 ;;
  ret (concat bs).

Definition write_eltype (entry : string * by_section) : M World (list fragment) :=
  bs <- traverse (write_section entry.1) entry.2 ;;
  ret (concat bs).

(** The entries of [part_data], in order. *)
Definition part_data : M World (list fragment) :=
  w <- get ;;
  node_lines <- traverse (λ node,
      t <- lift (λ w, node_generate_jobdata (heap w) node) ;;
      ret (NodeLine node t)) (iter (_nodes (self w))) ;;
  grouped_elements <- lift (λ w, _group_elements (self w)) ;;
  blocks <- traverse write_eltype grouped_elements ;;
  w <- get ;;
  group_lines <- traverse (λ g,
      t <- lift (λ w, group_generate_jobdata (heap w) g) ;;
      ret (GroupData g t)) (groups (self w)) ;;
  w <- get ;;
  release_lines <-
    (if nonempty (_releases (self w)) then
       ls <- traverse (λ r,
           t <- lift (λ w, release_generate_jobdata (heap w) r) ;;
           ret (ReleaseLine r t)) (iter (_releases (self w))) ;;
       ret (ReleaseHeader :: ls)
     else ret []) ;;
  ret (NodeHeader :: node_lines ++ concat blocks ++ group_lines ++ release_lines)%list.

(** [_generate_jobdata]. *)
Definition _generate_jobdata : M World string :=
  data <- part_data ;;
  w <- get ;;
  let temp := String.concat "" (fragment_text <$> data) in
  ret (String.concat ""
         ["*Part, name=" ++ part_name (self w) ++ nl; temp; "*End Part" ++ nl ++ "**" ++ nl]).
End AbaqusPart.

(** ** [PartBase] ([backends/_base/model/parts.py])

    The list-backed part.  Its node, element and set classes
    ([backends/_base/model/nodes.py] and the like) are not among the sources;
    the records below hold the attributes that [PartBase] reads, and the
    heap the two it writes: [key] and [label]. *)
Module PartBase.

Record Node := {
  node_id : positive;
  gkey : string
}.

Record Element := {
  element_id : positive;
  connectivity : list Z;
  connectivity_key : string;
  eltype : string;
  section : string;
  orientation : attr (option string);
  elset : option string
}.

(** [Set(name, selection, stype)]. *)
Record Set_ := {
  set_name : string;
  selection : list Z;
  stype : string
}.

Record Heap := {
  key : gmap positive Z;
  label : gmap positive string
}.

Definition set_key (i : positive) (k : Z) (h : Heap) : Heap :=
  {| key := <[i := k]> (key h); label := label h |}.
Definition set_label (i : positive) (l : string) (h : Heap) : Heap :=
  {| key := key h; label := <[i := l]> (label h) |}.

Record t := {
  _nodes : list Node;
  _materials : gmap string Material;
  _sections : gmap string Section;
  _elements : list Element;
  _elsets : list Set_;
  _nodes_gkeys : list string;
  _elements_by_type : gmap string (list Z);
  _elements_by_section : gmap string (list Z);
  _orientations_by_section : gmap string (list (option string));
  _elements_by_elset : gmap string (list Z)
}.

(** [PartBase(name)] as [__init__] leaves it. *)
Definition init : t :=
  {| _nodes := []; _materials := ∅; _sections := ∅; _elements := []; _elsets := [];
     _nodes_gkeys := []; _elements_by_type := ∅; _elements_by_section := ∅;
     _orientations_by_section := ∅; _elements_by_elset := ∅ |}.

Record World := {
  heap : Heap;
  self : t
}.

Definition with_heap (f : Heap → Heap) (w : World) : World :=
  {| heap := f (heap w); self := self w |}.
Definition with_self (f : t → t) (w : World) : World :=
  {| heap := heap w; self := f (self w) |}.

Definition set_nodes (ns : list Node) (p : t) : t :=
  {| _nodes := ns; _materials := _materials p; _sections := _sections p;
     _elements := _elements p; _elsets := _elsets p; _nodes_gkeys := _nodes_gkeys p;
     _elements_by_type := _elements_by_type p;
     _elements_by_section := _elements_by_section p;
     _orientations_by_section := _orientations_by_section p;
     _elements_by_elset := _elements_by_elset p |}.

Definition set_nodes_gkeys (gks : list string) (p : t) : t :=
  {| _nodes := _nodes p; _materials := _materials p; _sections := _sections p;
     _elements := _elements p; _elsets := _elsets p; _nodes_gkeys := gks;
     _elements_by_type := _elements_by_type p;
     _elements_by_section := _elements_by_section p;
     _orientations_by_section := _orientations_by_section p;
     _elements_by_elset := _elements_by_elset p |}.

Definition set_materials (ms : gmap string Material) (p : t) : t :=
  {| _nodes := _nodes p; _materials := ms; _sections := _sections p;
     _elements := _elements p; _elsets := _elsets p; _nodes_gkeys := _nodes_gkeys p;
     _elements_by_type := _elements_by_type p;
     _elements_by_section := _elements_by_section p;
     _orientations_by_section := _orientations_by_section p;
     _elements_by_elset := _elements_by_elset p |}.

Definition set_sections (ss : gmap string Section) (p : t) : t :=
  {| _nodes := _nodes p; _materials := _materials p; _sections := ss;
     _elements := _elements p; _elsets := _elsets p; _nodes_gkeys := _nodes_gkeys p;
     _elements_by_type := _elements_by_type p;
     _elements_by_section := _elements_by_section p;
     _orientations_by_section := _orientations_by_section p;
     _elements_by_elset := _elements_by_elset p |}.

Definition set_elements (es : list Element) (p : t) : t :=
  {| _nodes := _nodes p; _materials := _materials p; _sections := _sections p;
     _elements := es; _elsets := _elsets p; _nodes_gkeys := _nodes_gkeys p;
     _elements_by_type := _elements_by_type p;
     _elements_by_section := _elements_by_section p;
     _orientations_by_section := _orientations_by_section p;
     _elements_by_elset := _elements_by_elset p |}.

Definition set_elsets (ss : list Set_) (p : t) : t :=
  {| _nodes := _nodes p; _materials := _materials p; _sections := _sections p;
     _elements := _elements p; _elsets := ss; _nodes_gkeys := _nodes_gkeys p;
     _elements_by_type := _elements_by_type p;
     _elements_by_section := _elements_by_section p;
     _orientations_by_section := _orientations_by_section p;
     _elements_by_elset := _elements_by_elset p |}.

Definition set_groupings (bt bs : gmap string (list Z))
    (os : gmap string (list (option string))) (be : gmap string (list Z)) (p : t) : t :=
  {| _nodes := _nodes p; _materials := _materials p; _sections := _sections p;
     _elements := _elements p; _elsets := _elsets p; _nodes_gkeys := _nodes_gkeys p;
     _elements_by_type := bt; _elements_by_section := bs;
     _orientations_by_section := os; _elements_by_elset := be |}.

(** [check_node_in_part]: the indices of the stored geometric keys equal
    to the node's. *)
Definition check_node_in_part (p : t) (node : Node) : list nat :=
  (imap (λ index g, if bool_decide (g = gkey node) then [index] else []) (_nodes_gkeys p))
    ≫= id.

Definition is_truthy (l : option string) : bool :=
  match l with
  | Some (String _ _) => true
  | _ => false
  end.

(** [add_node(node, check)]. *)
Definition add_node (node : Node) (check : bool) : M World unit :=
  w <- get ;;
  if check && bool_decide (check_node_in_part (self w) node ≠ []) then
    ret tt
  else
    let k := Z.of_nat (length (_nodes (self w))) in
    modify (with_heap (set_key (node_id node) k)) ;;;
    modify (with_heap (λ h,
      if is_truthy (label h !! node_id node) then h
      else set_label (node_id node) ("n-" ++ pretty k) h)) ;;;
    modify (with_self (λ p, set_nodes (_nodes p ++ [node])%list p)) ;;;
    modify (with_self (λ p, set_nodes_gkeys (_nodes_gkeys p ++ [gkey node])%list p)).

Definition add_nodes (ns : list Node) (check : bool) : M World unit :=
  for_each ns (λ node, add_node node check).

(** [del l[i]] with an integer index: [-len(l) <= i < len(l)], negative
    indices counting from the end; else an [IndexError]. *)
Definition del {A} (i : Z) (l : list A) : option (list A) :=
  let n := Z.of_nat (length l) in
  if bool_decide (0 ≤ i < n)%Z then Some (delete (Z.to_nat i) l)
  else if bool_decide (- n ≤ i < 0)%Z then Some (delete (Z.to_nat (n + i)) l)
  else None.

(** [_reorder_nodes]: [label[:2]] of a label that is [None] is a
    [TypeError]. *)
Fixpoint reorder (ns : list Node) (k : Z) : M World unit :=
  match ns with
  | [] => ret tt
  | node :: ns' =>
      modify (with_heap (set_key (node_id node) k)) ;;;
      w <- get ;;
      match label (heap w) !! node_id node with
      | None => raise TypeError
      | Some l =>
          (if bool_decide (String.substring 0 2 l = "n-")
           then modify (with_heap (set_label (node_id node) ("n-" ++ pretty k)))
           else ret tt) ;;;
          reorder ns' (k + 1)
      end
  end.

Definition _reorder_nodes : M World unit :=
  w <- get ;;
  reorder (_nodes (self w)) 0.

Section remove_node.
(** [remove_node] deletes from [self.nodes_gkeys], a name [PartBase]
    does not define: [__init__] creates [_nodes_gkeys] and the class has
    no property for it.  Whether the lookup succeeds rests on the base
    class [FEABase], which is not among the sources;
    [nodes_gkeys_resolves] says whether it does, and it then names the
    list [_nodes_gkeys]. *)
Variable nodes_gkeys_resolves : bool.

Definition remove_node (node_key : Z) : M World unit :=
  w <- get ;;
  match del node_key (_nodes (self w)) with
  | None => raise IndexError
  | Some ns =>
      modify (with_self (set_nodes ns)) ;;;
      if nodes_gkeys_resolves then
        match del node_key (_nodes_gkeys (self w)) with
        | None => raise IndexError
        | Some gks =>
            modify (with_self (set_nodes_gkeys gks)) ;;;
            _reorder_nodes
        end
      else raise AttributeError
  end.

Definition remove_nodes (ks : list Z) : M World unit :=
  for_each ks remove_node.
End remove_node.

(** [check_element_in_part]: the keys of the elements of the same
    connectivity. *)
Definition check_element_in_part (w : World) (element : Element) : list (option Z) :=
  (λ e, key (heap w) !! element_id e)
    <$> filter (λ e, connectivity_key e = connectivity_key element) (_elements (self w)).

(** [d.setdefault(k, []).append(x)], as the code spells it out. *)
Definition append_to {A} (k : string) (x : A) (d : gmap string (list A)) : gmap string (list A) :=
  <[k := (default [] (d !! k) ++ [x])%list]> d.

Definition append_new `{EqDecision A} (k : string) (x : A) (d : gmap string (list A))
  : gmap string (list A) :=
  let l := default [] (d !! k) in
  <[k := if bool_decide (x ∈ l) then l else (l ++ [x])%list]> d.

(** [add_elements_to_set]. *)
Definition add_elements_to_set (name : string) (element_keys : list Z) (p : t) : t :=
  set_elsets
    ((λ s, if bool_decide (set_name s = name)
           then {| set_name := set_name s;
                   selection := foldl (λ sel k, if bool_decide (k ∈ sel) then sel
                                                else (sel ++ [k])%list)
                                      (selection s) element_keys;
                   stype := stype s |}
           else s) <$> _elsets p) p.

(** [add_element(element, check)]. *)
Definition add_element (element : Element) (check : bool) : M World unit :=
  w <- get ;;
  if check && bool_decide (check_element_in_part w element ≠ []) then
    ret tt
  else
    let k := Z.of_nat (length (_elements (self w))) in
    modify (with_heap (set_key (element_id element) k)) ;;;
    w <- get ;;
    let node_keys := (λ node, key (heap w) !! node_id node) <$> _nodes (self w) in
    if bool_decide (Forall (λ c, Some c ∈ node_keys) (connectivity element)) then
      modify (with_self (λ p, set_elements (_elements p ++ [element])%list p)) ;;;
      modify (with_self (λ p,
        set_groupings
          (append_to (eltype element) k (_elements_by_type p))
          (append_to (section element) k (_elements_by_section p))
          (match orientation element with
           | Attr o => append_new (section element) o (_orientations_by_section p)
           | Missing => append_new (section element) None (_orientations_by_section p)
           end)
          (_elements_by_elset p) p)) ;;;
      match elset element with
      | Some (String c s) =>
          let name := String c s in
          modify (with_self (λ p,
            if bool_decide (is_Some (_elements_by_elset p !! name)) then p
            else
              set_groupings (_elements_by_type p) (_elements_by_section p)
                (_orientations_by_section p) (<[name := []]> (_elements_by_elset p))
                (set_elsets (_elsets p ++ [{| set_name := name; selection := [];
                                              stype := "elset" |}])%list p))) ;;;
          modify (with_self (λ p,
            set_groupings (_elements_by_type p) (_elements_by_section p)
              (_orientations_by_section p) (append_to name k (_elements_by_elset p)) p)) ;;;
          modify (with_self (add_elements_to_set name [k]))
      | _ => ret tt
      end
    else raise ValueError.

(** [add_material]. *)
Definition add_material (m : Material) : M World unit :=
  modify (with_self (λ p,
    if bool_decide (is_Some (_materials p !! material_name m)) then p
    else set_materials (<[material_name m := m]> (_materials p)) p)).

(** [add_section]: the material is looked up by name, given as a string
    or as an object; [.name] of anything else is an [AttributeError]. *)
Definition add_section (sec : Section) : M World unit :=
  w <- get ;;
  if bool_decide (is_Some (_sections (self w) !! section_name sec)) then
    ret tt
  else
    match material sec with
    | MaterialName name =>
        if bool_decide (is_Some (_materials (self w) !! name))
        then modify (with_self (λ p, set_sections (<[section_name sec := sec]> (_sections p)) p))
        else raise ValueError
    | MaterialObj m =>
        if bool_decide (is_Some (_materials (self w) !! material_name m))
        then modify (with_self (λ p, set_sections (<[section_name sec := sec]> (_sections p)) p))
        else raise ValueError
    | MaterialNone => raise AttributeError
    end.

(** More of [PartBase]. *)

(** [find_duplicate_nodes]: a [dict] from the geometric keys that two or
    more nodes share to the key of the first node that has it, in
    insertion order. *)
Definition find_duplicate_nodes (w : World) : list (string * option Z) :=
  foldl (λ duplicates node,
      if bool_decide (2 ≤ length (check_node_in_part (self w) node))%nat then
        if bool_decide (gkey node ∈ duplicates.*1) then duplicates
        else (duplicates ++ [(gkey node, key (heap w) !! node_id node)])%list
      else duplicates)
    [] (_nodes (self w)).

(** The vocabulary of the properties of [PartBase]. *)

#[global] Instance Node_eq_dec : EqDecision Node.
Proof. solve_decision. Defined.

(** The nodes of [ns] carry the keys [k], [k+1], ... in list order. *)
Definition numbered (h : Heap) (ns : list Node) (k : Z) : Prop :=
  ∀ i n, ns !! i = Some n → key h !! node_id n = Some (k + Z.of_nat i)%Z.

Definition labelled (h : Heap) (ns : list Node) : Prop :=
  ∀ n, n ∈ ns → is_Some (label h !! node_id n).

(** An identity stands for one object. *)
Definition one_object_per_identity (ns : list Node) : Prop :=
  Forall (λ n, Forall (λ n', node_id n = node_id n' → n = n') ns) ns.

(** The keys of the nodes of the part, in list order. *)
Definition node_keys (w : World) : list (option Z) :=
  (λ n, key (heap w) !! node_id n) <$> _nodes (self w).

Record inv (U : list Node) (w : World) : Prop := {
  inv_universe : _nodes (self w) ⊆ U;
  inv_gkeys : _nodes_gkeys (self w) = gkey <$> _nodes (self w);
  inv_NoDup : NoDup (node_id <$> _nodes (self w));
  inv_numbered : numbered (heap w) (_nodes (self w)) 0;
  inv_labelled : labelled (heap w) (_nodes (self w))
}.

(** A call of [add_node] (check on, the default) or of [remove_node]. *)
Inductive call :=
| AddNode (node : Node)
| RemoveNode (node_key : Z).

Definition run_call (nodes_gkeys_resolves : bool) (c : call) : M World unit :=
  match c with
  | AddNode node => add_node node true
  | RemoveNode node_key => remove_node nodes_gkeys_resolves node_key
  end.

Definition run_calls (nodes_gkeys_resolves : bool) (cs : list call) : M World unit :=
  for_each cs (run_call nodes_gkeys_resolves).

Definition added (cs : list call) : list Node :=
  cs ≫= λ c, match c with AddNode node => [node] | RemoveNode _ => [] end.

(** A call of one of the methods that build a part. *)
Inductive api_call :=
| CallAddNode (node : Node) (check : bool)
| CallRemoveNode (node_key : Z)
| CallAddElement (element : Element) (check : bool)
| CallAddMaterial (m : Material)
| CallAddSection (sec : Section).

Definition run_api (nodes_gkeys_resolves : bool) (c : api_call) : M World unit :=
  match c with
  | CallAddNode node check => add_node node check
  | CallRemoveNode node_key => remove_node nodes_gkeys_resolves node_key
  | CallAddElement element check => add_element element check
  | CallAddMaterial m => add_material m
  | CallAddSection sec => add_section sec
  end.

Definition run_apis (nodes_gkeys_resolves : bool) (cs : list api_call) : M World unit :=
  for_each cs (run_api nodes_gkeys_resolves).

(** The name under which [add_section] looks the material of a section
    up. *)
Definition material_name_of (sec : Section) : option string :=
  match material sec with
  | MaterialName n => Some n
  | MaterialObj m => Some (material_name m)
  | MaterialNone => None
  end.

(** Every material and every section is stored under its own name, and
    the material of every section is one of the part's. *)
Definition resolved (p : t) : Prop :=
  (∀ name m, _materials p !! name = Some m → material_name m = name) ∧
  (∀ name sec, _sections p !! name = Some sec →
     section_name sec = name ∧
     ∃ n, material_name_of sec = Some n ∧ is_Some (_materials p !! n)).

(** A call that adds an element checks for an element of the same
    connectivity. *)
Definition checked (c : api_call) : Prop :=
  match c with
  | CallAddElement _ check => check = true
  | _ => True
  end.

End PartBase.

(** * The vocabulary of the properties and the examples *)

Definition empty_heap : Heap :=
  {| h_key := ∅; h_registration := ∅; h_connected := ∅; h_group_registration := [] |}.

Definition empty_part : Part :=
  {| part_id := 100; part_name := "part"; _registration := None; _key := None;
     _nodes := ∅; _gkey_node := ∅; _sections := ∅; _materials := ∅; _elements := ∅;
     _releases := ∅; _nodesgroups := []; _elementsgroups := []; _facesgroups := [] |}.

Definition empty_world : World := {| heap := empty_heap; self := empty_part |}.

Definition verbose : Config :=
  {| VERBOSE := true; POINT_OVERLAP := false; GLOBAL_TOLERANCE := 1 |}.
Definition quiet : Config :=
  {| VERBOSE := false; POINT_OVERLAP := false; GLOBAL_TOLERANCE := 1 |}.

Definition node_a : Node := {| node_id := 1; xyz := (0, 0, 0)%Qc; gkey := "0.000,0.000,0.000" |}.

Definition registered (p : Part) (node : Node) : Prop := node ∈ iter (_nodes p).

(** [within cfg a b]: [b] is strictly closer to [a] than the tolerance, the
    test [find_nodes_around_point] makes. *)
Definition within (cfg : Config) (a b : point) : Prop :=
  (distance_point_point_sqrd a b < GLOBAL_TOLERANCE cfg * GLOBAL_TOLERANCE cfg)%Qc.

Definition node_b : Node :=
  {| node_id := 2; xyz := (Q2Qc (3 # 2), 0, 0)%Qc; gkey := "1.500,0.000,0.000" |}.
Definition node_p : Node :=
  {| node_id := 3; xyz := (Q2Qc (3 # 4), 0, 0)%Qc; gkey := "0.750,0.000,0.000" |}.

(** A part with two nodes a distance 3/2 apart, under a tolerance of 1. *)
Definition two_nodes : World := (add_nodes quiet [node_a; node_b] empty_world).2.

(** Every object of the set sits under its own identity: what [add] keeps
    and every set built with it has. *)
Definition wf_set {A} `{Identified A} (s : pyset A) : Prop :=
  map_Forall (λ i x, id_of x = i) s.

(** The nodes an answer holds. *)
Definition closest_nodes (r : closest) : list Node :=
  match r with
  | ClosestNodes found => found
  | ClosestReport found => (map_to_list found).*2.*1
  end.

Definition steel : Material := {| material_id := 10; material_name := "steel" |}.
Definition sec_steel : Section :=
  {| section_id := 20; section_name := "sec"; material := MaterialObj steel |}.

(** [find_material_by_name]. *)
Definition find_material_by_name (p : Part) (name : string) : option Material :=
  head (filter (λ m, material_name m = name) (iter (_materials p))).

(** A call that returns from every state. *)
Definition returns {S A} (c : M S A) : Prop := ∀ s, ∃ a s', c s = (Return a, s').

(** What [add_node] leaves alone, and what it can only extend. *)
Record node_frame (w w' : World) : Prop := {
  nf_sections : _sections (self w') = _sections (self w);
  nf_materials : _materials (self w') = _materials (self w);
  nf_elements : _elements (self w') = _elements (self w);
  nf_releases : _releases (self w') = _releases (self w);
  nf_nodesgroups : _nodesgroups (self w') = _nodesgroups (self w);
  nf_elementsgroups : _elementsgroups (self w') = _elementsgroups (self w);
  nf_facesgroups : _facesgroups (self w') = _facesgroups (self w);
  nf_part_id : part_id (self w') = part_id (self w);
  nf_part_name : part_name (self w') = part_name (self w);
  nf_registration : _registration (self w') = _registration (self w);
  nf_key : h_key (heap w') = h_key (heap w);
  nf_connected : h_connected (heap w') = h_connected (heap w);
  nf_group_registration : h_group_registration (heap w') = h_group_registration (heap w);
  nf_nodes : ∀ n, contains_node (self w) n = true → contains_node (self w') n = true;
  nf_wf : wf_set (_nodes (self w)) → wf_set (_nodes (self w'))
}.

Definition connect (e : Element) (ns : list Node) (h : Heap) : Heap :=
  foldl (λ h n, connected_elements_add n e h) h ns.

Definition shell_a : Element :=
  {| element_id := 30; nodes := [node_a; node_b]; section := sec_steel;
     _eltype := "S3"; _orientation := Missing |}.

Definition base_node_0 : PartBase.Node := {| PartBase.node_id := 1; PartBase.gkey := "0,0,0" |}.
Definition base_node_1 : PartBase.Node := {| PartBase.node_id := 2; PartBase.gkey := "1,0,0" |}.
Definition base_node_2 : PartBase.Node := {| PartBase.node_id := 3; PartBase.gkey := "2,0,0" |}.

Definition base_empty : PartBase.World :=
  {| PartBase.heap := {| PartBase.key := ∅; PartBase.label := ∅ |};
     PartBase.self := PartBase.init |}.



(** The set of the keys of the nodes of a [_Part]. *)
Definition part_node_keys (w : World) : gset (option Z) :=
  list_to_set ((λ n, key_of (heap w) (node_id n)) <$> iter (_nodes (self w))).

(** The keys are exactly [0 .. count-1]. *)
Definition part_dense (w : World) : Prop :=
  part_node_keys w = list_to_set (Some <$> seqZ 0 (Z.of_nat (len (_nodes (self w))))).

Definition three_calls : list PartBase.call :=
  [PartBase.AddNode base_node_0; PartBase.AddNode base_node_1;
   PartBase.AddNode base_node_2; PartBase.RemoveNode 0].

Definition node_c : Node :=
  {| node_id := 5; xyz := (Q2Qc 3, 0, 0)%Qc; gkey := "3.000,0.000,0.000" |}.

(** Three nodes, numbered from 0 by [assign_keys]. *)
Definition three_keyed : World :=
  (assign_keys 0 (add_nodes quiet [node_a; node_b; node_c] empty_world).2).2.

(** The element of the four-node example: keys from 0, text from 1. *)
Definition quad_nodes : list Node :=
  [ {| node_id := 1; xyz := (0, 0, 0)%Qc; gkey := "0.000,0.000,0.000" |};
    {| node_id := 2; xyz := (Q2Qc 10, 0, 0)%Qc; gkey := "10.000,0.000,0.000" |};
    {| node_id := 3; xyz := (Q2Qc 10, Q2Qc 10, 0)%Qc; gkey := "10.000,10.000,0.000" |};
    {| node_id := 4; xyz := (0, Q2Qc 10, 0)%Qc; gkey := "0.000,10.000,0.000" |} ].

Definition quad : Element :=
  {| element_id := 30; nodes := quad_nodes; section := sec_steel;
     _eltype := "S4"; _orientation := Missing |}.

Definition quad_heap : Heap :=
  {| h_key := <[30%positive := 0%Z]>
                (<[1%positive := 0%Z]> (<[2%positive := 1%Z]>
                  (<[3%positive := 2%Z]> (<[4%positive := 3%Z]> ∅))));
     h_registration := ∅; h_connected := ∅; h_group_registration := [] |}.

(** Every member of every set of the dictionary is one of [sub]. *)
Definition members_among (sub : list Element) (d : by_orientation) : Prop :=
  ∀ o els e, (o, els) ∈ d → e ∈ iter els → e ∈ sub.

(** The buckets of a grouping, flat: type, section, orientation key and
    the set of elements. *)
Definition bucket : Type := string * Section * option string * pyset Element.

Definition buckets (g : by_eltype) : list bucket :=
  g ≫= λ '(eltype, sections),
    sections ≫= λ '(sec, orientations),
      (λ '(o, els), (eltype, sec, o, els)) <$> orientations.

(** A call that keeps [P], whatever its outcome. *)
Definition preserves {S A} (P : S → Prop) (c : M S A) : Prop := ∀ s, P s → P (c s).2.

(** What writing the job data leaves alone: everything but the set of
    element groups, which can only grow at its end, and the registration of
    the groups. *)
Record serial_frame (w w' : World) : Prop := {
  sf_part_id : part_id (self w') = part_id (self w);
  sf_part_name : part_name (self w') = part_name (self w);
  sf_registration : _registration (self w') = _registration (self w);
  sf_part_key : _key (self w') = _key (self w);
  sf_nodes : _nodes (self w') = _nodes (self w);
  sf_gkey_node : _gkey_node (self w') = _gkey_node (self w);
  sf_sections : _sections (self w') = _sections (self w);
  sf_materials : _materials (self w') = _materials (self w);
  sf_elements : _elements (self w') = _elements (self w);
  sf_releases : _releases (self w') = _releases (self w);
  sf_nodesgroups : _nodesgroups (self w') = _nodesgroups (self w);
  sf_facesgroups : _facesgroups (self w') = _facesgroups (self w);
  sf_h_key : h_key (heap w') = h_key (heap w);
  sf_h_registration : h_registration (heap w') = h_registration (heap w);
  sf_h_connected : h_connected (heap w') = h_connected (heap w);
  sf_elementsgroups :
    ∃ aux, _elementsgroups (self w') = (_elementsgroups (self w) ++ aux)%list ∧
           Forall (λ g, ∃ name els, g = ElementsGroup name els) aux
}.

(** The fragments of the node block and those that follow it. *)
Definition is_node_fragment (f : fragment) : bool :=
  match f with
  | NodeHeader | NodeLine _ _ => true
  | _ => false
  end.

Definition is_element_header (f : fragment) : bool :=
  match f with
  | ElementHeader _ => true
  | _ => false
  end.

(** What one bucket writes: the header, a line for each element of the
    bucket in the order of its set, the auxiliary set and the section. *)
Definition bucket_block (eltype : string) (sec : Section) (o : option string)
    (els : pyset Element) (fs : list fragment) : Prop :=
  ∃ texts t1 t2,
    length texts = length (iter els) ∧
    fs = (ElementHeader eltype
            :: zip_with ElementLine (iter els) texts
            ++ [ElsetData (ElementsGroup (aux_name eltype sec o) els) t1;
                SectionData sec t2])%list.

Definition bucket_writes (b : bucket) (fs : list fragment) : Prop :=
  let '(eltype, sec, o, els) := b in bucket_block eltype sec o els fs.

Definition after_node_block (f : fragment) : Prop :=
  is_node_fragment f = false ∧ is_element_header f = false.

(** Stand-ins for the renderers of the classes that are not among the
    sources, for the examples: a node line holds the key plus one and the
    geometric key, a set or a section its name. *)
Definition node_line (h : Heap) (n : Node) : outcome string :=
  match key_of h (node_id n) with
  | Some k => Return (pretty (k + 1)%Z ++ ", " ++ gkey n ++ nl)
  | None => Raise TypeError
  end.
Definition group_line (h : Heap) (g : Group) : outcome string :=
  Return ("*Elset, elset=" ++ group_name g ++ nl).
Definition section_line (h : Heap) (s : Section) (elset : string)
    (orientation : option (list string)) : outcome string :=
  Return ("*Section, elset=" ++ elset ++ nl).
Definition release_line (h : Heap) (r : Release) : outcome string := Return "".

(** The part of the four-node example, with its one shell element, keys
    from 0. *)
Definition quad_world : World :=
  (assign_keys 0 (add_element quiet quad true empty_world).2).2.

(** Two nodes whose keys run against the order of the node set. *)
Definition against_order : World :=
  with_heap (set_key 2 (Some 1%Z)) (with_heap (set_key 1 (Some 0%Z)) two_nodes).

(** The keys of the nodes of the node lines, in the order of the lines. *)
Definition node_line_keys (h : Heap) (data : list fragment) : list (option Z) :=
  data ≫= λ f, match f with NodeLine n _ => [key_of h (node_id n)] | _ => [] end.

(** A truss element, as [AbaqusTrussElement] makes it: [_orientation] is
    there and is [None]. *)
Definition truss : Element :=
  {| element_id := 31; nodes := [node_a; node_b]; section := sec_steel;
     _eltype := "T3D2"; _orientation := Attr None |}.

Definition truss_world : World :=
  (assign_keys 0 (add_element quiet truss true empty_world).2).2.

(** The vocabulary of the further properties. *)

(** An identity stands for one object of the list. *)
Definition one_element_per_identity (els : list Element) : Prop :=
  ∀ x y, x ∈ els → y ∈ els → element_id x = element_id y → x = y.

(** What tells the buckets of a grouping apart: the type, the section
    (an object, by identity) and the orientation key. *)
Definition bucket_key (b : bucket) : string * positive * option string :=
  let '(eltype, sec, o, _) := b in (eltype, section_id sec, o).

Definition bucket_members (b : bucket) : pyset Element :=
  let '(_, _, _, els) := b in els.

(** The orientation key of an element; [None] also where the key cannot
    be made. *)
Definition orientation_key (e : Element) : option string :=
  match orientation_of e with
  | Return o => o
  | Raise _ => None
  end.

Definition element_triple (e : Element) : string * positive * option string :=
  (_eltype e, section_id (section e), orientation_key e).

(** A frame: a shell and two beams of one section that differ in their
    orientation. *)
Definition beam_x : Element :=
  {| element_id := 31; nodes := [node_a; node_b]; section := sec_steel;
     _eltype := "B31"; _orientation := Attr (Some [PyFloat "0.0"; PyFloat "0.0"; PyFloat "1.0"]) |}.

Definition beam_y : Element :=
  {| element_id := 32; nodes := [node_b; node_c]; section := sec_steel;
     _eltype := "B31"; _orientation := Attr (Some [PyFloat "0.0"; PyFloat "1.0"; PyFloat "0.0"]) |}.

Definition frame_world : World :=
  (assign_keys 0 (add_elements quiet [shell_a; beam_x; beam_y] empty_world).2).2.

Definition frame_groups : by_eltype :=
  match _group_elements (self frame_world) with
  | Return g => g
  | Raise _ => []
  end.

(** The entries written for the frame, and the part after that. *)
Definition frame_data : list fragment :=
  match (part_data node_line group_line section_line release_line quiet frame_world).1 with
  | Return data => data
  | Raise _ => []
  end.

Definition frame_written : World :=
  (part_data node_line group_line section_line release_line quiet frame_world).2.

(** The part once [add_node] has registered the node. *)
Definition with_node (node : Node) (w : World) : World :=
  {| heap := set_registration (node_id node) (Some (part_id (self w))) (heap w);
     self := set_nodes (add node (_nodes (self w))) (<[gkey node := node]> (_gkey_node (self w)))
               match model (self w) with
               | Some m => set_part_key (Some (model_nodes_len m)) (self w)
               | None => self w
               end |}.

(** The nodes that stand in the way of a node: those [add_node] finds
    strictly within the tolerance, unless overlapping is allowed. *)
Definition existing_node (cfg : Config) (p : Part) (node : Node) : list Node :=
  if negb (POINT_OVERLAP cfg)
  then find_nodes_around_point p (xyz node) (GLOBAL_TOLERANCE cfg)
  else [].

Definition overlapping : Config :=
  {| VERBOSE := false; POINT_OVERLAP := true; GLOBAL_TOLERANCE := 1 |}.

(** A second node at the place of [node_a]. *)
Definition node_a' : Node := {| node_id := 6; xyz := (0, 0, 0)%Qc; gkey := "0.000,0.000,0.000" |}.

(** The part once [add_element] has registered the element, its section
    and the section's material, from the part [w1] that has the nodes. *)
Definition with_element (e : Element) (mat : Material) (w1 : World) : World :=
  {| heap :=
       set_registration (element_id e) (Some (part_id (self w1)))
         (set_registration (section_id (section e)) (model_id <$> _registration (self w1))
            (set_registration (material_id mat) (Some (part_id (self w1)))
               (connect e (nodes e) (heap w1))));
     self :=
       set_elements (add e (_elements (self w1)))
         (set_sections (add (section e) (_sections (self w1)))
            (set_materials (add mat (_materials (self w1))) (self w1))) |}.

(** The empty part with one shell element added. *)
Definition shell_world : World := (add_element quiet shell_a true empty_world).2.

(** The identities of the objects that [assign_keys] numbers. *)
Definition keyed_ids (p : Part) : list positive :=
  ((node_id <$> iter (_nodes p)) ++ (element_id <$> iter (_elements p)) ++
   (section_id <$> iter (_sections p)) ++ (material_id <$> iter (_materials p)))%list.

(** A second node at the place of [base_node_0], and calls that add it. *)
Definition base_node_0' : PartBase.Node := {| PartBase.node_id := 4; PartBase.gkey := "0,0,0" |}.

Definition dup_calls : list PartBase.call :=
  [PartBase.AddNode base_node_0; PartBase.AddNode base_node_0'; PartBase.AddNode base_node_1].

Definition dup_world : PartBase.World := (PartBase.run_calls true dup_calls base_empty).2.

(** The label of a node after [_reorder_nodes] has given it the key [k]:
    a label that begins with [n-] follows the key, another label stays. *)
Definition relabel (l : string) (k : Z) : string :=
  if bool_decide (String.substring 0 2 l = "n-") then "n-" ++ pretty k else l.

(** Three nodes, the second with a label of the user's. *)
Definition base_labelled : PartBase.World :=
  (PartBase.add_nodes [base_node_0; base_node_1; base_node_2] true
     {| PartBase.heap := {| PartBase.key := ∅; PartBase.label := {[ 2%positive := "support" ]} |};
        PartBase.self := PartBase.init |}).2.

(** A section whose material the part does not have, and calls that add
    a material and two sections. *)
Definition sec_wood : Section :=
  {| section_id := 21; section_name := "sec_wood"; material := MaterialName "wood" |}.

Definition build_calls : list PartBase.api_call :=
  [PartBase.CallAddMaterial steel; PartBase.CallAddSection sec_steel;
   PartBase.CallAddSection sec_wood].

(** The character occurs in the string. *)
Fixpoint occurs (c : ascii) (s : string) : bool :=
  match s with
  | EmptyString => false
  | String c' s' => Ascii.eqb c' c || occurs c s'
  end.

(** A call of one of the methods of [_Part] that change a part. *)
Inductive part_call :=
| PartAddNode (node : Node)
| PartRemoveNode (node : Node)
| PartAddMaterial (m : material_attr)
| PartAddSection (sec : Section)
| PartAddElement (element : Element) (checks : bool)
| PartRemoveElement (element : Element)
| PartAssignKeys (start : Z).

Definition run_part_call (cfg : Config) (c : part_call) : M World unit :=
  match c with
  | PartAddNode node => add_node cfg node ;;; ret tt
  | PartRemoveNode node => remove_node node
  | PartAddMaterial m => add_material m ;;; ret tt
  | PartAddSection sec => add_section sec ;;; ret tt
  | PartAddElement element checks => add_element cfg element checks ;;; ret tt
  | PartRemoveElement element => remove_element element
  | PartAssignKeys start => assign_keys start
  end.

Definition run_part_calls (cfg : Config) (cs : list part_call) : M World unit :=
  for_each cs (run_part_call cfg).

(** The section of every element of the part is among the sections of
    the part, and the material of every section of the part is a material
    object among the materials of the part. *)
Definition integral (p : Part) : Prop :=
  (∀ e, e ∈ iter (_elements p) → contains_section p (section e) = true) ∧
  (∀ s, s ∈ iter (_sections p) →
     ∃ m, material s = MaterialObj m ∧ contains_material p m = true).

(** Calls on a part: an element is added, a node removed, a section whose
    material is a name added, the element removed. *)
Definition part_calls : list part_call :=
  [PartAddElement shell_a true; PartRemoveNode node_a; PartAddSection sec_wood;
   PartRemoveElement shell_a].

(** Two beams of the same connectivity, and calls that add them. *)
Definition base_beam_0 : PartBase.Element :=
  {| PartBase.element_id := 31; PartBase.connectivity := [0; 1]%Z;
     PartBase.connectivity_key := "0_1"; PartBase.eltype := "B31";
     PartBase.section := "sec"; PartBase.orientation := Missing;
     PartBase.elset := None |}.

Definition base_beam_1 : PartBase.Element :=
  {| PartBase.element_id := 32; PartBase.connectivity := [0; 1]%Z;
     PartBase.connectivity_key := "0_1"; PartBase.eltype := "B31";
     PartBase.section := "sec"; PartBase.orientation := Missing;
     PartBase.elset := Some "beams" |}.

Definition beam_calls : list PartBase.api_call :=
  [PartBase.CallAddNode base_node_0 true; PartBase.CallAddNode base_node_1 true;
   PartBase.CallAddElement base_beam_0 true; PartBase.CallAddElement base_beam_1 true].

(** Three nodes added without the check, two of them at one place. *)
Definition base_unchecked : PartBase.World :=
  (PartBase.add_nodes [base_node_0; base_node_0'; base_node_1] false base_empty).2.

(** What a dictionary of buckets holds: members of [sub], each under its
    own identity and under its orientation key. *)
Definition sound (sub : list Element) (d : by_orientation) : Prop :=
  ∀ o els i x, (o, els) ∈ d → els !! i = Some x →
    x ∈ sub ∧ element_id x = i ∧ orientation_of x = Return o.

(** [d'] holds what [d] holds. *)
Definition grows (d d' : by_orientation) : Prop :=
  ∀ o els x, (o, els) ∈ d → els !! element_id x = Some x →
    ∃ els', (o, els') ∈ d' ∧ els' !! element_id x = Some x.

Definition holds (d : by_orientation) (o : option string) (x : Element) : Prop :=
  ∃ els, (o, els) ∈ d ∧ els !! element_id x = Some x.

(** * Properties *)

(** ** Sequencing *)

Ltac run := unfold bind, ret, raise, get, gets, modify, lift in *; simpl in *.

Lemma bind_Return {S A B} (c : M S A) (k : A → M S B) s a s' :
  c s = (Return a, s') → bind c k s = k a s'.
Proof. intros E. unfold bind. by rewrite E. Qed.

Lemma bind_Raise {S A B} (c : M S A) (k : A → M S B) s e s' :
  c s = (Raise e, s') → bind c k s = (Raise e, s').
Proof. intros E. unfold bind. by rewrite E. Qed.

(** A traversal whose steps all return without touching the state does the
    same. *)
Lemma traverse_pure {S A B} (f : A → M S B) (g : A → B) (xs : list A) (s : S) :
  (∀ x, x ∈ xs → f x s = (Return (g x), s)) →
  traverse f xs s = (Return (g <$> xs), s).
Proof.
  induction xs as [|x xs IH]; intros Hf; [done|].
  simpl. rewrite (bind_Return _ _ _ _ _ (Hf x (list_elem_of_here _ _))).
  rewrite (bind_Return _ _ _ _ _ (IH (λ y Hy, Hf y (list_elem_of_further _ _ _ Hy)))).
  done.
Qed.

(** A property of the state that every step keeps, whatever the outcome,
    is kept by the traversal. *)
Lemma traverse_preserves {S A B} (P : S → Prop) (f : A → M S B) (xs : list A) (s : S) :
  (∀ x s0, x ∈ xs → P s0 → P (f x s0).2) →
  P s → P (traverse f xs s).2.
Proof.
  revert s. induction xs as [|x xs IH]; intros s Hf Hs; [done|].
  simpl. unfold bind.
  pose proof (Hf x s (list_elem_of_here _ _) Hs) as H1.
  destruct (f x s) as [[b|e] s1]; [|done].
  simpl in H1.
  pose proof (IH s1 (λ y s0 Hy, Hf y s0 (list_elem_of_further _ _ _ Hy)) H1) as H2.
  destruct (traverse f xs s1) as [[bs|e] s2]; done.
Qed.

(** ** C10: with [VERBOSE] on, [add_node] registers nothing *)

Lemma add_node_verbose (cfg : Config) (node : Node) (w : World) :
  VERBOSE cfg = true → add_node cfg node w = (Return node, w).
Proof. intros Hv. unfold add_node. by rewrite Hv. Qed.

(** C10.  While [VERBOSE] is on, [add_node] hands its argument back and
    leaves the part and the heap as they were, whether or not the node is
    in the part: the node set, the geometric-key index and the node's
    registration are unchanged, and so are they after [add_nodes] of any
    list of nodes. *)
Theorem add_node_verbose_registers_nothing (cfg : Config) (w : World) :
  VERBOSE cfg = true →
  (∀ node : Node,
     add_node cfg node w = (Return node, w) ∧
     _nodes (self (add_node cfg node w).2) = _nodes (self w) ∧
     _gkey_node (self (add_node cfg node w).2) = _gkey_node (self w) ∧
     h_registration (heap (add_node cfg node w).2) !! node_id node
       = h_registration (heap w) !! node_id node) ∧
  (∀ ns : list Node, add_nodes cfg ns w = (Return ns, w)).
Proof.
  intros Hv. split.
  - intros node. by rewrite add_node_verbose.
  - intros ns. unfold add_nodes.
    rewrite (traverse_pure _ id); [by rewrite list_fmap_id|].
    intros x _. by apply add_node_verbose.
Qed.

Lemma add_node_verbose_registers_nothing_witness :
  add_node verbose node_a empty_world = (Return node_a, empty_world) ∧
  _nodes (self (add_node verbose node_a empty_world).2) = ∅.
Proof.
  pose proof (add_node_verbose_registers_nothing verbose empty_world eq_refl) as [H _].
  destruct (H node_a) as (H1 & H2 & _). split; [exact H1 | exact H2].
Defined.

(** ** C3: adding a node next to a registered one *)


Lemma find_nodes_around_point_spec (p : Part) (pt : point) (d : Qc) (node : Node) :
  node ∈ find_nodes_around_point p pt d ↔
  registered p node ∧ (distance_point_point_sqrd (xyz node) pt < d * d)%Qc.
Proof. unfold find_nodes_around_point, registered. rewrite list_elem_of_filter. tauto. Qed.





(** ** Sets of objects *)

Section pyset_facts.
Context {A : Type} `{Identified A}.
Implicit Types s : pyset A.

Lemma length_iter s : length (iter s) = len s.
Proof. unfold iter, len. by rewrite length_fmap, length_map_to_list. Qed.

Lemma elem_of_iter s x : x ∈ iter s ↔ ∃ i, s !! i = Some x.
Proof.
  unfold iter. rewrite list_elem_of_fmap. split.
  - intros [[i y] [-> Hy]]. exists i. by apply elem_of_map_to_list.
  - intros [i Hi]. exists (i, x). split; [done|]. by apply elem_of_map_to_list.
Qed.

Lemma iter_ids s : wf_set s → id_of <$> iter s = (map_to_list s).*1.
Proof.
  intros Hwf. unfold iter. rewrite <- list_fmap_compose.
  apply list_fmap_ext. intros j [i x] Hj. simpl.
  apply list_elem_of_lookup_2, elem_of_map_to_list in Hj. by apply Hwf in Hj.
Qed.

Lemma NoDup_iter_ids s : wf_set s → NoDup (id_of <$> iter s).
Proof. intros Hwf. rewrite iter_ids by done. apply NoDup_fst_map_to_list. Qed.

Lemma wf_set_empty : wf_set (∅ : pyset A).
Proof. apply map_Forall_empty. Qed.

Lemma wf_set_add x s : wf_set s → wf_set (add x s).
Proof. intros Hwf. by apply map_Forall_insert_2. Qed.

Lemma wf_set_remove x s : wf_set s → wf_set (remove x s).
Proof. intros Hwf. by apply map_Forall_delete. Qed.

Lemma contains_iter x s : wf_set s → x ∈ iter s → contains s x = true.
Proof.
  intros Hwf [i Hi]%elem_of_iter. unfold contains. apply bool_decide_eq_true_2.
  rewrite (Hwf _ _ Hi). eauto.
Qed.
End pyset_facts.

(** ** C8: the count of [find_closest_nodes_to_point] is validated *)

Lemma lookups_NoDup {A B} (f : A → B) (l : list A) (ixs : list nat) (ys : list A) :
  NoDup (f <$> l) → NoDup ixs →
  Forall2 (λ i y, l !! i = Some y) ixs ys →
  NoDup (f <$> ys).
Proof.
  intros Hl Hixs HF. induction HF as [|i y ixs ys Hi HF IH]; [constructor|].
  apply NoDup_cons in Hixs as [Hni Hixs]. simpl. apply NoDup_cons. split; [|by apply IH].
  intros Hin. apply list_elem_of_fmap in Hin as (y' & Hfy & Hy').
  apply list_elem_of_lookup in Hy' as [n Hn].
  destruct (Forall2_lookup_r _ _ _ _ _ HF Hn) as (j & Hj & Hlj).
  apply Hni. apply list_elem_of_lookup_2 in Hj.
  assert (i = j) as ->; [|done].
  apply (NoDup_lookup (f <$> l) i j (f y) Hl).
  - by rewrite list_lookup_fmap, Hi.
  - by rewrite list_lookup_fmap, Hlj, Hfy.
Qed.

Section kdtree_query.
Variables (pts : list point) (pt : point) (k : nat).

Lemma kdtree_query_indices_perm : (merge_sort nearer (indexed_distances pts pt)).*2 ≡ₚ seq 0 (length pts).
Proof.
  rewrite merge_sort_Permutation. unfold indexed_distances.
  by rewrite snd_zip by (by rewrite length_fmap, length_seq).
Qed.

Lemma length_kdtree_query : (k ≤ length pts)%nat → length (kdtree_query pts pt k) = k.
Proof.
  intros Hk. unfold kdtree_query. rewrite length_take.
  rewrite <- (length_fmap snd), kdtree_query_indices_perm, length_seq. lia.
Qed.

Lemma kdtree_query_indices_lt : Forall (λ i, (i < length pts)%nat) (kdtree_query pts pt k).*2.
Proof.
  apply Forall_forall. intros i Hi. unfold kdtree_query in Hi.
  rewrite fmap_take in Hi. apply subseteq_take in Hi.
  rewrite kdtree_query_indices_perm in Hi. apply elem_of_seq in Hi. lia.
Qed.

Lemma kdtree_query_indices_NoDup : NoDup (kdtree_query pts pt k).*2.
Proof.
  unfold kdtree_query. rewrite fmap_take.
  eapply sublist_NoDup; [|apply sublist_take].
  rewrite kdtree_query_indices_perm. apply NoDup_seq.
Qed.
End kdtree_query.

(** C8.  On a part whose node set is well formed,
    [find_closest_nodes_to_point] raises ([ValueError]) exactly when the
    count is below 1 or above the number of nodes of the part, and else
    returns that many nodes of the part. *)
Theorem find_closest_nodes_to_point_validates
    (p : Part) (pt : point) (number_of_nodes : Z) (report : bool) :
  wf_set (_nodes p) →
  match find_closest_nodes_to_point p pt number_of_nodes report with
  | Raise e =>
      e = ValueError ∧
      (number_of_nodes < 1 ∨ number_of_nodes > Z.of_nat (len (_nodes p)))%Z
  | Return r =>
      (1 ≤ number_of_nodes ≤ Z.of_nat (len (_nodes p)))%Z ∧
      Z.of_nat (length (closest_nodes r)) = number_of_nodes ∧
      NoDup (closest_nodes r) ∧
      ∀ node, node ∈ closest_nodes r → registered p node
  end.
Proof.
  unfold find_closest_nodes_to_point.
  case_bool_decide as H1; [split; [done | lia]|].
  case_bool_decide as H2; [split; [done | lia]|].
  set (k := Z.to_nat number_of_nodes).
  assert (Hlen : length (points p) = len (_nodes p))
    by (unfold points; by rewrite length_fmap, length_iter).
  assert (Hk : (k ≤ length (points p))%nat) by lia.
  assert (Hk1 : (1 ≤ number_of_nodes ≤ Z.of_nat (len (_nodes p)))%Z) by lia.
  assert (Hk2 : Z.of_nat k = number_of_nodes) by lia.
  assert (Hk3 : ∀ i, (i < length (points p))%nat → (i < len (_nodes p))%nat) by lia.
  clearbody k. clear H1 H2.
  intros Hwf.
  pose proof (length_kdtree_query (points p) pt k Hk) as Hfound.
  pose proof (kdtree_query_indices_lt (points p) pt k) as Hlt.
  pose proof (kdtree_query_indices_NoDup (points p) pt k) as Hnd.
  set (found := kdtree_query (points p) pt k) in *.
  destruct (mapM (λ i, iter (_nodes p) !! i) found.*2) as [closest_nodes0|] eqn:E.
  2:{ exfalso. assert (is_Some (mapM (λ i, iter (_nodes p) !! i) found.*2)) as [? Hs];
        [|by rewrite Hs in E].
      apply mapM_is_Some_2. eapply Forall_impl; [exact Hlt|].
      intros i Hi. simpl. apply lookup_lt_is_Some. rewrite length_iter. by apply Hk3. }
  pose proof (length_mapM _ _ _ E) as Hl. rewrite length_fmap, Hfound in Hl.
  apply mapM_Some in E.
  assert (Hids : NoDup (node_id <$> closest_nodes0))
    by (eapply lookups_NoDup; [apply (NoDup_iter_ids (_nodes p) Hwf) | exact Hnd | exact E]).
  assert (Hreg : ∀ node, node ∈ closest_nodes0 → registered p node).
  { intros node [n Hn]%list_elem_of_lookup.
    destruct (Forall2_lookup_r _ _ _ _ _ E Hn) as (j & _ & Hj).
    by apply list_elem_of_lookup_2 in Hj. }
  destruct report; simpl.
  - set (l := (λ '(node, d), (node_id node, (node, d))) <$> zip closest_nodes0 found.*1).
    assert (Hl1 : l.*1 = node_id <$> closest_nodes0).
    { subst l. rewrite <- list_fmap_compose.
      rewrite <- (fst_zip closest_nodes0 found.*1) at 2
        by (rewrite length_fmap, Hfound, <- Hl; done).
      rewrite <- list_fmap_compose. apply list_fmap_ext. by intros ? [??] ?. }
    assert (Hl2 : l.*2.*1 = closest_nodes0).
    { subst l. rewrite <- !list_fmap_compose.
      rewrite <- (fst_zip closest_nodes0 found.*1) at 2
        by (rewrite length_fmap, Hfound, <- Hl; done).
      apply list_fmap_ext. by intros ? [??] ?. }
    assert (Hp : map_to_list (list_to_map (reverse l) : gmap positive (Node * Qc)) ≡ₚ l).
    { rewrite map_to_list_to_map; [apply reverse_Permutation|].
      rewrite fmap_reverse, reverse_Permutation. by rewrite Hl1. }
    rewrite Hp, Hl2. split; [exact Hk1|]. split; [congruence|].
    split; [by apply (NoDup_fmap_1 node_id)|].
    intros node Hn. rewrite Hp, Hl2 in Hn. by apply Hreg.
  - split; [exact Hk1|]. split; [congruence|]. split; [|done].
    by apply (NoDup_fmap_1 node_id).
Qed.

Lemma two_nodes_wf : wf_set (_nodes (self two_nodes)).
Proof. apply (bool_decide_unpack _). vm_compute. exact I. Qed.

Lemma find_closest_nodes_to_point_validates_witness :
  match find_closest_nodes_to_point (self two_nodes) (xyz node_p) 2 true with
  | Raise e => e = ValueError ∧ (2 < 1 ∨ 2 > Z.of_nat (len (_nodes (self two_nodes))))%Z
  | Return r =>
      (1 ≤ 2 ≤ Z.of_nat (len (_nodes (self two_nodes))))%Z ∧
      Z.of_nat (length (closest_nodes r)) = 2%Z ∧
      NoDup (closest_nodes r) ∧
      ∀ node, node ∈ closest_nodes r → registered (self two_nodes) node
  end.
Proof.
  apply (find_closest_nodes_to_point_validates (self two_nodes) (xyz node_p) 2 true).
  apply two_nodes_wf.
Defined.

(** What [nodes_count] answers is one less than the number of nodes the
    query compares the count with. *)
Lemma nodes_count_is_len_minus_one (p : Part) :
  nodes_count p = (Z.of_nat (len (_nodes p)) - 1)%Z.
Proof. reflexivity. Qed.

(** ** C9: sections and their materials *)

Lemma add_material_obj (mat : Material) (w : World) :
  add_material (MaterialObj mat) w =
    (Return mat,
     with_heap (set_registration (material_id mat) (Some (part_id (self w))))
       (with_self (λ p, set_materials (add mat (_materials p)) p) w)).
Proof. reflexivity. Qed.

Lemma contains_add {A} `{Identified A} (x : A) (s : pyset A) : contains (add x s) x = true.
Proof. unfold contains, add. apply bool_decide_eq_true_2. rewrite lookup_insert_eq. eauto. Qed.

Lemma contains_add_mono {A} `{Identified A} (x y : A) (s : pyset A) :
  contains s y = true → contains (add x s) y = true.
Proof.
  unfold contains, add. intros Hy%bool_decide_eq_true_1. apply bool_decide_eq_true_2.
  destruct (decide (id_of x = id_of y)) as [->|Hne].
  - rewrite lookup_insert_eq. eauto.
  - by rewrite lookup_insert_ne.
Qed.

(** C9, as the code has it.  [_Part.add_section] does not ask for the
    material to be present: when the section's material is a material
    object, the call registers that material and then the section, and
    returns the section; when it is anything else (a name, [None]) the call
    raises [TypeError] (a name is not resolved) and changes nothing.
    [PartBase.add_section], for a section whose name is new, raises
    [ValueError] and changes nothing when the material's name, given as a
    string or through a material object, is not among the part's materials,
    and registers the section under its name when it is. *)
Theorem add_section_and_its_material (sec : Section) (w : World) (wb : PartBase.World) :
  match material sec with
  | MaterialObj mat =>
      (add_section sec w).1 = Return sec ∧
      _sections (self (add_section sec w).2) = add sec (_sections (self w)) ∧
      _materials (self (add_section sec w).2) = add mat (_materials (self w)) ∧
      contains_section (self (add_section sec w).2) sec = true ∧
      contains_material (self (add_section sec w).2) mat = true
  | _ => add_section sec w = (Raise TypeError, w)
  end ∧
  match PartBase._sections (PartBase.self wb) !! section_name sec with
  | Some _ => PartBase.add_section sec wb = (Return tt, wb)
  | None =>
      match material sec with
      | MaterialNone => PartBase.add_section sec wb = (Raise AttributeError, wb)
      | MaterialName name | MaterialObj {| material_name := name |} =>
          match PartBase._materials (PartBase.self wb) !! name with
          | None => PartBase.add_section sec wb = (Raise ValueError, wb)
          | Some _ =>
              (PartBase.add_section sec wb).1 = Return tt ∧
              PartBase._sections (PartBase.self (PartBase.add_section sec wb).2)
                = <[section_name sec := sec]> (PartBase._sections (PartBase.self wb)) ∧
              PartBase._materials (PartBase.self (PartBase.add_section sec wb).2)
                = PartBase._materials (PartBase.self wb)
          end
      end
  end.
Proof.
  split.
  - unfold add_section. destruct (material sec) as [mat|name|]; [|done..].
    run. repeat split; try done.
    + unfold contains_section. simpl. apply contains_add.
    + unfold contains_material. simpl. apply contains_add.
  - unfold PartBase.add_section. run.
    destruct (PartBase._sections (PartBase.self wb) !! section_name sec) eqn:Es.
    { rewrite bool_decide_eq_true_2 by eauto. done. }
    rewrite bool_decide_eq_false_2 by (by intros [? ?]).
    destruct (material sec) as [[mid name]|name|]; simpl; [| |done].
    + destruct (PartBase._materials (PartBase.self wb) !! name) eqn:Em.
      * rewrite bool_decide_eq_true_2 by eauto. done.
      * rewrite bool_decide_eq_false_2 by (by intros [? ?]). done.
    + destruct (PartBase._materials (PartBase.self wb) !! name) eqn:Em.
      * rewrite bool_decide_eq_true_2 by eauto. done.
      * rewrite bool_decide_eq_false_2 by (by intros [? ?]). done.
Qed.

(** C9 as stated fails on [_Part]: the empty part has no material, by
    object or by name, and [add_section] of a section of steel returns the
    section and leaves both the section and the material registered. *)
Lemma add_section_counterexample :
  contains_material (self empty_world) steel = false ∧
  find_material_by_name (self empty_world) "steel" = None ∧
  (add_section sec_steel empty_world).1 = Return sec_steel ∧
  contains_section (self (add_section sec_steel empty_world).2) sec_steel = true ∧
  contains_material (self (add_section sec_steel empty_world).2) steel = true.
Proof. repeat split; vm_compute; reflexivity. Qed.

(** ** C2: elements and the nodes they reference *)

Lemma traverse_returns {S A B} (f : A → M S B) (xs : list A) :
  (∀ x, x ∈ xs → returns (f x)) → returns (traverse f xs).
Proof.
  induction xs as [|x xs IH]; intros Hf s; [by eexists _, _|].
  destruct (Hf x (list_elem_of_here _ _) s) as (b & s1 & E1).
  destruct (IH (λ y Hy, Hf y (list_elem_of_further _ _ _ Hy)) s1) as (bs & s2 & E2).
  exists (b :: bs), s2. simpl.
  rewrite (bind_Return _ _ _ _ _ E1), (bind_Return _ _ _ _ _ E2). done.
Qed.

Lemma node_frame_refl w : node_frame w w.
Proof. by split. Qed.


(** [add_node] returns, whatever the settings and the part. *)
Lemma add_node_cases (cfg : Config) (node : Node) (w : World) :
  ∃ r w', add_node cfg node w = (Return r, w') ∧ node_frame w w' ∧
    (VERBOSE cfg = false → wf_set (_nodes (self w)) →
       (r = node ∧ contains_node (self w') node = true) ∨
       (contains_node (self w') r = true ∧ within cfg (xyz r) (xyz node))).
Proof.
  unfold add_node. destruct (VERBOSE cfg) eqn:Hv.
  { eexists _, _. split; [done|]. split; [apply node_frame_refl | done]. }
  run.
  set (existing_node := if negb (POINT_OVERLAP cfg) then _ else _).
  destruct existing_node as [|first rest] eqn:E.
  - eexists _, _. split; [done|]. split.
    + split; simpl; try done.
      * destruct (model (self w)); done.
      * destruct (model (self w)); done.
      * destruct (model (self w)); done.
      * destruct (model (self w)); done.
      * destruct (model (self w)); done.
      * destruct (model (self w)); done.
      * destruct (model (self w)); done.
      * destruct (model (self w)); done.
      * destruct (model (self w)); done.
      * destruct (model (self w)); done.
      * intros n Hn. unfold contains_node in *. simpl.
        destruct (model (self w)); simpl; by apply contains_add_mono.
      * intros Hwf. destruct (model (self w)); simpl; by apply wf_set_add.
    + intros _ _. left. split; [done|]. unfold contains_node. simpl.
      destruct (model (self w)); simpl; apply contains_add.
  - eexists _, _. split; [done|]. split; [apply node_frame_refl|].
    intros _ Hwf. right.
    assert (Hin : first ∈ existing_node) by (rewrite E; apply list_elem_of_here).
    subst existing_node. destruct (POINT_OVERLAP cfg); simpl in Hin;
      [by apply elem_of_nil in Hin|].
    apply find_nodes_around_point_spec in Hin as [Hr Hd]. split; [|done].
    unfold contains_node. by apply contains_iter.
Qed.

Lemma add_node_returns cfg node : returns (add_node cfg node).
Proof. intros w. destruct (add_node_cases cfg node w) as (r & w' & E & _). eauto. Qed.

Lemma add_node_frame cfg node w : node_frame w (add_node cfg node w).2.
Proof. destruct (add_node_cases cfg node w) as (r & w' & E & F & _). by rewrite E. Qed.


Lemma add_nodes_returns cfg ns : returns (add_nodes cfg ns).
Proof. apply traverse_returns. intros x _. apply add_node_returns. Qed.


Lemma for_each_connect (e : Element) (ns : list Node) (w : World) :
  for_each ns (λ node, modify (with_heap (connected_elements_add node e))) w
    = (Return tt, with_heap (connect e ns) w).
Proof.
  unfold for_each.
  assert (H : ∀ w, ∃ l, traverse (λ node, modify (with_heap (connected_elements_add node e))) ns w
                   = (Return l, with_heap (connect e ns) w)).
  { clear w. induction ns as [|n ns IH]; intros w; [exists []; by destruct w|].
    destruct (IH (with_heap (connected_elements_add n e) w)) as [l El].
    exists (tt :: l). simpl. run. rewrite El. by destruct w. }
  destruct (H w) as [l El]. by rewrite (bind_Return _ _ _ _ _ El).
Qed.

Lemma connected_elements_add_same n e h :
  contains (connected_elements (connected_elements_add n e h) n) e = true.
Proof.
  unfold connected_elements at 1. simpl. rewrite lookup_insert_eq. simpl. apply contains_add.
Qed.

Lemma connected_elements_add_mono n' e' n e h :
  contains (connected_elements h n) e = true →
  contains (connected_elements (connected_elements_add n' e' h) n) e = true.
Proof.
  intros Hc. unfold connected_elements at 1. simpl.
  destruct (decide (node_id n' = node_id n)) as [Heq|Hne].
  - rewrite Heq, lookup_insert_eq. simpl. apply contains_add_mono.
    unfold connected_elements in *. by rewrite Heq.
  - by rewrite lookup_insert_ne.
Qed.

Lemma connect_mono e ns h n e0 :
  contains (connected_elements h n) e0 = true →
  contains (connected_elements (connect e ns h) n) e0 = true.
Proof.
  revert h. induction ns as [|x ns IH]; intros h Hc; [done|].
  simpl. apply IH. by apply connected_elements_add_mono.
Qed.

Lemma connect_all e ns h n :
  n ∈ ns → contains (connected_elements (connect e ns h) n) e = true.
Proof.
  revert h. induction ns as [|x ns IH]; intros h Hn; [by apply elem_of_nil in Hn|].
  apply elem_of_cons in Hn as [->|Hn]; simpl.
  - apply connect_mono, connected_elements_add_same.
  - by apply IH.
Qed.

Lemma connect_frame e ns h :
  h_key (connect e ns h) = h_key h ∧
  h_registration (connect e ns h) = h_registration h ∧
  h_group_registration (connect e ns h) = h_group_registration h.
Proof.
  revert h. induction ns as [|x ns IH]; intros h; [done|].
  simpl. destruct (IH (connected_elements_add x e h)) as (-> & -> & ->). done.
Qed.






(** ** C1: node keys *)

Module PartBaseFacts.
Import PartBase.

Lemma numbered_node_keys h p :
  numbered h (_nodes p) 0 →
  node_keys {| heap := h; self := p |} = Some <$> seqZ 0 (Z.of_nat (length (_nodes p))).
Proof.
  intros Hn. unfold node_keys. simpl.
  apply (list_eq_same_length _ _ (length (_nodes p))).
  - by rewrite length_fmap, length_seqZ, Nat2Z.id.
  - by rewrite length_fmap.
  - intros i x y Hi Hx Hy.
    rewrite list_lookup_fmap in Hx. rewrite list_lookup_fmap in Hy.
    destruct (_nodes p !! i) as [n|] eqn:En; [|done].
    simpl in Hx. rewrite (Hn i n En) in Hx.
    destruct (seqZ 0 (Z.of_nat (length (_nodes p))) !! i) as [z|] eqn:Ez; [|done].
    apply lookup_seqZ in Ez as [-> _]. simpl in Hy. congruence.
Qed.

Lemma indices_nil (x : string) (j : nat → nat) (gs : list string) :
  imap (λ index g, if bool_decide (g = x) then [j index] else []) gs ≫= id = []
  ↔ x ∉ gs.
Proof.
  revert j. induction gs as [|g gs IH]; intros j.
  - split; [intros _; apply not_elem_of_nil | done].
  - rewrite not_elem_of_cons. csimpl. case_bool_decide as Hg; simpl.
    + split; [done | intros [? _]; congruence].
    + specialize (IH (j ∘ S)). simpl in IH. unfold compose. rewrite IH.
      split; [intros ?; split; congruence | tauto].
Qed.

Lemma check_node_in_part_nil (p : t) (node : Node) :
  check_node_in_part p node = [] ↔ gkey node ∉ _nodes_gkeys p.
Proof. apply (indices_nil (gkey node) id). Qed.

(** [add_node], check on, keeps the invariant. *)
Lemma add_node_inv (U : list Node) (node : Node) (w : World) :
  one_object_per_identity U → node ∈ U → inv U w →
  ∃ w', add_node node true w = (Return tt, w') ∧ inv U w'.
Proof.
  intros HU Hnode [Hsub Hgk Hnd Hnum Hlab].
  unfold add_node. run.
  case_bool_decide as Hc; simpl.
  { eexists. split; [done|]. by split. }
  assert (Hfresh : node_id node ∉ node_id <$> _nodes (self w)).
  { apply check_node_in_part_nil in Hc. rewrite Hgk in Hc.
    intros (n' & Hid & Hn')%list_elem_of_fmap. apply Hc.
    apply list_elem_of_fmap. exists n'. split; [|done].
    unfold one_object_per_identity in HU. rewrite Forall_forall in HU.
    specialize (HU node Hnode). rewrite Forall_forall in HU.
    by rewrite (HU n' (Hsub _ Hn') Hid). }
  eexists. split; [done|]. split; simpl.
  - intros n [Hn| ->%list_elem_of_singleton]%elem_of_app; auto.
  - by rewrite Hgk, fmap_app.
  - rewrite fmap_app. apply NoDup_app. split; [done|]. split.
    + intros i Hi ->%list_elem_of_singleton. done.
    + apply NoDup_singleton.
  - intros i n Hi.
    assert (Hkey : key (if is_truthy (label (heap w) !! node_id node)
                        then set_key (node_id node) (Z.of_nat (length (_nodes (self w)))) (heap w)
                        else set_label (node_id node)
                               ("n-" ++ pretty (Z.of_nat (length (_nodes (self w)))))
                               (set_key (node_id node)
                                  (Z.of_nat (length (_nodes (self w)))) (heap w)))
                   = <[node_id node := Z.of_nat (length (_nodes (self w)))]> (key (heap w)))
      by (by destruct (is_truthy _)).
    rewrite Hkey.
    apply lookup_app_Some in Hi as [Hi|[Hlen Hi]].
    + rewrite lookup_insert_ne; [by apply Hnum|].
      intros Heq. apply Hfresh. rewrite Heq.
      apply list_elem_of_fmap. exists n. split; [done|]. by eapply list_elem_of_lookup_2.
    + apply list_lookup_singleton_Some in Hi as [Hi ->].
      rewrite lookup_insert_eq. f_equal. lia.
  - intros n [Hn| ->%list_elem_of_singleton]%elem_of_app.
    + destruct (is_truthy _); simpl; [by apply Hlab|].
      destruct (decide (node_id node = node_id n)) as [->|Hne].
      * rewrite lookup_insert_eq. eauto.
      * rewrite lookup_insert_ne by done. by apply Hlab.
    + destruct (label (heap w) !! node_id node) as [[|c s]|] eqn:El; simpl;
        rewrite ?lookup_insert_eq, ?El; eauto.
Qed.

Lemma del_fmap {A B} (f : A → B) (i : Z) (l : list A) :
  del i (f <$> l) = fmap (M:=list) f <$> del i l.
Proof.
  unfold del. rewrite length_fmap.
  repeat case_bool_decide; simpl; by rewrite ?list_fmap_delete.
Qed.

Lemma del_sublist {A} (i : Z) (l l' : list A) : del i l = Some l' → l' `sublist_of` l.
Proof.
  unfold del. repeat case_bool_decide; intros [= <-]; apply sublist_delete.
Qed.

Lemma del_length {A} (i : Z) (l l' : list A) :
  del i l = Some l' → S (length l') = length l.
Proof.
  unfold del. intros Hd.
  repeat case_bool_decide; simplify_eq; rewrite length_delete; try lia.
  - apply lookup_lt_is_Some. lia.
  - apply lookup_lt_is_Some. lia.
Qed.

(** [_reorder_nodes] on nodes that all have a label: it returns, and the
    nodes are numbered in list order. *)
Lemma reorder_spec (ns : list Node) (k : Z) (w : World) :
  NoDup (node_id <$> ns) → labelled (heap w) ns →
  ∃ h', reorder ns k w = (Return tt, {| heap := h'; self := self w |}) ∧
        numbered h' ns k ∧
        (∀ i, is_Some (label (heap w) !! i) → is_Some (label h' !! i)) ∧
        (∀ i, i ∉ node_id <$> ns → key h' !! i = key (heap w) !! i).
Proof.
  revert k w. induction ns as [|node ns IH]; intros k w Hnd Hlab.
  { exists (heap w). destruct w. by repeat split. }
  rewrite fmap_cons in Hnd. apply NoDup_cons in Hnd as [Hfresh Hnd].
  destruct (Hlab node (list_elem_of_here _ _)) as [l Hl].
  simpl. run. rewrite Hl.
  set (h1 := if bool_decide (String.substring 0 2 l = "n-")
             then set_label (node_id node) ("n-" ++ pretty k) (set_key (node_id node) k (heap w))
             else set_key (node_id node) k (heap w)).
  assert (Hk1 : key h1 = <[node_id node := k]> (key (heap w)))
    by (subst h1; by case_bool_decide).
  assert (Hl1 : ∀ i, is_Some (label (heap w) !! i) → is_Some (label h1 !! i)).
  { intros i Hi. subst h1. case_bool_decide; simpl; [|done].
    destruct (decide (node_id node = i)) as [->|Hne];
      [rewrite lookup_insert_eq; eauto | by rewrite lookup_insert_ne]. }
  destruct (IH (k + 1)%Z {| heap := h1; self := self w |} Hnd) as (h' & E & Hnum & Hlab' & Hkeys).
  { intros n Hn. simpl. apply Hl1, Hlab. by apply list_elem_of_further. }
  exists h'. split; [|split; [|split]].
  - subst h1. case_bool_decide; simpl; exact E.
  - intros i n Hi. destruct i as [|i]; simpl in Hi.
    + injection Hi as <-. rewrite (Hkeys _ Hfresh). simpl. rewrite Hk1, lookup_insert_eq.
      f_equal. lia.
    + rewrite (Hnum i n Hi). f_equal. lia.
  - intros i Hi. apply Hlab'. simpl. by apply Hl1.
  - intros i Hi. simpl in Hi. rewrite not_elem_of_cons in Hi. destruct Hi as [Hne Hi].
    rewrite (Hkeys i Hi). simpl. rewrite Hk1. by rewrite lookup_insert_ne.
Qed.

(** [remove_node], when [nodes_gkeys] resolves: an index out of range is
    an [IndexError] and nothing changes; else the node at the index is
    gone and the invariant holds again. *)
Lemma remove_node_inv (U : list Node) (node_key : Z) (w : World) :
  inv U w →
  match del node_key (_nodes (self w)) with
  | None => remove_node true node_key w = (Raise IndexError, w)
  | Some ns =>
      ∃ w', remove_node true node_key w = (Return tt, w') ∧ inv U w' ∧
            _nodes (self w') = ns
  end.
Proof.
  intros [Hsub Hgk Hnd Hnum Hlab].
  unfold remove_node, _reorder_nodes. run.
  rewrite Hgk, del_fmap.
  destruct (del node_key (_nodes (self w))) as [ns|] eqn:Ed; [|done].
  simpl.
  pose proof (del_sublist _ _ _ Ed) as Hsl.
  assert (Hnd' : NoDup (node_id <$> ns))
    by (eapply sublist_NoDup; [exact Hnd | by apply fmap_sublist]).
  assert (Hsub' : ns ⊆ _nodes (self w)) by (by apply sublist_subseteq).
  set (w1 := {| heap := heap w;
                self := set_nodes_gkeys (gkey <$> ns) (set_nodes ns (self w)) |}).
  destruct (reorder_spec ns 0 w1 Hnd') as (h' & E & Hnum' & Hlab' & _).
  { intros n Hn. simpl. apply Hlab. by apply Hsub'. }
  exists {| heap := h'; self := self w1 |}. split; [exact E|]. split; [|done].
  split; simpl; try done.
  - intros n Hn. by apply Hsub, Hsub'.
  - intros n Hn. apply Hlab'. simpl. apply Hlab. by apply Hsub'.
Qed.

Lemma remove_node_unresolved_raises (node_key : Z) (w : World) :
  (remove_node false node_key w).1 = Raise IndexError ∨
  (remove_node false node_key w).1 = Raise AttributeError.
Proof.
  unfold remove_node. run. destruct (del node_key (_nodes (self w))); auto.
Qed.

(** Every sequence of calls that runs to its end keeps the invariant. *)
Lemma run_calls_inv (resolves : bool) (U : list Node) (cs : list call) (w w' : World) :
  one_object_per_identity U → added cs ⊆ U → inv U w →
  run_calls resolves cs w = (Return tt, w') → inv U w'.
Proof.
  intros HU. unfold run_calls, for_each. revert w.
  induction cs as [|c cs IH]; intros w Hadd Hinv E.
  { run. by injection E as <-. }
  simpl in E. unfold bind at 1 2 in E.
  assert (Hstep : ∃ w1, run_call resolves c w = (Return tt, w1) ∧ inv U w1).
  { destruct c as [node|node_key]; simpl in *.
    - apply add_node_inv; [done| |done]. apply Hadd. apply list_elem_of_here.
    - destruct resolves.
      + pose proof (remove_node_inv U node_key w Hinv) as Hr.
        destruct (del node_key (_nodes (self w))) as [ns|].
        * destruct Hr as (w1 & E1 & Hinv1 & _). eauto.
        * rewrite Hr in E. done.
      + destruct (remove_node_unresolved_raises node_key w) as [Hr|Hr];
          destruct (remove_node false node_key w) as [[?|?] ?]; simpl in *; congruence. }
  destruct Hstep as (w1 & E1 & Hinv1). rewrite E1 in E.
  apply (IH w1); [|done|].
  - intros n Hn. apply Hadd. unfold added. simpl. apply elem_of_app. by right.
  - unfold bind in *. destruct (traverse (run_call resolves) cs w1) as [[l|e] w2];
      simpl in *; [|done].
    unfold ret in *. by injection E as <-.
Qed.

Lemma init_inv (U : list Node) (h : Heap) : inv U {| heap := h; self := init |}.
Proof.
  split; simpl; try done.
  - apply list_subseteq_nil.
  - constructor.
  - intros n Hn. by apply elem_of_nil in Hn.
Qed.

(** On the list-backed part, the keys of the nodes are [0 .. count-1], in
    list order, after every sequence of [add_node] and [remove_node]
    calls that runs to its end. *)
Lemma node_keys_dense (resolves : bool) (cs : list call) (h : Heap) (w' : World) :
  one_object_per_identity (added cs) →
  run_calls resolves cs {| heap := h; self := init |} = (Return tt, w') →
  node_keys w' = Some <$> seqZ 0 (Z.of_nat (length (_nodes (self w')))).
Proof.
  intros HU E.
  pose proof (run_calls_inv resolves (added cs) cs _ w' HU (reflexivity _)
                (init_inv _ h) E) as [_ _ _ Hnum _].
  destruct w' as [h' p']. by apply numbered_node_keys.
Qed.
End PartBaseFacts.

Lemma remove_node_keeps_keys (node : Node) (w : World) :
  h_key (heap (remove_node node w).2) = h_key (heap w).
Proof.
  unfold remove_node. run. destruct (contains_node (self w) node); [|done].
  simpl. by destruct (_gkey_node (self w) !! gkey node).
Qed.

(** C1, as the code has it.  On the list-backed [PartBase], after every
    sequence of [add_node] (check on) and [remove_node] calls that runs to
    its end from a new part, the keys of the nodes are [0 .. count-1] in
    list order: [remove_node] renumbers.  [_Part.remove_node] does not: it
    leaves every key as it is. *)
Theorem node_keys_after_add_and_remove :
  (∀ (nodes_gkeys_resolves : bool) (cs : list PartBase.call)
     (h : PartBase.Heap) (w' : PartBase.World),
     PartBase.one_object_per_identity (PartBase.added cs) →
     PartBase.run_calls nodes_gkeys_resolves cs
       {| PartBase.heap := h; PartBase.self := PartBase.init |} = (Return tt, w') →
     PartBase.node_keys w'
       = Some <$> seqZ 0 (Z.of_nat (length (PartBase._nodes (PartBase.self w'))))) ∧
  (∀ (node : Node) (w : World),
     h_key (heap (remove_node node w).2) = h_key (heap w)).
Proof.
  split.
  - intros. by eapply PartBaseFacts.node_keys_dense.
  - apply remove_node_keeps_keys.
Qed.

Lemma node_keys_after_add_and_remove_witness :
  PartBase.node_keys (PartBase.run_calls true three_calls base_empty).2
    = [Some 0%Z; Some 1%Z] ∧
  PartBase._nodes (PartBase.self (PartBase.run_calls true three_calls base_empty).2)
    = [base_node_1; base_node_2].
Proof.
  destruct node_keys_after_add_and_remove as [H _].
  split; [|vm_compute; reflexivity].
  rewrite (H true three_calls (PartBase.heap base_empty)
             (PartBase.run_calls true three_calls base_empty).2).
  - vm_compute. reflexivity.
  - unfold PartBase.one_object_per_identity.
    apply (bool_decide_unpack _). vm_compute. exact I.
  - vm_compute. reflexivity.
Defined.

(** C1 as stated fails on [_Part].  The three nodes of [three_keyed] have
    the keys 0, 1 and 2.  Removing the node of key 0 leaves the other two
    with the keys 1 and 2; and a node added to the part has no key. *)
Lemma node_keys_counterexample :
  part_dense three_keyed ∧
  key_of (heap three_keyed) (node_id node_c) = Some 0%Z ∧
  (remove_node node_c three_keyed).1 = Return tt ∧
  len (_nodes (self (remove_node node_c three_keyed).2)) = 2 ∧
  part_node_keys (remove_node node_c three_keyed).2 = {[ Some 1%Z; Some 2%Z ]} ∧
  ¬ part_dense (remove_node node_c three_keyed).2 ∧
  ¬ part_dense (add_node quiet node_a empty_world).2.
Proof.
  repeat split; try (vm_compute; reflexivity);
    try (apply (bool_decide_unpack _); vm_compute; exact I).
Qed.

(** ** C6: the connectivity line of an element *)

Lemma otraverse_Return {A B} (f : A → outcome B) (g : A → option B) (xs : list A) :
  (∀ x, f x = match g x with Some y => Return y | None => Raise TypeError end) →
  match otraverse f xs with
  | Return ys => g <$> xs = Some <$> ys
  | Raise e => e = TypeError ∧ ∃ x, x ∈ xs ∧ g x = None
  end.
Proof.
  intros Hf. induction xs as [|x xs IH]; [done|].
  simpl. rewrite Hf. destruct (g x) as [y|] eqn:Ex; simpl.
  - destruct (otraverse f xs) as [ys|e]; simpl.
    + f_equal. exact IH.
    + destruct IH as (-> & x' & Hx' & Hn). split; [done|].
      exists x'. split; [by apply list_elem_of_further | done].
  - split; [done|]. exists x. split; [apply list_elem_of_here | done].
Qed.

(** C6.  The line of an element is made when the element and all its
    nodes have a key, and is a [TypeError] otherwise.  It holds the key of
    the element plus one, then the key plus one of each of its nodes in
    the order of the element's node list, in decimal; the first two
    numbers are set apart by a comma and a blank, the others by a comma,
    and a newline ends the line.  The call reads the heap and writes
    nothing: the keys stay as they are. *)
Theorem element_line_is_one_based (h : Heap) (e : Element) :
  match element_generate_jobdata h e with
  | Return line =>
      ∃ (k : Z) (ks : list Z),
        key_of h (element_id e) = Some k ∧
        (λ n, key_of h (node_id n)) <$> nodes e = Some <$> ks ∧
        line = pretty (k + 1)%Z ++ ", "
               ++ String.concat "," ((λ nk, pretty (nk + 1)%Z) <$> ks) ++ nl
  | Raise ex =>
      ex = TypeError ∧
      (key_of h (element_id e) = None ∨
       ∃ n, n ∈ nodes e ∧ key_of h (node_id n) = None)
  end.
Proof.
  unfold element_generate_jobdata.
  destruct (key_of h (element_id e)) as [k|] eqn:Ek; [|split; [done | by left]].
  pose proof (otraverse_Return
    (λ node, match key_of h (node_id node) with
             | None => Raise TypeError
             | Some nk => Return (pretty (nk + 1)%Z)
             end)
    (λ node, (λ nk, pretty (nk + 1)%Z) <$> key_of h (node_id node))
    (nodes e)) as H.
  destruct (otraverse _ (nodes e)) as [texts|ex]; simpl.
  - specialize (H (λ x, ltac:(by destruct (key_of h (node_id x))))).
    assert (Hks : ∃ ks, (λ n, key_of h (node_id n)) <$> nodes e = Some <$> ks ∧
                        texts = (λ nk, pretty (nk + 1)%Z) <$> ks).
    { clear Ek. revert texts H. induction (nodes e) as [|n ns IH]; intros texts H.
      - exists []. destruct texts; [done | discriminate].
      - destruct texts as [|t texts]; [discriminate|]. simpl in H.
        injection H as Hn Hns. destruct (IH texts Hns) as (ks & E1 & E2).
        destruct (key_of h (node_id n)) as [nk|] eqn:En; [|discriminate].
        simpl in Hn. injection Hn as <-.
        exists (nk :: ks). rewrite !fmap_cons, En, E1, E2. done. }
    destruct Hks as (ks & E1 & ->). by exists k, ks.
  - destruct (H (λ x, ltac:(by destruct (key_of h (node_id x))))) as (-> & n & Hn & Hk).
    split; [done|]. right. exists n. split; [done|].
    by destruct (key_of h (node_id n)).
Qed.

Lemma quad_line : element_generate_jobdata quad_heap quad = Return ("1, 1,2,3,4" ++ nl).
Proof. vm_compute. reflexivity. Qed.

(** ** The grouping of the elements *)

Lemma otraverse_Forall2 {A B} (f : A → outcome B) (xs : list A) (ys : list B) :
  otraverse f xs = Return ys → Forall2 (λ x y, f x = Return y) xs ys.
Proof.
  revert ys. induction xs as [|x xs IH]; intros ys E; simpl in E.
  { injection E as <-. constructor. }
  destruct (f x) as [y|e] eqn:Ex; simpl in E; [|done].
  destruct (otraverse f xs) as [ys'|e] eqn:Exs; simpl in E; [|done].
  injection E as <-. constructor; [done | by apply IH].
Qed.

Lemma ofold_preserves {A B} (P : B → Prop) (f : B → A → outcome B) (xs : list A) (b b' : B) :
  (∀ b0 x b1, x ∈ xs → P b0 → f b0 x = Return b1 → P b1) →
  P b → ofold f b xs = Return b' → P b'.
Proof.
  revert b. induction xs as [|x xs IH]; intros b Hf Hb E; simpl in E.
  { by injection E as <-. }
  destruct (f b x) as [b1|e] eqn:E1; simpl in E; [|done].
  apply (IH b1); [|by eapply Hf; [apply list_elem_of_here|..]|done].
  intros b0 y b2 Hy. apply Hf. by apply list_elem_of_further.
Qed.

Lemma elem_of_iter_add {A} `{Identified A} (x y : A) (s : pyset A) :
  x ∈ iter (add y s) → x = y ∨ x ∈ iter s.
Proof.
  rewrite !elem_of_iter. unfold add. intros [i Hi].
  destruct (decide (id_of y = i)) as [<-|Hne].
  - rewrite lookup_insert_eq in Hi. left. congruence.
  - rewrite lookup_insert_ne in Hi by done. right. eauto.
Qed.

Lemma iter_empty {A} : iter (∅ : pyset A) = [].
Proof. unfold iter. by rewrite map_to_list_empty. Qed.

Lemma dict_add_members sub k el d d' :
  el ∈ sub → members_among sub d → dict_add k el d = Return d' → members_among sub d'.
Proof.
  intros Hel. revert d'. induction d as [|[k' els'] d IH]; intros d' Hd E; simpl in E; [done|].
  case_bool_decide as Hk.
  - injection E as <-. intros o els e [Heq|Hin]%elem_of_cons He.
    + injection Heq as -> ->. apply elem_of_iter_add in He as [->|He]; [done|].
      eapply Hd; [apply list_elem_of_here | done].
    + eapply Hd; [by apply list_elem_of_further | done].
  - destruct (dict_add k el d) as [d''|e] eqn:E'; simpl in E; [|done].
    injection E as <-. intros o els e [Heq|Hin]%elem_of_cons He.
    + injection Heq as -> ->. eapply Hd; [apply list_elem_of_here | done].
    + eapply (IH d''); [|done|exact Hin|exact He].
      intros o' els0 e0 Hin0. eapply Hd. by apply list_elem_of_further.
Qed.

Lemma setdefault_members sub k d : members_among sub d → members_among sub (setdefault k d).
Proof.
  intros Hd. unfold setdefault. case_bool_decide; [done|].
  intros o els e [Hin|Hin%list_elem_of_singleton]%elem_of_app He; [by eapply Hd|].
  injection Hin as -> ->. rewrite iter_empty in He. by apply elem_of_nil in He.
Qed.

Lemma place_members sub o d el d' :
  el ∈ sub → members_among sub d → place o d el = Return d' → members_among sub d'.
Proof.
  intros Hel Hd. unfold place. destruct (has_orientation el).
  - destruct (orientation_of el) as [o'|e]; simpl; [|done].
    case_bool_decide; [by apply dict_add_members | by intros [= <-]].
  - by apply dict_add_members.
Qed.

Lemma group_by_orientation_members sub d :
  group_by_orientation sub = Return d → members_among sub d.
Proof.
  unfold group_by_orientation. destruct (otraverse orientation_of sub) as [os|e]; simpl; [|done].
  apply (ofold_preserves (members_among sub)).
  - intros d0 o d1 _ Hd0. apply (ofold_preserves (members_among sub)).
    + intros d2 el d3 Hel Hd2. by apply place_members.
    + by apply setdefault_members.
  - intros o els e Hin. by apply elem_of_nil in Hin.
Qed.

Lemma elem_of_buckets g eltype sec o els :
  (eltype, sec, o, els) ∈ buckets g ↔
  ∃ sections orientations,
    (eltype, sections) ∈ g ∧ (sec, orientations) ∈ sections ∧ (o, els) ∈ orientations.
Proof.
  unfold buckets. rewrite list_elem_of_bind. split.
  - intros ([t ss] & Hin & Hg). apply list_elem_of_bind in Hin as ([s os] & Hin & Hss).
    apply list_elem_of_fmap in Hin as ([o' els'] & Heq & Hos). injection Heq as -> -> -> ->.
    eauto.
  - intros (ss & os & Hg & Hss & Hos). exists (eltype, ss). split; [|done].
    apply list_elem_of_bind. exists (sec, os). split; [|done].
    apply list_elem_of_fmap. by exists (o, els).
Qed.

(** Whatever [_group_elements] returns, the members of its buckets are
    elements of the part. *)
Lemma group_elements_members (p : Part) (g : by_eltype) eltype sec o els e :
  _group_elements p = Return g →
  (eltype, sec, o, els) ∈ buckets g → e ∈ iter els → e ∈ iter (_elements p).
Proof.
  intros Eg (ss & os & Hg & Hss & Hos)%elem_of_buckets He.
  unfold _group_elements in Eg. apply otraverse_Forall2 in Eg.
  apply list_elem_of_lookup in Hg as [i Hi].
  destruct (Forall2_lookup_r _ _ _ _ _ Eg Hi) as (t & _ & Et).
  destruct (group_by_section _) as [ss'|] eqn:Ess; simpl in Et; [|done].
  injection Et as -> ->.
  unfold group_by_section in Ess. apply otraverse_Forall2 in Ess.
  apply list_elem_of_lookup in Hss as [j Hj].
  destruct (Forall2_lookup_r _ _ _ _ _ Ess Hj) as (s & _ & Es).
  destruct (group_by_orientation _) as [os'|] eqn:Eos; simpl in Es; [|done].
  injection Es as -> ->.
  apply group_by_orientation_members in Eos.
  specialize (Eos o els e Hos He).
  apply list_elem_of_filter in Eos as [_ Eos]. by apply list_elem_of_filter in Eos as [_ Eos].
Qed.

(** ** C4 and C7: what writing the job data of a part changes, and the
       order of what it writes *)

Lemma preserves_ret {S A} (P : S → Prop) (a : A) : preserves P (ret a).
Proof. by intros s. Qed.

Lemma preserves_lift {S A} (P : S → Prop) (f : S → outcome A) : preserves P (lift f).
Proof. by intros s. Qed.

Lemma preserves_bind {S A B} (P : S → Prop) (c : M S A) (k : A → M S B) :
  preserves P c → (∀ a, preserves P (k a)) → preserves P (bind c k).
Proof.
  intros Hc Hk s Hs. unfold bind. specialize (Hc s Hs).
  destruct (c s) as [[a|e] s1]; [by apply Hk | done].
Qed.

Lemma preserves_traverse {S A B} (P : S → Prop) (f : A → M S B) (xs : list A) :
  (∀ x, x ∈ xs → preserves P (f x)) → preserves P (traverse f xs).
Proof. intros Hf s Hs. apply traverse_preserves; [|done]. intros x s0 Hx. by apply Hf. Qed.

(** What the steps of a traversal relate, the traversal relates pointwise. *)
Lemma traverse_Forall2 {S A B} (P : S → Prop) (R : A → B → Prop)
    (f : A → M S B) (xs : list A) (s : S) (ys : list B) (s' : S) :
  (∀ x s0 y s1, x ∈ xs → P s0 → f x s0 = (Return y, s1) → R x y) →
  (∀ x, x ∈ xs → preserves P (f x)) →
  P s → traverse f xs s = (Return ys, s') → Forall2 R xs ys.
Proof.
  revert s ys. induction xs as [|x xs IH]; intros s ys HR HP Hs E; simpl in E.
  { injection E as <- _. constructor. }
  unfold bind in E. destruct (f x s) as [[y|e] s1] eqn:E1; [|done].
  destruct (traverse f xs s1) as [[ys'|e] s2] eqn:E2; [|done].
  injection E as <- <-.
  pose proof (HP x (list_elem_of_here _ _) s Hs) as Hs1. rewrite E1 in Hs1.
  constructor.
  - eapply HR; [apply list_elem_of_here | exact Hs | exact E1].
  - eapply (IH s1); [| |exact Hs1 |exact E2].
    + intros x0 s0 y0 s3 Hx0. apply HR. by apply list_elem_of_further.
    + intros x0 Hx0. apply HP. by apply list_elem_of_further.
Qed.

Lemma serial_frame_refl w : serial_frame w w.
Proof. split; try done. exists []. by rewrite app_nil_r. Qed.

Lemma serial_frame_trans w1 w2 w3 :
  serial_frame w1 w2 → serial_frame w2 w3 → serial_frame w1 w3.
Proof.
  intros [] []. split; try congruence.
  destruct sf_elementsgroups0 as (aux1 & E1 & F1).
  destruct sf_elementsgroups1 as (aux2 & E2 & F2).
  exists (aux1 ++ aux2)%list. split; [by rewrite E2, E1, app_assoc | by apply Forall_app].
Qed.

Lemma add_element_contained cfg e w :
  contains_element (self w) e = true → add_element cfg e true w = (Return e, w).
Proof. intros Hc. unfold add_element. run. by rewrite Hc. Qed.

(** [add_group] of a group of elements of the part: only the group is
    added, when the part does not have it. *)
Lemma add_group_of_members cfg name els w :
  (∀ e, e ∈ iter els → contains_element (self w) e = true) →
  ∃ w', add_group cfg (ElementsGroup name els) w = (Return (ElementsGroup name els), w') ∧
        serial_frame w w' ∧
        ElementsGroup name els ∈ _elementsgroups (self w').
Proof.
  intros Hc. unfold add_group, add_elements.
  rewrite (bind_Return _ _ _ _ _ (bind_Return _ _ _ _ _
             (traverse_pure _ id _ _ (λ e He, add_element_contained cfg e w (Hc e He))))).
  run. case_bool_decide as Hg.
  - eexists. split; [done|]. split; [apply serial_frame_refl | done].
  - eexists. split; [done|]. split.
    + split; simpl; try done. unfold group_add. rewrite bool_decide_eq_false_2 by done.
      eexists. split; [done|]. repeat constructor. eauto.
    + simpl. unfold group_add. rewrite bool_decide_eq_false_2 by done.
      apply elem_of_app. right. apply list_elem_of_here.
Qed.

(** Blocks written one after the other for the items of a list of lists. *)
Lemma Forall2_bind_concat {A B C} (R : B → list C → Prop) (h : A → list B)
    (xs : list A) (yss : list (list C)) :
  Forall2 (λ x ys, ∃ fss, Forall2 R (h x) fss ∧ ys = concat fss) xs yss →
  ∃ fss, Forall2 R (xs ≫= h) fss ∧ concat yss = concat fss.
Proof.
  induction 1 as [|x ys xs yss (fss1 & H1 & ->) _ (fss2 & H2 & E2)].
  { exists []. split; [constructor | done]. }
  exists (fss1 ++ fss2)%list. split.
  - rewrite bind_cons. by apply Forall2_app.
  - simpl. by rewrite E2, concat_app.
Qed.

Section AbaqusPartFacts.
Variable node_generate_jobdata : Heap → Node → outcome string.
Variable group_generate_jobdata : Heap → Group → outcome string.
Variable section_generate_jobdata :
  Heap → Section → string → option (list string) → outcome string.
Variable release_generate_jobdata : Heap → Release → outcome string.
Variable cfg : Config.

Local Abbreviation wbucket :=
  (write_bucket group_generate_jobdata section_generate_jobdata cfg).
Local Abbreviation wsection :=
  (write_section group_generate_jobdata section_generate_jobdata cfg).
Local Abbreviation weltype :=
  (write_eltype group_generate_jobdata section_generate_jobdata cfg).
Local Abbreviation pdata :=
  (part_data node_generate_jobdata group_generate_jobdata section_generate_jobdata
     release_generate_jobdata cfg).
Local Abbreviation jobdata :=
  (_generate_jobdata node_generate_jobdata group_generate_jobdata section_generate_jobdata
     release_generate_jobdata cfg).

(** Rendering one object after the other changes nothing. *)
Lemma render_all {A} (f : World → A → outcome string) (g : A → string → fragment)
    (xs : list A) (w : World) :
  (traverse (λ x, t <- lift (λ w, f w x) ;; ret (g x t)) xs w).2 = w ∧
  ∀ ys, (traverse (λ x, t <- lift (λ w, f w x) ;; ret (g x t)) xs w).1 = Return ys →
        ∃ texts, length texts = length xs ∧ ys = zip_with g xs texts.
Proof.
  unfold bind, lift, ret.
  induction xs as [|x xs [IH1 IH2]]; simpl.
  { split; [done|]. intros ys [= <-]. by exists []. }
  unfold bind, ret. simpl.
  destruct (f w x) as [t|e]; simpl; [|split; [done | intros ? [=]]].
  destruct (traverse _ xs w) as [[ys'|e] w1]; simpl in *; [|split; [done | intros ? [=]]].
  split; [done|]. intros ys [= <-]. destruct (IH2 ys' eq_refl) as (texts & Hl & ->).
  exists (t :: texts). simpl. by rewrite Hl.
Qed.

(** One bucket: the auxiliary set is added to the element groups and
    nothing else changes; what is written is the block of the bucket. *)
Lemma write_bucket_spec (w0 : World) eltype sec o els (w : World) :
  (∀ e, e ∈ iter els → contains_element (self w0) e = true) →
  serial_frame w0 w →
  serial_frame w0 (wbucket eltype sec (o, els) w).2 ∧
  ∀ fs w', wbucket eltype sec (o, els) w = (Return fs, w') →
           bucket_block eltype sec o els fs.
Proof.
  intros Hc Hw. unfold write_bucket.
  pose proof (render_all (λ w e, element_generate_jobdata (heap w) e) ElementLine
                (iter els) w) as R.
  cbv beta in R.
  destruct (traverse _ (iter els) w) as [[lines|e] w1] eqn:E1; simpl in R;
    destruct R as [-> R2].
  2:{ rewrite (bind_Raise _ _ _ _ _ E1). split; [done | intros ?? [=]]. }
  rewrite (bind_Return _ _ _ _ _ E1).
  destruct (R2 lines eq_refl) as (texts & Hl & ->).
  destruct (add_group_of_members cfg (aux_name eltype sec o) els w) as (w2 & E2 & F2 & _).
  { intros e He. unfold contains_element. rewrite (sf_elements _ _ Hw). by apply Hc. }
  rewrite (bind_Return _ _ _ _ _ E2).
  pose proof (serial_frame_trans _ _ _ Hw F2) as F.
  unfold bind, lift, ret.
  destruct (group_generate_jobdata (heap w2) _) as [t1|e]; [|split; [done | intros ?? [=]]].
  destruct (section_generate_jobdata (heap w2) sec _ _) as [t2|e];
    [|split; [done | intros ?? [=]]].
  split; [done|]. intros fs w' [= <- <-]. by exists texts, t1, t2.
Qed.

Lemma write_section_spec (w0 : World) eltype sec (os : by_orientation) (w : World) :
  (∀ o els e, (o, els) ∈ os → e ∈ iter els → contains_element (self w0) e = true) →
  serial_frame w0 w →
  serial_frame w0 (wsection eltype (sec, os) w).2 ∧
  ∀ fs w', wsection eltype (sec, os) w = (Return fs, w') →
    ∃ fss, Forall2 bucket_writes ((λ '(o, els), (eltype, sec, o, els)) <$> os) fss ∧
           fs = concat fss.
Proof.
  intros Hc Hw. unfold write_section. simpl.
  assert (HP : ∀ x, x ∈ os → preserves (serial_frame w0) (wbucket eltype sec x)).
  { intros [o els] Hx s Hs. apply write_bucket_spec; [|done]. intros e. by apply (Hc o els). }
  split.
  - apply preserves_bind; [by apply preserves_traverse | intros; apply preserves_ret | done].
  - intros fs w'. unfold bind, ret.
    destruct (traverse _ os w) as [[bs|e] w1] eqn:E; [|done].
    intros [= <- <-]. exists bs. split; [|done].
    apply Forall2_fmap_l.
    eapply (traverse_Forall2 (serial_frame w0)); [|exact HP|exact Hw|exact E].
    intros [o els] s0 fs s1 Hx Hs0 Ex. simpl.
    eapply write_bucket_spec; [|exact Hs0|exact Ex]. intros e. by apply (Hc o els).
Qed.

Lemma write_eltype_spec (w0 : World) eltype (ss : by_section) (w : World) :
  (∀ sec os o els e, (sec, os) ∈ ss → (o, els) ∈ os → e ∈ iter els →
     contains_element (self w0) e = true) →
  serial_frame w0 w →
  serial_frame w0 (weltype (eltype, ss) w).2 ∧
  ∀ fs w', weltype (eltype, ss) w = (Return fs, w') →
    ∃ fss, Forall2 bucket_writes
             (ss ≫= λ '(sec, os), (λ '(o, els), (eltype, sec, o, els)) <$> os) fss ∧
           fs = concat fss.
Proof.
  intros Hc Hw. unfold write_eltype. simpl.
  assert (HP : ∀ x, x ∈ ss → preserves (serial_frame w0) (wsection eltype x)).
  { intros [sec os] Hx s Hs. apply write_section_spec; [|done].
    intros o els e. by apply (Hc sec os). }
  split.
  - apply preserves_bind; [by apply preserves_traverse | intros; apply preserves_ret | done].
  - intros fs w'. unfold bind, ret.
    destruct (traverse _ ss w) as [[bs|e] w1] eqn:E; [|done].
    intros [= <- <-].
    apply (Forall2_bind_concat bucket_writes
             (λ '(sec, os), (λ '(o, els), (eltype, sec, o, els)) <$> os)).
    eapply (traverse_Forall2 (serial_frame w0)); [|exact HP|exact Hw|exact E].
    intros [sec os] s0 fs s1 Hx Hs0 Ex.
    eapply write_section_spec; [|exact Hs0|exact Ex]. intros o els e. by apply (Hc sec os).
Qed.

Lemma write_all_spec (w0 : World) (g : by_eltype) (w : World) :
  (∀ eltype sec o els e, (eltype, sec, o, els) ∈ buckets g → e ∈ iter els →
     contains_element (self w0) e = true) →
  serial_frame w0 w →
  serial_frame w0 (traverse weltype g w).2 ∧
  ∀ blocks w', traverse weltype g w = (Return blocks, w') →
    ∃ fss, Forall2 bucket_writes (buckets g) fss ∧ concat blocks = concat fss.
Proof.
  intros Hc Hw.
  assert (Hc' : ∀ eltype ss sec os o els e,
            (eltype, ss) ∈ g → (sec, os) ∈ ss → (o, els) ∈ os → e ∈ iter els →
            contains_element (self w0) e = true).
  { intros eltype ss sec os o els e H1 H2 H3. apply (Hc eltype sec o els).
    apply elem_of_buckets. eauto. }
  assert (HP : ∀ x, x ∈ g → preserves (serial_frame w0) (weltype x)).
  { intros [eltype ss] Hx s Hs. apply write_eltype_spec; [|done].
    intros sec os o els e. by apply (Hc' eltype ss). }
  split; [by apply preserves_traverse|].
  intros blocks w' E.
  apply (Forall2_bind_concat bucket_writes
           (λ '(eltype, ss), ss ≫= λ '(sec, os), (λ '(o, els), (eltype, sec, o, els)) <$> os)).
  eapply (traverse_Forall2 (serial_frame w0)); [|exact HP|exact Hw|exact E].
  intros [eltype ss] s0 fs s1 Hx Hs0 Ex.
  eapply write_eltype_spec; [|exact Hs0|exact Ex]. intros sec os o els e. by apply (Hc' eltype ss).
Qed.
End AbaqusPartFacts.

Lemma bucket_block_no_node_fragment eltype sec o els fs :
  bucket_block eltype sec o els fs → Forall (λ f, is_node_fragment f = false) fs.
Proof.
  intros (texts & t1 & t2 & _ & ->). constructor; [done|].
  apply Forall_app. split; [|by repeat constructor].
  apply Forall_forall. intros f Hf. apply elem_of_lookup_zip_with in Hf as (i & e & t & -> & _).
  done.
Qed.

Lemma bucket_block_one_header eltype sec o els fs :
  bucket_block eltype sec o els fs → length (filter (λ f, is_element_header f = true) fs) = 1.
Proof.
  intros (texts & t1 & t2 & _ & ->). rewrite filter_cons_True by done. simpl. f_equal.
  rewrite filter_app. rewrite length_app.
  assert (H0 : ∀ l : list fragment, Forall (λ f, is_element_header f = false) l →
               filter (λ f, is_element_header f = true) l = []).
  { induction 1 as [|f l Hf _ IH]; [done|]. rewrite filter_cons_False; [done|]. congruence. }
  rewrite !H0; [done | by repeat constructor |].
  apply Forall_forall. intros f Hf. apply elem_of_lookup_zip_with in Hf as (i & e & t & -> & _).
  done.
Qed.

Section AbaqusPartData.
Variable node_generate_jobdata : Heap → Node → outcome string.
Variable group_generate_jobdata : Heap → Group → outcome string.
Variable section_generate_jobdata :
  Heap → Section → string → option (list string) → outcome string.
Variable release_generate_jobdata : Heap → Release → outcome string.
Variable cfg : Config.

Local Abbreviation weltype :=
  (write_eltype group_generate_jobdata section_generate_jobdata cfg).
Local Abbreviation pdata :=
  (part_data node_generate_jobdata group_generate_jobdata section_generate_jobdata
     release_generate_jobdata cfg).
Local Abbreviation jobdata :=
  (_generate_jobdata node_generate_jobdata group_generate_jobdata section_generate_jobdata
     release_generate_jobdata cfg).

(** What [part_data] changes and what it lists. *)
Lemma part_data_spec (w : World) :
  wf_set (_elements (self w)) →
  serial_frame w (pdata w).2 ∧
  ∀ data w', pdata w = (Return data, w') →
    ∃ texts g fss rest,
      length texts = length (iter (_nodes (self w))) ∧
      _group_elements (self w) = Return g ∧
      Forall2 bucket_writes (buckets g) fss ∧
      Forall after_node_block rest ∧
      data = (NodeHeader :: zip_with NodeLine (iter (_nodes (self w))) texts
                ++ concat fss ++ rest)%list.
Proof.
  intros Hwf. unfold part_data.
  rewrite (bind_Return _ _ _ _ _ (eq_refl : get w = (Return w, w))).
  pose proof (render_all (λ w n, node_generate_jobdata (heap w) n) NodeLine
                (iter (_nodes (self w))) w) as R.
  cbv beta in R.
  destruct (traverse _ (iter (_nodes (self w))) w) as [[node_lines|e] w1] eqn:E1;
    simpl in R; destruct R as [-> R2].
  2:{ rewrite (bind_Raise _ _ _ _ _ E1). split; [apply serial_frame_refl | intros ?? [=]]. }
  rewrite (bind_Return _ _ _ _ _ E1).
  destruct (R2 node_lines eq_refl) as (texts & Hl & ->).
  destruct (_group_elements (self w)) as [g|e] eqn:Eg.
  2:{ rewrite (bind_Raise _ _ w e w); [|by unfold lift; rewrite Eg].
      split; [apply serial_frame_refl | intros ?? [=]]. }
  rewrite (bind_Return _ _ w g w); [|by unfold lift; rewrite Eg].
  destruct (write_all_spec group_generate_jobdata section_generate_jobdata cfg w g w)
    as [F3 V3]; [|apply serial_frame_refl|].
  { intros eltype sec o els e Hb He. unfold contains_element.
    apply contains_iter; [done|]. by eapply group_elements_members. }
  destruct (traverse weltype g w) as [[blocks|e] w3] eqn:E3; simpl in F3.
  2:{ rewrite (bind_Raise _ _ _ _ _ E3). split; [done | intros ?? [=]]. }
  rewrite (bind_Return _ _ _ _ _ E3).
  destruct (V3 blocks w3 eq_refl) as (fss & Hfss & Hconcat).
  rewrite (bind_Return _ _ _ _ _ (eq_refl : get w3 = (Return w3, w3))).
  pose proof (render_all (λ w g, group_generate_jobdata (heap w) g) GroupData
                (groups (self w3)) w3) as R.
  cbv beta in R.
  destruct (traverse _ (groups (self w3)) w3) as [[group_lines|e] w4] eqn:E4;
    simpl in R; destruct R as [-> R4].
  2:{ rewrite (bind_Raise _ _ _ _ _ E4). split; [done | intros ?? [=]]. }
  rewrite (bind_Return _ _ _ _ _ E4).
  destruct (R4 group_lines eq_refl) as (gtexts & _ & ->).
  rewrite (bind_Return _ _ _ _ _ (eq_refl : get w3 = (Return w3, w3))).
  assert (Hg : Forall after_node_block (zip_with GroupData (groups (self w3)) gtexts)).
  { apply Forall_forall. intros f Hf.
    apply elem_of_lookup_zip_with in Hf as (i & x & t & -> & _). done. }
  destruct (nonempty (_releases (self w3))).
  - pose proof (render_all (λ w r, release_generate_jobdata (heap w) r) ReleaseLine
                  (iter (_releases (self w3))) w3) as R.
    cbv beta in R.
    destruct (traverse _ (iter (_releases (self w3))) w3) as [[ls|e] w5] eqn:E5;
      simpl in R; destruct R as [-> R5].
    2:{ rewrite (bind_Raise _ _ w3 e w3); [|by rewrite (bind_Raise _ _ _ _ _ E5)].
        split; [done | intros ?? [=]]. }
    rewrite (bind_Return _ _ w3 (ReleaseHeader :: ls) w3);
      [|by rewrite (bind_Return _ _ _ _ _ E5)].
    destruct (R5 ls eq_refl) as (rtexts & _ & ->).
    split; [done|]. intros data w' [= <- <-].
    exists texts, g, fss. eexists. split; [done|]. split; [done|]. split; [done|].
    split; [|by rewrite Hconcat].
    apply Forall_app. split; [done|]. constructor; [done|].
    apply Forall_forall. intros f Hf.
    apply elem_of_lookup_zip_with in Hf as (i & x & t & -> & _). done.
  - rewrite (bind_Return _ _ w3 [] w3) by done.
    split; [done|]. intros data w' [= <- <-].
    exists texts, g, fss. eexists. split; [done|]. split; [done|]. split; [done|].
    split; [|by rewrite Hconcat].
    apply Forall_app. split; [done | constructor].
Qed.

End AbaqusPartData.


Lemma quad_world_wf : wf_set (_elements (self quad_world)).
Proof. apply (bool_decide_unpack _). vm_compute. exact I. Qed.



(** C7, as the code has it.  When [part_data] returns, on a part whose
    element set is well formed, what it lists starts with the node header
    and one line for each node of the part, each node once, in the order in
    which the node set iterates; no node header and no node line follows,
    so every element header comes after the node block. *)
Theorem node_block_first
    (node_generate_jobdata : Heap → Node → outcome string)
    (group_generate_jobdata : Heap → Group → outcome string)
    (section_generate_jobdata : Heap → Section → string → option (list string) → outcome string)
    (release_generate_jobdata : Heap → Release → outcome string)
    (cfg : Config) (w w' : World) (data : list fragment) :
  wf_set (_elements (self w)) →
  wf_set (_nodes (self w)) →
  part_data node_generate_jobdata group_generate_jobdata section_generate_jobdata
    release_generate_jobdata cfg w = (Return data, w') →
  ∃ texts rest,
    length texts = len (_nodes (self w)) ∧
    NoDup (node_id <$> iter (_nodes (self w))) ∧
    data = (NodeHeader :: zip_with NodeLine (iter (_nodes (self w))) texts ++ rest)%list ∧
    Forall (λ f, is_node_fragment f = false) rest.
Proof.
  intros Hwf Hwfn E.
  destruct (part_data_spec node_generate_jobdata group_generate_jobdata
              section_generate_jobdata release_generate_jobdata cfg w Hwf) as [_ H].
  destruct (H data w' E) as (texts & g & fss & rest & Hl & _ & Hfss & Hrest & ->).
  exists texts, (concat fss ++ rest)%list. split; [by rewrite Hl, length_iter|].
  split; [by apply (NoDup_iter_ids (_nodes (self w)))|]. split; [done|].
  apply Forall_app. split.
  - apply Forall_concat. clear -Hfss. induction Hfss as [|[[[t s] o] els] fs ?? Hb _ IH];
      constructor; [|done]. by eapply bucket_block_no_node_fragment.
  - eapply Forall_impl; [exact Hrest|]. by intros f [? _].
Qed.

Lemma node_block_first_witness :
  ∃ texts rest,
    length texts = len (_nodes (self quad_world)) ∧
    NoDup (node_id <$> iter (_nodes (self quad_world))) ∧
    (part_data node_line group_line section_line release_line quiet quad_world).1
      = Return (NodeHeader :: zip_with NodeLine (iter (_nodes (self quad_world))) texts
                  ++ rest)%list ∧
    Forall (λ f, is_node_fragment f = false) rest.
Proof.
  destruct (part_data node_line group_line section_line release_line quiet quad_world)
    as [[data|e] w'] eqn:E.
  - destruct (node_block_first node_line group_line section_line release_line quiet
                quad_world w' data) as (texts & rest & H1 & H2 & -> & H4).
    + apply quad_world_wf.
    + apply (bool_decide_unpack _). vm_compute. exact I.
    + exact E.
    + by exists texts, rest.
  - exfalso. vm_compute in E. discriminate E.
Defined.

(** C7 as stated fails: the two node lines of [against_order] come in
    the order of the node set, and the keys of their nodes are 1 and then
    0. *)
Lemma node_block_counterexample :
  wf_set (_nodes (self against_order)) ∧
  node_line_keys (heap against_order)
    (match (part_data node_line group_line section_line release_line quiet against_order).1
     with Return data => data | Raise _ => [] end)
    = [Some 1%Z; Some 0%Z] ∧
  (_generate_jobdata node_line group_line section_line release_line quiet against_order).1
    = Return ("*Part, name=part" ++ nl ++ "*Node" ++ nl
              ++ "2, 1.500,0.000,0.000" ++ nl ++ "1, 0.000,0.000,0.000" ++ nl
              ++ "*End Part" ++ nl ++ "**" ++ nl).
Proof.
  split; [apply (bool_decide_unpack _); vm_compute; exact I|].
  split; vm_compute; reflexivity.
Qed.

(** ** C5: the grouping and the elements whose orientation is [None] *)

Lemma otraverse_Return_all {A B} (f : A → outcome B) (xs : list A) (ys : list B) (x : A) :
  otraverse f xs = Return ys → x ∈ xs → ∃ y, f x = Return y.
Proof.
  intros E%otraverse_Forall2 [i Hi]%list_elem_of_lookup.
  destruct (Forall2_lookup_l _ _ _ _ _ E Hi) as (y & _ & Hy). eauto.
Qed.

Lemma to_set_lookup {A} `{Identified A} (xs : list A) (i : positive) (y : A) :
  to_set xs !! i = Some y → y ∈ xs ∧ id_of y = i.
Proof.
  induction xs as [|x xs IH]; simpl; [by rewrite lookup_empty|].
  unfold add. destruct (decide (id_of x = i)) as [<-|Hne].
  - rewrite lookup_insert_eq. intros [= <-]. split; [apply list_elem_of_here | done].
  - rewrite lookup_insert_ne by done. intros [Hy Hi]%IH. split; [|done].
    by apply list_elem_of_further.
Qed.

Lemma to_set_covers {A} `{Identified A} (xs : list A) (x : A) :
  x ∈ xs → ∃ y, y ∈ iter (to_set xs) ∧ id_of y = id_of x.
Proof.
  intros Hx.
  assert (Hs : is_Some (to_set xs !! id_of x)).
  { induction xs as [|x' xs IH]; [by apply elem_of_nil in Hx|].
    simpl. unfold add. apply elem_of_cons in Hx as [->|Hx].
    - rewrite lookup_insert_eq. eauto.
    - destruct (decide (id_of x' = id_of x)) as [->|Hne].
      + rewrite lookup_insert_eq. eauto.
      + rewrite lookup_insert_ne by done. by apply IH. }
  destruct Hs as [y Hy]. exists y. split.
  - apply elem_of_iter. eauto.
  - by apply to_set_lookup in Hy as [_ ?].
Qed.

(** A part with an element whose [_orientation] is there and is [None]
    cannot be grouped: [_group_elements] raises. *)
Lemma group_elements_none_orientation_raises (p : Part) (e : Element) :
  e ∈ iter (_elements p) → _orientation e = Attr None →
  ∃ ex, _group_elements p = Raise ex.
Proof.
  intros He Ho. destruct (_group_elements p) as [g|ex] eqn:Eg; [exfalso | eauto].
  unfold _group_elements in Eg.
  assert (Ht : _eltype e ∈ elements (list_to_set (_eltype <$> iter (_elements p)) : gset string)).
  { apply elem_of_elements, elem_of_list_to_set, list_elem_of_fmap. eauto. }
  destruct (otraverse_Return_all _ _ _ _ Eg Ht) as [y Hy].
  destruct (group_by_section _) as [ss|] eqn:Ess; simpl in Hy; [clear Hy | done].
  unfold group_by_section in Ess.
  set (sub := filter (λ el, _eltype el = _eltype e) (iter (_elements p))) in *.
  assert (Hsub : e ∈ sub) by (by apply list_elem_of_filter).
  destruct (to_set_covers (section <$> sub) (section e)) as (sec & Hsec & Hid).
  { apply list_elem_of_fmap. eauto. }
  destruct (otraverse_Return_all _ _ _ _ Ess Hsec) as [y' Hy].
  destruct (group_by_orientation _) as [d|] eqn:Ed; simpl in Hy; [clear Hy | done].
  unfold group_by_orientation in Ed.
  destruct (otraverse orientation_of _) as [os|] eqn:Eos; simpl in Ed; [|done].
  destruct (otraverse_Return_all _ _ _ e Eos) as [o Hoe].
  { apply list_elem_of_filter. split; [symmetry; exact Hid | done]. }
  unfold orientation_of in Hoe. by rewrite Ho in Hoe.
Qed.

(** C5 fails on a part with a truss element.  [AbaqusTrussElement] sets
    [_orientation] to [None]; [_group_elements] then iterates [None] and
    raises [TypeError], and so does [_generate_jobdata]: there is no
    partition and no element block. *)
Theorem group_elements_truss_raises :
  truss ∈ iter (_elements (self truss_world)) ∧
  _group_elements (self truss_world) = Raise TypeError ∧
  (_generate_jobdata node_line group_line section_line release_line quiet truss_world).1
    = Raise TypeError.
Proof.
  split; [apply (bool_decide_unpack _); vm_compute; exact I|].
  split; vm_compute; reflexivity.
Qed.

(** * Further properties *)

(** ** The grouping of the elements is a partition *)

Lemma NoDup_fmap_inj_on {A B} (f : A → B) (l : list A) (x y : A) :
  NoDup (f <$> l) → x ∈ l → y ∈ l → f x = f y → x = y.
Proof.
  induction l as [|a l IH]; intros Hnd Hx Hy Hf; [by apply elem_of_nil in Hx|].
  rewrite fmap_cons in Hnd. apply NoDup_cons in Hnd as [Ha Hnd].
  apply elem_of_cons in Hx as [->|Hx]; apply elem_of_cons in Hy as [->|Hy]; auto.
  - exfalso. apply Ha. rewrite Hf. apply list_elem_of_fmap. eauto.
  - exfalso. apply Ha. rewrite <- Hf. apply list_elem_of_fmap. eauto.
Qed.

Lemma wf_set_one_per_identity (s : pyset Element) :
  wf_set s → one_element_per_identity (iter s).
Proof.
  intros Hwf x y [i Hx]%elem_of_iter [j Hy]%elem_of_iter Hid.
  pose proof (Hwf i x Hx) as Hi. pose proof (Hwf j y Hy) as Hj. simpl in *.
  unfold id_of, Element_identified in *. congruence.
Qed.

Lemma one_element_per_identity_filter (P : Element → Prop) `{∀ x, Decision (P x)} els :
  one_element_per_identity els → one_element_per_identity (filter P els).
Proof.
  intros Hu x y [_ Hx]%list_elem_of_filter [_ Hy]%list_elem_of_filter. by apply Hu.
Qed.

Lemma grows_refl d : grows d d.
Proof. intros o els x ??. eauto. Qed.

Lemma grows_trans d1 d2 d3 : grows d1 d2 → grows d2 d3 → grows d1 d3.
Proof.
  intros H12 H23 o els x Hin Hx. destruct (H12 o els x Hin Hx) as (els' & Hin' & Hx').
  by apply (H23 o els' x).
Qed.

Lemma grows_holds d d' o x : grows d d' → holds d o x → holds d' o x.
Proof. intros Hg (els & Hin & Hx). by apply (Hg o els x). Qed.

Lemma dict_add_spec sub k el d d' :
  one_element_per_identity sub → el ∈ sub → orientation_of el = Return k →
  sound sub d → dict_add k el d = Return d' →
  d'.*1 = d.*1 ∧ sound sub d' ∧ grows d d' ∧ holds d' k el.
Proof.
  intros Hu Hel Hk. revert d'.
  induction d as [|[k' els'] d IH]; intros d' Hs E; simpl in E; [done|].
  assert (Hs' : sound sub d).
  { intros o els i x Hin. apply Hs. by apply list_elem_of_further. }
  case_bool_decide as Hkk.
  - injection E as <-. subst k'. split; [done|]. split; [|split].
    + intros o els i x [Heq|Hin]%elem_of_cons Hx.
      * injection Heq as -> ->. unfold add in Hx.
        destruct (decide (id_of el = i)) as [<-|Hne].
        -- rewrite lookup_insert_eq in Hx. injection Hx as <-. done.
        -- rewrite lookup_insert_ne in Hx by done.
           eapply Hs; [apply list_elem_of_here | done].
      * by eapply Hs'.
    + intros o els x [Heq|Hin]%elem_of_cons Hx.
      * injection Heq as -> ->. exists (add el els'). split; [apply list_elem_of_here|].
        unfold add. destruct (decide (id_of el = element_id x)) as [Heq|Hne].
        -- rewrite Heq, lookup_insert_eq. f_equal. apply Hu; [done| |done].
           by apply (Hs k els' (element_id x) x); [apply list_elem_of_here|].
        -- by rewrite lookup_insert_ne.
      * exists els. split; [by apply list_elem_of_further | done].
    + exists (add el els'). split; [apply list_elem_of_here|]. apply lookup_insert_eq.
  - destruct (dict_add k el d) as [d''|e] eqn:E'; simpl in E; [|done].
    injection E as <-. destruct (IH d'' Hs' eq_refl) as (Hkeys & Hsd & Hg & Hh).
    split; [by rewrite !fmap_cons, Hkeys|]. split; [|split].
    + intros o els i x [Heq|Hin]%elem_of_cons Hx.
      * injection Heq as -> ->. eapply Hs; [apply list_elem_of_here | done].
      * by eapply Hsd.
    + intros o els x [Heq|Hin]%elem_of_cons Hx.
      * injection Heq as -> ->. exists els'. split; [apply list_elem_of_here | done].
      * destruct (Hg o els x Hin Hx) as (els1 & Hin1 & Hx1). exists els1.
        split; [by apply list_elem_of_further | done].
    + destruct Hh as (els1 & Hin1 & Hx1). exists els1.
      split; [by apply list_elem_of_further | done].
Qed.

Lemma orientation_of_missing el :
  has_orientation el = false → orientation_of el = Return None.
Proof. unfold has_orientation, orientation_of. by destruct (_orientation el). Qed.

Lemma place_spec sub o el d d' :
  one_element_per_identity sub → el ∈ sub →
  sound sub d → place o d el = Return d' →
  d'.*1 = d.*1 ∧ sound sub d' ∧ grows d d' ∧
  (orientation_of el = Return o → holds d' o el).
Proof.
  intros Hu Hel Hs. unfold place. destruct (has_orientation el) eqn:Ho.
  - destruct (orientation_of el) as [o'|e] eqn:Eo; simpl; [|done].
    case_bool_decide as Hoo.
    + subst o'. intros E. destruct (dict_add_spec sub o el d d' Hu Hel Eo Hs E) as (?&?&?&?).
      done.
    + intros [= <-]. split; [done|]. split; [done|]. split; [apply grows_refl|].
      intros [= ?]. done.
  - pose proof (orientation_of_missing el Ho) as Eo. intros E.
    destruct (dict_add_spec sub None el d d' Hu Hel Eo Hs E) as (?&?&?&?).
    split; [done|]. split; [done|]. split; [done|]. rewrite Eo. by intros [= <-].
Qed.

(** One pass over the elements, for one orientation key. *)
Lemma pass_spec sub o xs d d' :
  one_element_per_identity sub → xs ⊆ sub →
  sound sub d → ofold (place o) d xs = Return d' →
  d'.*1 = d.*1 ∧ sound sub d' ∧ grows d d' ∧
  (∀ el, el ∈ xs → orientation_of el = Return o → holds d' o el).
Proof.
  intros Hu. revert d. induction xs as [|x xs IH]; intros d Hsub Hs E; simpl in E.
  { injection E as <-. split; [done|]. split; [done|]. split; [apply grows_refl|].
    intros el Hel. by apply elem_of_nil in Hel. }
  destruct (place o d x) as [d1|e] eqn:E1; simpl in E; [|done].
  assert (Hx : x ∈ sub) by (apply Hsub, list_elem_of_here).
  destruct (place_spec sub o x d d1 Hu Hx Hs E1) as (Hk1 & Hs1 & Hg1 & Hh1).
  destruct (IH d1) as (Hk2 & Hs2 & Hg2 & Hh2); [|done|done|].
  { intros y Hy. by apply Hsub, list_elem_of_further. }
  split; [congruence|]. split; [done|]. split; [by eapply grows_trans|].
  intros el [->|Hel]%elem_of_cons Ho; [|by apply Hh2].
  eapply grows_holds; [exact Hg2 | by apply Hh1].
Qed.

Lemma setdefault_spec sub o d :
  sound sub d → NoDup d.*1 →
  sound sub (setdefault o d) ∧ NoDup (setdefault o d).*1 ∧ grows d (setdefault o d) ∧
  (setdefault o d).*1 ⊆ o :: d.*1.
Proof.
  intros Hs Hnd. unfold setdefault. case_bool_decide as Hin.
  { split; [done|]. split; [done|]. split; [apply grows_refl|].
    intros k Hk. by apply list_elem_of_further. }
  split; [|split; [|split]].
  - intros k els i x [Hin'|Hin'%list_elem_of_singleton]%elem_of_app Hx; [by eapply Hs|].
    injection Hin' as -> ->. by rewrite lookup_empty in Hx.
  - rewrite fmap_app. apply NoDup_app. split; [done|]. split; [|apply NoDup_singleton].
    intros k Hk ->%list_elem_of_singleton. done.
  - intros k els x Hk Hx. exists els. split; [|done]. apply elem_of_app. by left.
  - rewrite fmap_app. intros k [Hk| ->%list_elem_of_singleton]%elem_of_app.
    + by apply list_elem_of_further.
    + apply list_elem_of_here.
Qed.

(** All the passes. *)
Lemma passes_spec sub os d d' :
  one_element_per_identity sub →
  sound sub d → NoDup d.*1 →
  ofold (λ d orientation, ofold (place orientation) (setdefault orientation d) sub) d os
    = Return d' →
  sound sub d' ∧ NoDup d'.*1 ∧ grows d d' ∧ d'.*1 ⊆ (os ++ d.*1)%list ∧
  (∀ o el, o ∈ os → el ∈ sub → orientation_of el = Return o → holds d' o el).
Proof.
  intros Hu. revert d. induction os as [|o os IH]; intros d Hs Hnd E; simpl in E.
  { injection E as <-. split; [done|]. split; [done|]. split; [apply grows_refl|].
    split; [done|]. intros o el Ho. by apply elem_of_nil in Ho. }
  destruct (ofold (place o) (setdefault o d) sub) as [d1|e] eqn:E1; simpl in E; [|done].
  destruct (setdefault_spec sub o d Hs Hnd) as (Hs0 & Hnd0 & Hg0 & Hk0).
  destruct (pass_spec sub o sub _ d1 Hu (reflexivity _) Hs0 E1) as (Hk1 & Hs1 & Hg1 & Hh1).
  destruct (IH d1) as (Hs2 & Hnd2 & Hg2 & Hk2 & Hh2); [done|by rewrite Hk1|done|].
  split; [done|]. split; [done|]. split; [by eapply grows_trans; [|eapply grows_trans]|].
  split.
  - intros k Hk. apply Hk2 in Hk. apply elem_of_app in Hk as [Hk|Hk].
    + apply elem_of_app. left. by apply list_elem_of_further.
    + rewrite Hk1 in Hk. apply Hk0 in Hk. apply elem_of_cons in Hk as [->|Hk].
      * apply elem_of_app. left. apply list_elem_of_here.
      * apply elem_of_app. by right.
  - intros k el [->|Hk]%elem_of_cons Hel Ho; [|by apply Hh2].
    eapply grows_holds; [exact Hg2 | by apply Hh1].
Qed.

Lemma holds_iter d o x : holds d o x → ∃ els, (o, els) ∈ d ∧ x ∈ iter els.
Proof. intros (els & Hin & Hx). exists els. split; [done|]. apply elem_of_iter. eauto. Qed.

(** The subgrouping by orientation. *)
Lemma group_by_orientation_spec sub d :
  one_element_per_identity sub →
  group_by_orientation sub = Return d →
  NoDup d.*1 ∧
  (∀ o els x, (o, els) ∈ d → x ∈ iter els → x ∈ sub ∧ orientation_of x = Return o) ∧
  (∀ x, x ∈ sub → ∃ o els, (o, els) ∈ d ∧ x ∈ iter els) ∧
  (∀ o els, (o, els) ∈ d → ∃ x, x ∈ iter els).
Proof.
  intros Hu. unfold group_by_orientation.
  destruct (otraverse orientation_of sub) as [os|e] eqn:Eos; simpl; [|done].
  intros E. apply otraverse_Forall2 in Eos.
  assert (Hs0 : sound sub []).
  { intros o els i x Hin. by apply elem_of_nil in Hin. }
  assert (Hnd0 : NoDup ([] : by_orientation).*1) by constructor.
  destruct (passes_spec sub _ [] d Hu Hs0 Hnd0 E) as (Hs & Hnd & _ & Hk & Hh).
  assert (Hcover : ∀ x, x ∈ sub → ∃ o, orientation_of x = Return o ∧ holds d o x).
  { intros x [i Hi]%list_elem_of_lookup.
    destruct (Forall2_lookup_l _ _ _ _ _ Eos Hi) as (o & Ho & Ex).
    exists o. split; [done|]. apply Hh; [| |done].
    - apply elem_of_elements, elem_of_list_to_set. by eapply list_elem_of_lookup_2.
    - by eapply list_elem_of_lookup_2. }
  split; [done|]. split; [|split].
  - intros o els x Hin [i Hx]%elem_of_iter. destruct (Hs o els i x Hin Hx) as (?&?&?). done.
  - intros x Hx. destruct (Hcover x Hx) as (o & _ & Hh').
    apply holds_iter in Hh' as (els & ? & ?). eauto.
  - intros o els Hin.
    assert (Ho : o ∈ d.*1) by (apply list_elem_of_fmap; by exists (o, els)).
    apply Hk in Ho. rewrite app_nil_r in Ho.
    apply elem_of_elements, elem_of_list_to_set in Ho.
    apply list_elem_of_lookup in Ho as [i Hi].
    destruct (Forall2_lookup_r _ _ _ _ _ Eos Hi) as (x & Hx & Ex).
    assert (Hx' : x ∈ sub) by (by eapply list_elem_of_lookup_2).
    exists x. destruct (Hh o x) as (els' & Hin' & Hx''); [| done | done |].
    { apply elem_of_elements, elem_of_list_to_set. by eapply list_elem_of_lookup_2. }
    assert (els' = els) as ->.
    { assert (Heq : (o, els') = (o, els));
        [apply (NoDup_fmap_inj_on fst d); auto | by injection Heq]. }
    apply elem_of_iter. eauto.
Qed.

Lemma wf_set_to_set {A} `{Identified A} (xs : list A) : wf_set (to_set xs).
Proof. induction xs; simpl; [apply wf_set_empty | by apply wf_set_add]. Qed.

(** The subgrouping by section. *)
Lemma group_by_section_spec els ss :
  one_element_per_identity els →
  group_by_section els = Return ss →
  NoDup (section_id <$> ss.*1) ∧
  (∀ sec d, (sec, d) ∈ ss →
     NoDup d.*1 ∧
     (∀ o els' x, (o, els') ∈ d → x ∈ iter els' →
        x ∈ els ∧ section_id (section x) = section_id sec ∧ orientation_of x = Return o) ∧
     (∀ o els', (o, els') ∈ d → ∃ x, x ∈ iter els')) ∧
  (∀ x, x ∈ els → ∃ sec d o els', (sec, d) ∈ ss ∧ (o, els') ∈ d ∧ x ∈ iter els').
Proof.
  intros Hu E. unfold group_by_section in E. apply otraverse_Forall2 in E.
  set (S := iter (to_set (section <$> els))) in *.
  assert (Hfst : ss.*1 = S).
  { apply (list_eq_same_length _ _ (length S)); [done|by rewrite length_fmap, <- (Forall2_length _ _ _ E)|].
    intros i x y Hi Hx Hy.
    apply list_lookup_fmap_Some in Hx as ([sec d] & -> & Ei). simpl.
    destruct (Forall2_lookup_r _ _ _ _ _ E Ei) as (sec' & Hs' & Es).
    destruct (group_by_orientation _); simpl in Es; [|done]. congruence. }
  assert (Hentry : ∀ sec d, (sec, d) ∈ ss →
            sec ∈ S ∧
            group_by_orientation
              (filter (λ el, section_id (section el) = section_id sec) els) = Return d).
  { intros sec d [i Hi]%list_elem_of_lookup.
    destruct (Forall2_lookup_r _ _ _ _ _ E Hi) as (sec' & Hs' & Es).
    destruct (group_by_orientation _) as [d'|] eqn:Ed; simpl in Es; [|done].
    injection Es as -> ->. split; [by eapply list_elem_of_lookup_2 | done]. }
  split; [|split].
  - rewrite Hfst. apply (NoDup_iter_ids (to_set (section <$> els))), wf_set_to_set.
  - intros sec d Hin. destruct (Hentry sec d Hin) as [_ Ed].
    apply group_by_orientation_spec in Ed as (Hnd & Hsound & _ & Hne);
      [|by apply one_element_per_identity_filter].
    split; [done|]. split; [|done].
    intros o els' x Ho Hx. destruct (Hsound o els' x Ho Hx) as [Hf Hox].
    apply list_elem_of_filter in Hf as [Hsec Hel]. done.
  - intros x Hx.
    destruct (to_set_covers (section <$> els) (section x)) as (sec & Hsec & Hid).
    { apply list_elem_of_fmap. eauto. }
    fold S in Hsec. rewrite <- Hfst in Hsec.
    apply list_elem_of_fmap in Hsec as ([sec' d] & -> & Hin). simpl in *.
    destruct (Hentry sec' d Hin) as [_ Ed].
    apply group_by_orientation_spec in Ed as (_ & _ & Hcover & _);
      [|by apply one_element_per_identity_filter].
    destruct (Hcover x) as (o & els' & Ho & Hx').
    { apply list_elem_of_filter. split; [by symmetry | done]. }
    exists sec', d, o, els'. done.
Qed.

(** The buckets of [_group_elements], one level after the other. *)
Lemma group_elements_spec (p : Part) (g : by_eltype) :
  wf_set (_elements p) → _group_elements p = Return g →
  NoDup g.*1 ∧
  (∀ eltype ss, (eltype, ss) ∈ g →
     group_by_section (filter (λ el, _eltype el = eltype) (iter (_elements p))) = Return ss) ∧
  (∀ x, x ∈ iter (_elements p) → ∃ ss, (_eltype x, ss) ∈ g).
Proof.
  intros Hwf E. unfold _group_elements in E. apply otraverse_Forall2 in E.
  set (T := elements (list_to_set (_eltype <$> iter (_elements p)) : gset string)) in *.
  assert (Hfst : g.*1 = T).
  { apply (list_eq_same_length _ _ (length T)); [done|by rewrite length_fmap, <- (Forall2_length _ _ _ E)|].
    intros i x y Hi Hx Hy.
    apply list_lookup_fmap_Some in Hx as ([t ss] & -> & Ei). simpl.
    destruct (Forall2_lookup_r _ _ _ _ _ E Ei) as (t' & Ht' & Es).
    destruct (group_by_section _); simpl in Es; [|done]. congruence. }
  split; [|split].
  - rewrite Hfst. apply NoDup_elements.
  - intros eltype ss [i Hi]%list_elem_of_lookup.
    destruct (Forall2_lookup_r _ _ _ _ _ E Hi) as (t' & Ht' & Es).
    destruct (group_by_section _) as [ss'|] eqn:Ed; simpl in Es; [|done].
    by injection Es as -> ->.
  - intros x Hx.
    assert (Ht : _eltype x ∈ g.*1).
    { rewrite Hfst. apply elem_of_elements, elem_of_list_to_set, list_elem_of_fmap. eauto. }
    apply list_elem_of_fmap in Ht as ([t ss] & Heq & Hin). simpl in Heq. subst t. eauto.
Qed.

Lemma fmap_bind_list {A B C} (f : B → C) (g : A → list B) (l : list A) :
  f <$> (l ≫= g) = l ≫= (λ x, f <$> g x).
Proof. induction l as [|x l IH]; [done|]. by rewrite !bind_cons, fmap_app, IH. Qed.

Lemma bucket_keys_NoDup (g : by_eltype) :
  NoDup g.*1 →
  (∀ eltype ss, (eltype, ss) ∈ g →
     NoDup (section_id <$> ss.*1) ∧ ∀ sec d, (sec, d) ∈ ss → NoDup d.*1) →
  NoDup (bucket_key <$> buckets g).
Proof.
  intros Hg Hss. unfold buckets. rewrite fmap_bind_list.
  apply NoDup_bind.
  - intros [t1 ss1] [t2 ss2] k H1 H2 Hk1 Hk2.
    apply list_elem_of_fmap in Hk1 as ([[[t s] o] els] & -> & Hb1).
    apply list_elem_of_fmap in Hk2 as ([[[t' s'] o'] els'] & Heq & Hb2).
    apply list_elem_of_bind in Hb1 as ([sa da] & Hb1 & _).
    apply list_elem_of_fmap in Hb1 as ([oa ea] & Heq1 & _).
    apply list_elem_of_bind in Hb2 as ([sb db] & Hb2 & _).
    apply list_elem_of_fmap in Hb2 as ([ob eb] & Heq2 & _).
    simpl in Heq. simplify_eq.
    apply (NoDup_fmap_inj_on fst g); auto.
  - intros [t ss] Hin. destruct (Hss t ss Hin) as [Hsec Hd].
    rewrite fmap_bind_list. apply NoDup_bind.
    + intros [s1 d1] [s2 d2] k H1 H2 Hk1 Hk2.
      apply list_elem_of_fmap in Hk1 as ([[[ta sa] oa] ea] & -> & Hb1).
      apply list_elem_of_fmap in Hk2 as ([[[tb sb] ob] eb] & Heq & Hb2).
      apply list_elem_of_fmap in Hb1 as ([oa' ea'] & Heq1 & _).
      apply list_elem_of_fmap in Hb2 as ([ob' eb'] & Heq2 & _).
      simpl in Heq. simplify_eq.
      apply (NoDup_fmap_inj_on (section_id ∘ fst) ss); auto.
      by rewrite list_fmap_compose.
    + intros [s d] Hin'. specialize (Hd s d Hin').
      assert (Heq : ∀ l : by_orientation,
                bucket_key <$> ((λ '(o, els), (t, s, o, els)) <$> l)
                = (λ o, (t, section_id s, o)) <$> l.*1).
      { intros l. rewrite <- !list_fmap_compose. apply list_fmap_ext. by intros ? [??] ?. }
      simpl. rewrite Heq. apply NoDup_fmap_2; [|done]. by intros ?? [= ->].
    + apply (NoDup_fmap_1 (section_id ∘ fst)). by rewrite list_fmap_compose.
  - by apply (NoDup_fmap_1 fst).
Qed.

Lemma filter_eltype_one_per_identity (p : Part) (t : string) :
  wf_set (_elements p) →
  one_element_per_identity (filter (λ el, _eltype el = t) (iter (_elements p))).
Proof.
  intros Hwf. apply one_element_per_identity_filter. by apply wf_set_one_per_identity.
Qed.

Lemma group_buckets_sound (p : Part) (g : by_eltype) (b : bucket) (e : Element) :
  wf_set (_elements p) → _group_elements p = Return g →
  b ∈ buckets g → e ∈ iter (bucket_members b) →
  e ∈ iter (_elements p) ∧ orientation_of e = Return (orientation_key e) ∧
  bucket_key b = element_triple e.
Proof.
  intros Hwf E. destruct (group_elements_spec p g Hwf E) as (Hg & Hss & Hcov).
  destruct b as [[[t s] o] els]. intros (ss & d & Ht & Hs & Ho)%elem_of_buckets He.
  simpl in He.
  destruct (group_by_section_spec _ ss (filter_eltype_one_per_identity p t Hwf) (Hss t ss Ht))
    as (_ & Hd & _).
  destruct (Hd s d Hs) as (_ & Hsd & _).
  destruct (Hsd o els e Ho He) as (Hf & Hsec & Hoe).
  apply list_elem_of_filter in Hf as [Hty Hel].
  unfold element_triple, orientation_key. rewrite Hoe. simpl. by rewrite Hty, Hsec.
Qed.

Lemma group_buckets_NoDup (p : Part) (g : by_eltype) :
  wf_set (_elements p) → _group_elements p = Return g →
  NoDup (bucket_key <$> buckets g).
Proof.
  intros Hwf E. destruct (group_elements_spec p g Hwf E) as (Hg & Hss & Hcov).
  apply bucket_keys_NoDup; [done|]. intros t ss Ht.
  destruct (group_by_section_spec _ ss (filter_eltype_one_per_identity p t Hwf) (Hss t ss Ht))
    as (Hnd & Hd & _).
  split; [done|]. intros s d Hs. by destruct (Hd s d Hs).
Qed.

Lemma group_buckets_cover (p : Part) (g : by_eltype) (e : Element) :
  wf_set (_elements p) → _group_elements p = Return g →
  e ∈ iter (_elements p) → ∃ b, b ∈ buckets g ∧ e ∈ iter (bucket_members b).
Proof.
  intros Hwf E He. destruct (group_elements_spec p g Hwf E) as (Hg & Hss & Hcov).
  destruct (Hcov e He) as [ss Ht].
  destruct (group_by_section_spec _ ss (filter_eltype_one_per_identity p _ Hwf) (Hss _ ss Ht))
    as (_ & _ & Hc).
  destruct (Hc e) as (s & d & o & els & Hs & Ho & Hx); [by apply list_elem_of_filter|].
  exists (_eltype e, s, o, els). split; [|done]. apply elem_of_buckets. eauto.
Qed.

Lemma group_buckets_nonempty (p : Part) (g : by_eltype) (b : bucket) :
  wf_set (_elements p) → _group_elements p = Return g →
  b ∈ buckets g → ∃ e, e ∈ iter (bucket_members b).
Proof.
  intros Hwf E. destruct (group_elements_spec p g Hwf E) as (Hg & Hss & Hcov).
  destruct b as [[[t s] o] els]. intros (ss & d & Ht & Hs & Ho)%elem_of_buckets. simpl.
  destruct (group_by_section_spec _ ss (filter_eltype_one_per_identity p t Hwf) (Hss t ss Ht))
    as (_ & Hd & _).
  destruct (Hd s d Hs) as (_ & _ & Hne). by apply (Hne o).
Qed.

(** When [_group_elements] returns, its buckets are a partition of the
    elements of the part by type, section (by identity) and orientation
    key: no two buckets have the same type, section and key; every element
    of the part is in a bucket; and a bucket holds elements of the part of
    its own type, section and key only, and is not empty.  So an element
    is in one bucket and no other. *)
Theorem group_elements_partition (p : Part) (g : by_eltype) :
  wf_set (_elements p) → _group_elements p = Return g →
  NoDup (bucket_key <$> buckets g) ∧
  (∀ e, e ∈ iter (_elements p) → ∃ b, b ∈ buckets g ∧ e ∈ iter (bucket_members b)) ∧
  (∀ b e, b ∈ buckets g → e ∈ iter (bucket_members b) →
     e ∈ iter (_elements p) ∧ orientation_of e = Return (orientation_key e) ∧
     bucket_key b = element_triple e) ∧
  (∀ b, b ∈ buckets g → ∃ e, e ∈ iter (bucket_members b)) ∧
  (∀ b b' e, b ∈ buckets g → b' ∈ buckets g →
     e ∈ iter (bucket_members b) → e ∈ iter (bucket_members b') → b = b').
Proof.
  intros Hwf E.
  pose proof (group_buckets_NoDup p g Hwf E) as Hnd.
  split; [exact Hnd|].
  split; [intros e; by apply group_buckets_cover|].
  split; [intros b e; by apply group_buckets_sound|].
  split; [intros b; by apply (group_buckets_nonempty p g)|].
  intros b b' e Hb Hb' He He'.
  apply (NoDup_fmap_inj_on bucket_key (buckets g)); [done | done | done |].
  destruct (group_buckets_sound p g b e Hwf E Hb He) as (_ & _ & ->).
  by destruct (group_buckets_sound p g b' e Hwf E Hb' He') as (_ & _ & ->).
Qed.

Lemma frame_world_wf : wf_set (_elements (self frame_world)).
Proof. apply (bool_decide_unpack _). vm_compute. exact I. Qed.

Lemma frame_world_groups : _group_elements (self frame_world) = Return frame_groups.
Proof. vm_compute. reflexivity. Qed.

Lemma group_elements_partition_witness :
  wf_set (_elements (self frame_world)) ∧
  _group_elements (self frame_world) = Return frame_groups ∧
  NoDup (bucket_key <$> buckets frame_groups) ∧
  (∀ e, e ∈ iter (_elements (self frame_world)) →
     ∃ b, b ∈ buckets frame_groups ∧ e ∈ iter (bucket_members b)) ∧
  (∀ b e, b ∈ buckets frame_groups → e ∈ iter (bucket_members b) →
     e ∈ iter (_elements (self frame_world)) ∧
     orientation_of e = Return (orientation_key e) ∧
     bucket_key b = element_triple e) ∧
  (∀ b, b ∈ buckets frame_groups → ∃ e, e ∈ iter (bucket_members b)) ∧
  (∀ b b' e, b ∈ buckets frame_groups → b' ∈ buckets frame_groups →
     e ∈ iter (bucket_members b) → e ∈ iter (bucket_members b') → b = b').
Proof.
  split; [exact frame_world_wf|]. split; [exact frame_world_groups|].
  exact (group_elements_partition (self frame_world) frame_groups
           frame_world_wf frame_world_groups).
Defined.

(** ** When the grouping returns *)

Lemma otraverse_returns {A B} (f : A → outcome B) (xs : list A) :
  (∀ x, x ∈ xs → ∃ y, f x = Return y) → ∃ ys, otraverse f xs = Return ys.
Proof.
  induction xs as [|x xs IH]; intros Hf; [by eexists|].
  destruct (Hf x (list_elem_of_here _ _)) as [y Hy].
  destruct IH as [ys Hys]; [intros z Hz; by apply Hf, list_elem_of_further|].
  exists (y :: ys). simpl. by rewrite Hy, Hys.
Qed.

Lemma dict_add_returns k el d :
  k ∈ d.*1 → ∃ d', dict_add k el d = Return d' ∧ d'.*1 = d.*1.
Proof.
  induction d as [|[k' els] d IH]; intros Hk; [by apply elem_of_nil in Hk|].
  simpl. case_bool_decide as Hkk; [by eexists|].
  destruct IH as (d' & E & Hkeys).
  { rewrite fmap_cons in Hk. apply elem_of_cons in Hk as [Hk|Hk]; [by simpl in Hk|done]. }
  exists ((k', els) :: d'). split; [by rewrite E | by rewrite !fmap_cons, Hkeys].
Qed.

Lemma pass_returns o xs d :
  o ∈ d.*1 →
  (∀ el, el ∈ xs → ∃ o', orientation_of el = Return o') →
  (∀ el, el ∈ xs → has_orientation el = false → None ∈ d.*1) →
  ∃ d', ofold (place o) d xs = Return d' ∧ d'.*1 = d.*1.
Proof.
  revert d. induction xs as [|x xs IH]; intros d Ho Hor Hmiss; [by eexists|].
  assert (Hstep : ∃ d1, place o d x = Return d1 ∧ d1.*1 = d.*1).
  { unfold place. destruct (has_orientation x) eqn:Hx.
    - destruct (Hor x (list_elem_of_here _ _)) as [o' ->]. simpl.
      case_bool_decide; [by apply dict_add_returns | by eexists].
    - apply dict_add_returns. by apply (Hmiss x); [apply list_elem_of_here|]. }
  destruct Hstep as (d1 & E1 & Hk1).
  destruct (IH d1) as (d' & E & Hk).
  - by rewrite Hk1.
  - intros el Hel. by apply Hor, list_elem_of_further.
  - intros el Hel Hm. rewrite Hk1. by apply (Hmiss el); [apply list_elem_of_further|].
  - exists d'. simpl. rewrite E1. simpl. split; [done | congruence].
Qed.

Lemma setdefault_key o d : o ∈ (setdefault o d).*1.
Proof.
  unfold setdefault. case_bool_decide; [done|].
  rewrite fmap_app. apply elem_of_app. right. apply list_elem_of_here.
Qed.

Lemma passes_returns sub os d :
  (∀ el, el ∈ sub → ∃ o', orientation_of el = Return o') →
  (∀ el o, el ∈ sub → has_orientation el = false → o ∈ os → o = None) →
  ∃ d', ofold (λ d orientation, ofold (place orientation) (setdefault orientation d) sub) d os
        = Return d'.
Proof.
  intros Hor Hmiss. revert d. induction os as [|o os IH]; intros d; [by eexists|].
  destruct (pass_returns o sub (setdefault o d)) as (d1 & E1 & _).
  - apply setdefault_key.
  - done.
  - intros el Hel Hm. rewrite <- (Hmiss el o Hel Hm (list_elem_of_here _ _)).
    apply setdefault_key.
  - destruct (IH (λ el o' Hel Hm Ho', Hmiss el o' Hel Hm (list_elem_of_further _ _ _ Ho')) d1)
      as [d' E].
    exists d'. simpl. by rewrite E1.
Qed.

Lemma orientation_of_returns el :
  _orientation el ≠ Attr None → ∃ o, orientation_of el = Return o.
Proof. unfold orientation_of. destruct (_orientation el) as [|[v|]]; eauto. done. Qed.

(** [_group_elements] returns when no element has an [_orientation] that
    is [None] and the elements of one type and section either all have
    the attribute or all lack it. *)
Theorem group_elements_returns (p : Part) :
  (∀ e, e ∈ iter (_elements p) → _orientation e ≠ Attr None) →
  (∀ e e', e ∈ iter (_elements p) → e' ∈ iter (_elements p) →
     _eltype e = _eltype e' → section_id (section e) = section_id (section e') →
     has_orientation e = has_orientation e') →
  ∃ g, _group_elements p = Return g.
Proof.
  intros Hnone Huni. unfold _group_elements. apply otraverse_returns.
  intros eltype _. set (els := filter _ (iter (_elements p))).
  assert (Hss : ∃ ss, group_by_section els = Return ss);
    [|destruct Hss as [ss ->]; by eexists].
  unfold group_by_section. apply otraverse_returns. intros sec _.
  set (sub := filter _ els).
  assert (Hd : ∃ d, group_by_orientation sub = Return d);
    [|destruct Hd as [d ->]; by eexists].
  assert (Hsub : ∀ el, el ∈ sub →
            el ∈ iter (_elements p) ∧ _eltype el = eltype ∧
            section_id (section el) = section_id sec).
  { intros el [Hs [Ht Hel]%list_elem_of_filter]%list_elem_of_filter. done. }
  assert (Hor : ∀ el, el ∈ sub → ∃ o', orientation_of el = Return o')
    by (intros el Hel; apply orientation_of_returns, Hnone; by apply Hsub).
  unfold group_by_orientation.
  destruct (otraverse_returns orientation_of sub Hor) as [os Eos]. rewrite Eos. simpl.
  apply passes_returns; [done|].
  intros el o Hel Hm Ho. apply elem_of_elements, elem_of_list_to_set in Ho.
  apply otraverse_Forall2 in Eos. apply list_elem_of_lookup in Ho as [i Hi].
  destruct (Forall2_lookup_r _ _ _ _ _ Eos Hi) as (x & Hx & Ex).
  apply list_elem_of_lookup_2 in Hx.
  destruct (Hsub el Hel) as (H1 & H2 & H3). destruct (Hsub x Hx) as (H4 & H5 & H6).
  assert (Hmx : has_orientation x = false).
  { rewrite <- Hm. apply Huni; congruence. }
  rewrite (orientation_of_missing x Hmx) in Ex. congruence.
Qed.

Lemma group_elements_returns_witness :
  (∀ e, e ∈ iter (_elements (self frame_world)) → _orientation e ≠ Attr None) ∧
  (∀ e e', e ∈ iter (_elements (self frame_world)) → e' ∈ iter (_elements (self frame_world)) →
     _eltype e = _eltype e' → section_id (section e) = section_id (section e') →
     has_orientation e = has_orientation e') ∧
  ∃ g, _group_elements (self frame_world) = Return g.
Proof.
  assert (H1 : Forall (λ e, _orientation e ≠ Attr None) (iter (_elements (self frame_world))))
    by (apply (bool_decide_unpack _); vm_compute; exact I).
  assert (H2 : Forall (λ e, Forall (λ e',
     _eltype e = _eltype e' → section_id (section e) = section_id (section e') →
     has_orientation e = has_orientation e') (iter (_elements (self frame_world))))
       (iter (_elements (self frame_world))))
    by (apply (bool_decide_unpack _); vm_compute; exact I).
  rewrite Forall_forall in H1.
  assert (H2' : ∀ e e', e ∈ iter (_elements (self frame_world)) →
     e' ∈ iter (_elements (self frame_world)) →
     _eltype e = _eltype e' → section_id (section e) = section_id (section e') →
     has_orientation e = has_orientation e').
  { intros e e' He He'. rewrite Forall_forall in H2. specialize (H2 e He).
    rewrite Forall_forall in H2. by apply H2. }
  split; [exact H1|]. split; [exact H2'|].
  exact (group_elements_returns (self frame_world) H1 H2').
Defined.

(** ** One element block for each type, section and orientation *)

Lemma filter_header_nil (l : list fragment) :
  Forall (λ f, is_element_header f = false) l →
  filter (λ f, is_element_header f = true) l = [].
Proof.
  induction 1 as [|f l Hf _ IH]; [done|]. rewrite filter_cons_False; [done|]. congruence.
Qed.

Lemma blocks_headers (bs : list bucket) (fss : list (list fragment)) :
  Forall2 bucket_writes bs fss →
  length (filter (λ f, is_element_header f = true) (concat fss)) = length bs.
Proof.
  induction 1 as [|[[[t s] o] els] fs bs fss Hb _ IH]; [done|].
  simpl. rewrite filter_app, length_app, IH.
  by rewrite (bucket_block_one_header t s o els fs Hb).
Qed.

Lemma bucket_triples (p : Part) (g : by_eltype) :
  wf_set (_elements p) → _group_elements p = Return g →
  (list_to_set (bucket_key <$> buckets g) : gset (string * positive * option string))
    = list_to_set (element_triple <$> iter (_elements p)).
Proof.
  intros Hwf E.
  apply set_eq. intros k. rewrite !elem_of_list_to_set, !list_elem_of_fmap. split.
  - intros (b & -> & Hb). destruct (group_buckets_nonempty p g b Hwf E Hb) as [e He].
    destruct (group_buckets_sound p g b e Hwf E Hb He) as (Hin & _ & Hk). eauto.
  - intros (e & -> & He). destruct (group_buckets_cover p g e Hwf E He) as (b & Hb & Heb).
    destruct (group_buckets_sound p g b e Hwf E Hb Heb) as (_ & _ & Hk). eauto.
Qed.

(** When the entries of [part_data] are made, there are as many element
    headers ([*Element, type=...]) among them as there are different
    triples of type, section and orientation key among the elements of the
    part. *)
Theorem element_headers_count
    (node_generate_jobdata : Heap → Node → outcome string)
    (group_generate_jobdata : Heap → Group → outcome string)
    (section_generate_jobdata : Heap → Section → string → option (list string) → outcome string)
    (release_generate_jobdata : Heap → Release → outcome string)
    (cfg : Config) (w w' : World) (data : list fragment) :
  wf_set (_elements (self w)) →
  part_data node_generate_jobdata group_generate_jobdata section_generate_jobdata
    release_generate_jobdata cfg w = (Return data, w') →
  length (filter (λ f, is_element_header f = true) data)
    = size (list_to_set (element_triple <$> iter (_elements (self w)))
              : gset (string * positive * option string)).
Proof.
  intros Hwf E.
  destruct (part_data_spec node_generate_jobdata group_generate_jobdata
              section_generate_jobdata release_generate_jobdata cfg w Hwf) as [_ Hd].
  destruct (Hd data w' E) as (texts & g & fss & rest & Hl & Eg & Hfss & Hrest & ->).
  rewrite <- (bucket_triples _ g Hwf Eg).
  rewrite size_list_to_set by (by apply (group_buckets_NoDup (self w))). rewrite length_fmap.
  rewrite filter_cons_False by done.
  rewrite !filter_app, !length_app.
  rewrite (blocks_headers _ _ Hfss).
  rewrite !filter_header_nil; [simpl; lia | |].
  - eapply Forall_impl; [exact Hrest|]. by intros f [_ ?].
  - apply Forall_forall. intros f Hf.
    apply elem_of_lookup_zip_with in Hf as (i & x & t & -> & _). done.
Qed.

Lemma frame_world_data :
  part_data node_line group_line section_line release_line quiet frame_world
    = (Return frame_data, frame_written).
Proof. vm_compute. reflexivity. Qed.

Lemma element_headers_count_witness :
  wf_set (_elements (self frame_world)) ∧
  part_data node_line group_line section_line release_line quiet frame_world
    = (Return frame_data, frame_written) ∧
  length (filter (λ f, is_element_header f = true) frame_data)
    = size (list_to_set (element_triple <$> iter (_elements (self frame_world)))
              : gset (string * positive * option string)).
Proof.
  split; [exact frame_world_wf|]. split; [exact frame_world_data|].
  exact (element_headers_count node_line group_line section_line release_line quiet
           frame_world frame_written frame_data frame_world_wf frame_world_data).
Defined.

(** ** An [_orientation] that is [None] *)

(** A part with an element whose [_orientation] is there and is [None],
    as the truss elements have it, is not written: [_group_elements]
    raises, [_generate_jobdata] raises with it, whatever the renderers
    answer, and the part is left as it was. *)
Theorem none_orientation_not_written
    (node_generate_jobdata : Heap → Node → outcome string)
    (group_generate_jobdata : Heap → Group → outcome string)
    (section_generate_jobdata : Heap → Section → string → option (list string) → outcome string)
    (release_generate_jobdata : Heap → Release → outcome string)
    (cfg : Config) (w : World) (e : Element) :
  e ∈ iter (_elements (self w)) → _orientation e = Attr None →
  (∃ ex, _group_elements (self w) = Raise ex) ∧
  ∃ ex, _generate_jobdata node_generate_jobdata group_generate_jobdata
          section_generate_jobdata release_generate_jobdata cfg w = (Raise ex, w).
Proof.
  intros He Ho.
  destruct (group_elements_none_orientation_raises (self w) e He Ho) as [ex Eg].
  split; [eauto|].
  assert (Hp : ∃ ex, part_data node_generate_jobdata group_generate_jobdata
                       section_generate_jobdata release_generate_jobdata cfg w
                     = (Raise ex, w)).
  { pose proof (render_all (λ w n, node_generate_jobdata (heap w) n) NodeLine
                  (iter (_nodes (self w))) w) as R.
    cbv beta in R.
    destruct (traverse _ (iter (_nodes (self w))) w) as [[node_lines|e'] w1] eqn:E1;
      simpl in R; destruct R as [-> _].
    - exists ex. unfold part_data.
      rewrite (bind_Return _ _ _ _ _ (eq_refl : get w = (Return w, w))).
      rewrite (bind_Return _ _ _ _ _ E1).
      rewrite (bind_Raise _ _ w ex w); [done|]. unfold lift. by rewrite Eg.
    - exists e'. unfold part_data.
      rewrite (bind_Return _ _ _ _ _ (eq_refl : get w = (Return w, w))).
      by rewrite (bind_Raise _ _ _ _ _ E1). }
  destruct Hp as [ex' Ep]. exists ex'. unfold _generate_jobdata.
  by rewrite (bind_Raise _ _ _ _ _ Ep).
Qed.

Lemma none_orientation_not_written_witness :
  truss ∈ iter (_elements (self truss_world)) ∧ _orientation truss = Attr None ∧
  (∃ ex, _group_elements (self truss_world) = Raise ex) ∧
  ∃ ex, _generate_jobdata node_line group_line section_line release_line quiet truss_world
          = (Raise ex, truss_world).
Proof.
  assert (H : truss ∈ iter (_elements (self truss_world)))
    by (apply (bool_decide_unpack _); vm_compute; exact I).
  split; [exact H|]. split; [reflexivity|].
  exact (none_orientation_not_written node_line group_line section_line release_line quiet
           truss_world truss H eq_refl).
Defined.

(** ** [add_node] and [remove_node] *)

(** [add_node], case by case. *)
Lemma add_node_eq (cfg : Config) (node : Node) (w : World) :
  add_node cfg node w =
    if VERBOSE cfg then (Return node, w)
    else match existing_node cfg (self w) node with
         | first :: _ => (Return first, w)
         | [] => (Return node, with_node node w)
         end.
Proof.
  unfold add_node, existing_node. destruct (VERBOSE cfg); [done|]. run.
  destruct (if negb (POINT_OVERLAP cfg) then _ else _); [|done].
  unfold with_node, with_heap, with_self. destruct w as [h p]. simpl.
  by destruct (model p) eqn:Em; simpl; rewrite ?Em.
Qed.




(** [remove_node], case by case. *)
Lemma remove_node_eq (node : Node) (w : World) :
  remove_node node w =
    if contains_node (self w) node then
      match _gkey_node (self w) !! gkey node with
      | None =>
          (Raise KeyError,
           with_self (λ p, set_nodes (remove node (_nodes p)) (_gkey_node p) p) w)
      | Some _ =>
          (Return tt,
           {| heap := set_registration (node_id node) None (heap w);
              self := set_nodes (remove node (_nodes (self w)))
                        (delete (gkey node) (_gkey_node (self w))) (self w) |})
      end
    else (Return tt, w).
Proof.
  unfold remove_node. run. destruct (contains_node (self w) node); [|done].
  simpl. by destruct (_gkey_node (self w) !! gkey node).
Qed.

Lemma set_part_key_id (p : Part) : set_part_key (_key p) p = p.
Proof. by destruct p. Qed.

(** Removing a node that was just added, and was new to the part, to its
    index of geometric keys and to the registrations, gives the part
    back: all is as before, but for the [_key] of the part, which
    [add_node] sets when the part is in a model. *)
Theorem add_then_remove_node (cfg : Config) (node : Node) (w : World) :
  _nodes (self w) !! node_id node = None →
  _gkey_node (self w) !! gkey node = None →
  h_registration (heap w) !! node_id node = None →
  (add_node cfg node w).1 = Return node →
  ∃ w', (add_node cfg node ;;; remove_node node) w = (Return tt, w') ∧
        heap w' = heap w ∧ self w' = set_part_key (_key (self w')) (self w).
Proof.
  intros Hn Hg Hr Hret.
  assert (Hc : contains_node (self w) node = false).
  { unfold contains_node, contains. apply bool_decide_eq_false_2.
    unfold id_of, Node_identified. rewrite Hn. by intros [? ?]. }
  assert (Hsame : remove_node node w = (Return tt, w)) by (by rewrite remove_node_eq, Hc).
  assert (Hw : ∃ w', (Return tt, w) = (Return tt, w') ∧ heap w' = heap w ∧
                self w' = set_part_key (_key (self w')) (self w)).
  { exists w. by rewrite set_part_key_id. }
  rewrite add_node_eq in Hret. unfold bind. rewrite add_node_eq.
  destruct (VERBOSE cfg); [by rewrite Hsame|].
  destruct (existing_node cfg (self w) node) as [|first rest]; [|by rewrite Hsame].
  rewrite remove_node_eq.
  assert (Hc1 : contains_node (self (with_node node w)) node = true).
  { unfold contains_node. simpl. apply contains_add. }
  rewrite Hc1. simpl. rewrite lookup_insert_eq.
  eexists. split; [done|]. simpl. split.
  - destruct w as [[hk hr hc hg] p]. unfold set_registration. simpl in *.
    by rewrite delete_insert_id.
  - unfold remove, add, id_of, Node_identified.
    rewrite !delete_insert_id by done.
    destruct w as [h [? ? [m|] ? ? ? ? ? ? ? ? ? ?]]; done.
Qed.

Lemma add_then_remove_node_witness :
  _nodes (self empty_world) !! node_id node_a = None ∧
  _gkey_node (self empty_world) !! gkey node_a = None ∧
  h_registration (heap empty_world) !! node_id node_a = None ∧
  (add_node quiet node_a empty_world).1 = Return node_a ∧
  ∃ w', (add_node quiet node_a ;;; remove_node node_a) empty_world = (Return tt, w') ∧
        heap w' = heap empty_world ∧
        self w' = set_part_key (_key (self w')) (self empty_world).
Proof.
  split; [reflexivity|]. split; [reflexivity|]. split; [reflexivity|].
  split; [reflexivity|].
  exact (add_then_remove_node quiet node_a empty_world eq_refl eq_refl eq_refl eq_refl).
Defined.

Lemma with_node_nodes n w : _nodes (self (with_node n w)) = add n (_nodes (self w)).
Proof. unfold with_node. simpl. by destruct (model (self w)). Qed.

Lemma with_node_gkey_node n w :
  _gkey_node (self (with_node n w)) = <[gkey n := n]> (_gkey_node (self w)).
Proof. unfold with_node. simpl. by destruct (model (self w)). Qed.

Lemma with_node_registration n w :
  h_registration (heap (with_node n w))
    = <[node_id n := part_id (self w)]> (h_registration (heap w)).
Proof. done. Qed.

Lemma with_node_part_id n w : part_id (self (with_node n w)) = part_id (self w).
Proof. unfold with_node. simpl. by destruct (model (self w)). Qed.

(** Two nodes at one place, which [POINT_OVERLAP] lets in, share one
    entry of the index of geometric keys.  Removing the first takes the
    entry away; removing the second then raises [KeyError], after the node
    has left the set of nodes and before its registration is reset. *)
Theorem remove_coincident_nodes (cfg : Config) (a b : Node) (w : World) :
  VERBOSE cfg = false → POINT_OVERLAP cfg = true →
  node_id a ≠ node_id b → gkey a = gkey b →
  ∃ w', (add_node cfg a ;;; add_node cfg b ;;; remove_node a ;;; remove_node b) w
          = (Raise KeyError, w') ∧
        contains_node (self w') a = false ∧
        contains_node (self w') b = false ∧
        _gkey_node (self w') !! gkey b = None ∧
        h_registration (heap w') !! node_id a = None ∧
        h_registration (heap w') !! node_id b = Some (part_id (self w)).
Proof.
  intros Hv Ho Hid Hg.
  assert (Hadd : ∀ n w0, add_node cfg n w0 = (Return n, with_node n w0)).
  { intros n w0. rewrite add_node_eq, Hv. unfold existing_node. by rewrite Ho. }
  pose proof (Hadd a w) as Ha.
  pose proof (Hadd b (with_node a w)) as Hb.
  remember (with_node b (with_node a w)) as w2 eqn:Ew2.
  assert (Hn2 : _nodes (self w2) = add b (add a (_nodes (self w))))
    by (by rewrite Ew2, !with_node_nodes).
  assert (Hg2 : _gkey_node (self w2) = <[gkey b := b]> (<[gkey a := a]> (_gkey_node (self w))))
    by (by rewrite Ew2, !with_node_gkey_node).
  assert (Hr2 : h_registration (heap w2)
                = <[node_id b := part_id (self w)]>
                    (<[node_id a := part_id (self w)]> (h_registration (heap w)))).
  { by rewrite Ew2, !with_node_registration, with_node_part_id. }
  clear Ew2.
  assert (Hra : ∃ w3, remove_node a w2 = (Return tt, w3) ∧
            _nodes (self w3) = remove a (_nodes (self w2)) ∧
            _gkey_node (self w3) = delete (gkey a) (_gkey_node (self w2)) ∧
            h_registration (heap w3) = delete (node_id a) (h_registration (heap w2))).
  { rewrite remove_node_eq.
    assert (Hc : contains_node (self w2) a = true).
    { unfold contains_node. rewrite Hn2. apply contains_add_mono, contains_add. }
    rewrite Hc, Hg2, Hg, lookup_insert_eq. eauto. }
  destruct Hra as (w3 & Hr & Hn3 & Hg3 & Hr3).
  exists (with_self (λ p, set_nodes (remove b (_nodes p)) (_gkey_node p) p) w3).
  split.
  - rewrite (bind_Return _ _ _ _ _ Ha), (bind_Return _ _ _ _ _ Hb),
      (bind_Return _ _ _ _ _ Hr).
    rewrite remove_node_eq.
    assert (Hc : contains_node (self w3) b = true).
    { unfold contains_node, contains. apply bool_decide_eq_true_2.
      rewrite Hn3, Hn2. unfold remove, add, id_of, Node_identified.
      rewrite lookup_delete_ne by done. rewrite lookup_insert_eq. eauto. }
    rewrite Hc, Hg3, Hg2, <- Hg, lookup_delete_eq. done.
  - simpl. unfold contains_node, contains, remove, add, id_of, Node_identified. simpl.
    rewrite Hn3, Hn2, Hg3, Hr3, Hr2. unfold remove, add, id_of, Node_identified.
    split; [|split; [|split; [|split]]].
    + apply bool_decide_eq_false_2. rewrite lookup_delete_ne by done.
      rewrite lookup_delete_eq. by intros [? ?].
    + apply bool_decide_eq_false_2. rewrite lookup_delete_eq. by intros [? ?].
    + by rewrite <- Hg, lookup_delete_eq.
    + by rewrite lookup_delete_eq.
    + rewrite lookup_delete_ne by done. by rewrite lookup_insert_eq.
Qed.

Lemma remove_coincident_nodes_witness :
  VERBOSE overlapping = false ∧ POINT_OVERLAP overlapping = true ∧
  node_id node_a ≠ node_id node_a' ∧ gkey node_a = gkey node_a' ∧
  ∃ w', (add_node overlapping node_a ;;; add_node overlapping node_a' ;;;
         remove_node node_a ;;; remove_node node_a') empty_world
          = (Raise KeyError, w') ∧
        contains_node (self w') node_a = false ∧
        contains_node (self w') node_a' = false ∧
        _gkey_node (self w') !! gkey node_a' = None ∧
        h_registration (heap w') !! node_id node_a = None ∧
        h_registration (heap w') !! node_id node_a' = Some (part_id (self empty_world)).
Proof.
  assert (Hid : node_id node_a ≠ node_id node_a') by (by vm_compute).
  split; [reflexivity|]. split; [reflexivity|]. split; [exact Hid|]. split; [reflexivity|].
  exact (remove_coincident_nodes overlapping node_a node_a' empty_world
           eq_refl eq_refl Hid eq_refl).
Defined.

(** ** [add_element] and [remove_element] *)

(** [add_element], past the check, for a section whose material is a
    material object. *)
Lemma add_element_eq (cfg : Config) (e : Element) (checks : bool) (w : World)
    (mat : Material) :
  checks && contains_element (self w) e = false →
  material (section e) = MaterialObj mat →
  add_element cfg e checks w
    = (Return e, with_element e mat (add_nodes cfg (nodes e) w).2).
Proof.
  intros Hc Hm.
  destruct (add_nodes_returns cfg (nodes e) w) as (rs & w1 & E1). rewrite E1. simpl.
  unfold add_element.
  rewrite (bind_Return _ _ _ _ _ (eq_refl : get w = (Return w, w))). rewrite Hc.
  rewrite (bind_Return _ _ _ _ _ E1).
  rewrite (bind_Return _ _ _ _ _ (for_each_connect e (nodes e) w1)).
  unfold add_section. rewrite Hm. by destruct w1.
Qed.

Lemma add_nodes_verbose (cfg : Config) (ns : list Node) (w : World) :
  VERBOSE cfg = true → add_nodes cfg ns w = (Return ns, w).
Proof.
  intros Hv. unfold add_nodes. rewrite <- (list_fmap_id ns) at 2.
  apply traverse_pure. intros n _. by apply add_node_verbose.
Qed.

(** With [VERBOSE] on, [add_element] registers the element, its section
    and the material, and writes the element into the connected elements
    of its nodes, but adds none of its nodes to the part. *)
Theorem add_element_verbose (cfg : Config) (e : Element) (checks : bool) (w : World)
    (mat : Material) :
  VERBOSE cfg = true →
  checks && contains_element (self w) e = false →
  material (section e) = MaterialObj mat →
  ∃ w', add_element cfg e checks w = (Return e, w') ∧
        contains_element (self w') e = true ∧
        _nodes (self w') = _nodes (self w) ∧
        _gkey_node (self w') = _gkey_node (self w) ∧
        (∀ n, n ∈ nodes e → contains (connected_elements (heap w') n) e = true) ∧
        (∀ n, n ∈ nodes e → contains_node (self w) n = false →
              contains_node (self w') n = false).
Proof.
  intros Hv Hc Hm. rewrite (add_element_eq cfg e checks w mat Hc Hm).
  rewrite (add_nodes_verbose cfg (nodes e) w Hv). simpl.
  eexists. split; [done|]. simpl. split; [apply contains_add|].
  split; [done|]. split; [done|]. split; [|done].
  intros n Hn. unfold connected_elements. simpl. by apply connect_all.
Qed.

Lemma add_element_verbose_witness :
  VERBOSE verbose = true ∧
  true && contains_element (self empty_world) shell_a = false ∧
  material (section shell_a) = MaterialObj steel ∧
  ∃ w', add_element verbose shell_a true empty_world = (Return shell_a, w') ∧
        contains_element (self w') shell_a = true ∧
        _nodes (self w') = _nodes (self empty_world) ∧
        _gkey_node (self w') = _gkey_node (self empty_world) ∧
        (∀ n, n ∈ nodes shell_a → contains (connected_elements (heap w') n) shell_a = true) ∧
        (∀ n, n ∈ nodes shell_a → contains_node (self empty_world) n = false →
              contains_node (self w') n = false).
Proof.
  split; [reflexivity|]. split; [reflexivity|]. split; [reflexivity|].
  exact (add_element_verbose verbose shell_a true empty_world steel eq_refl eq_refl eq_refl).
Defined.

(** Adding an element a second time, with the checks on, changes nothing. *)
Theorem add_element_idempotent (cfg : Config) (e r : Element) (w : World) :
  (add_element cfg e true w).1 = Return r →
  add_element cfg e true (add_element cfg e true w).2
    = (Return e, (add_element cfg e true w).2).
Proof.
  intros Hr. apply add_element_contained.
  destruct (contains_element (self w) e) eqn:Hc.
  { by rewrite (add_element_contained cfg e w Hc). }
  destruct (material (section e)) as [mat| |] eqn:Hm.
  - rewrite (add_element_eq cfg e true w mat); [|by rewrite Hc|done].
    unfold contains_element. simpl. apply contains_add.
  - exfalso. revert Hr. unfold add_element.
    rewrite (bind_Return _ _ _ _ _ (eq_refl : get w = (Return w, w))). rewrite Hc. simpl.
    destruct (add_nodes_returns cfg (nodes e) w) as (rs & w1 & E1).
    rewrite (bind_Return _ _ _ _ _ E1).
    rewrite (bind_Return _ _ _ _ _ (for_each_connect e (nodes e) w1)).
    unfold add_section. rewrite Hm. done.
  - exfalso. revert Hr. unfold add_element.
    rewrite (bind_Return _ _ _ _ _ (eq_refl : get w = (Return w, w))). rewrite Hc. simpl.
    destruct (add_nodes_returns cfg (nodes e) w) as (rs & w1 & E1).
    rewrite (bind_Return _ _ _ _ _ E1).
    rewrite (bind_Return _ _ _ _ _ (for_each_connect e (nodes e) w1)).
    unfold add_section. rewrite Hm. done.
Qed.

Lemma add_element_idempotent_witness :
  (add_element quiet shell_a true empty_world).1 = Return shell_a ∧
  add_element quiet shell_a true (add_element quiet shell_a true empty_world).2
    = (Return shell_a, (add_element quiet shell_a true empty_world).2).
Proof.
  assert (H : (add_element quiet shell_a true empty_world).1 = Return shell_a)
    by (vm_compute; reflexivity).
  split; [exact H|].
  exact (add_element_idempotent quiet shell_a shell_a empty_world H).
Defined.

(** [node.connected_elements.remove(element)], case by case. *)
Lemma connected_elements_remove_eq (n : Node) (e : Element) (w : World) :
  connected_elements_remove n e w =
    if contains (connected_elements (heap w) n) e then
      (Return tt,
       {| heap := {| h_key := h_key (heap w);
                     h_registration := h_registration (heap w);
                     h_connected := <[node_id n := remove e (connected_elements (heap w) n)]>
                                      (h_connected (heap w));
                     h_group_registration := h_group_registration (heap w) |};
          self := self w |})
    else (Raise KeyError, w).
Proof.
  unfold connected_elements_remove. run.
  by destruct (contains (connected_elements (heap w) n) e).
Qed.

Lemma contains_remove {A} `{Identified A} (x : A) (s : pyset A) : contains (remove x s) x = false.
Proof.
  unfold contains, remove. apply bool_decide_eq_false_2. rewrite lookup_delete_eq.
  by intros [? ?].
Qed.

Lemma traverse_cons {S A B} (f : A → M S B) (x : A) (xs : list A) (s : S) :
  traverse f (x :: xs) s =
    match f x s with
    | (Return y, s1) =>
        match traverse f xs s1 with
        | (Return ys, s2) => (Return (y :: ys), s2)
        | (Raise e, s2) => (Raise e, s2)
        end
    | (Raise e, s1) => (Raise e, s1)
    end.
Proof.
  simpl. unfold bind, ret. destruct (f x s) as [[y|e] s1]; [|done].
  by destruct (traverse f xs s1) as [[ys|e] s2].
Qed.

Lemma disconnect_other (e : Element) (ns : list Node) (w : World) l w2 (m : Node) :
  traverse (λ node, connected_elements_remove node e) ns w = (Return l, w2) →
  (∀ x, x ∈ ns → node_id x ≠ node_id m) →
  contains (connected_elements (heap w2) m) e = contains (connected_elements (heap w) m) e.
Proof.
  revert w l w2. induction ns as [|x ns IH]; intros w l w2 E Hx.
  { simpl in E. by injection E as <- <-. }
  rewrite traverse_cons, connected_elements_remove_eq in E.
  destruct (contains (connected_elements (heap w) x) e); [|done].
  destruct (traverse _ ns _) as [[l'|ex] w'] eqn:E'; [|done].
  injection E as <- <-.
  rewrite (IH _ _ _ E'); [|intros y Hy; by apply Hx, list_elem_of_further].
  unfold connected_elements. simpl.
  rewrite lookup_insert_ne; [done|]. apply Hx, list_elem_of_here.
Qed.

(** Taking an element out of the connected elements of the nodes of a
    list, one after the other. *)
Lemma disconnect_spec (e : Element) (ns : list Node) (w : World) :
  let r := traverse (λ node, connected_elements_remove node e) ns w in
  self r.2 = self w ∧
  h_key (heap r.2) = h_key (heap w) ∧
  h_registration (heap r.2) = h_registration (heap w) ∧
  h_group_registration (heap r.2) = h_group_registration (heap w) ∧
  ((∃ l, r.1 = Return l) ∨ r.1 = Raise KeyError) ∧
  ((∃ l, r.1 = Return l) ↔
     NoDup (node_id <$> ns) ∧
     ∀ n, n ∈ ns → contains (connected_elements (heap w) n) e = true) ∧
  ((∃ l, r.1 = Return l) →
     ∀ n, n ∈ ns → contains (connected_elements (heap r.2) n) e = false).
Proof.
  revert w. induction ns as [|n ns IH]; intros w; cbv zeta.
  { simpl. split; [done|]. split; [done|]. split; [done|]. split; [done|].
    split; [left; by eexists|]. split.
    - split; [intros _; split; [constructor | intros ? []%elem_of_nil] | by eexists].
    - intros _ ? []%elem_of_nil. }
  rewrite traverse_cons, connected_elements_remove_eq.
  destruct (contains (connected_elements (heap w) n) e) eqn:Hc.
  2:{ simpl. split; [done|]. split; [done|]. split; [done|]. split; [done|].
      split; [by right|]. split.
      - split; [by intros [? ?]|]. intros [_ Hall].
        rewrite (Hall n (list_elem_of_here _ _)) in Hc. done.
      - by intros [? ?]. }
  set (w1 := {| heap := _; self := self w |}).
  assert (Hconn : ∀ m, contains (connected_elements (heap w1) m) e
                       = if decide (node_id n = node_id m) then false
                         else contains (connected_elements (heap w) m) e).
  { intros m. unfold connected_elements at 1. subst w1. simpl.
    destruct (decide (node_id n = node_id m)) as [Heq|Hne].
    - rewrite <- Heq, lookup_insert_eq. simpl. apply contains_remove.
    - by rewrite lookup_insert_ne. }
  destruct (IH w1) as (Hs & Hk & Hr & Hg & Hcases & Hiff & Hafter).
  destruct (traverse _ ns w1) as [[l|ex] w2] eqn:E; simpl in *.
  - split; [done|]. split; [done|]. split; [done|]. split; [done|].
    split; [left; by eexists|].
    destruct Hiff as [Hiff _]. destruct (Hiff (ex_intro _ l eq_refl)) as [Hnd Hall].
    assert (Hne : ∀ m, m ∈ ns → node_id n ≠ node_id m).
    { intros m Hm Heq. specialize (Hall m Hm). rewrite Hconn in Hall.
      by rewrite decide_True in Hall. }
    split; [split; [intros _|by eexists]|].
    + split.
      * apply NoDup_cons. split; [|done].
        intros (m & Heq & Hm)%list_elem_of_fmap. by apply (Hne m).
      * intros m [->|Hm]%elem_of_cons; [done|].
        specialize (Hall m Hm). rewrite Hconn in Hall.
        by rewrite decide_False in Hall by (by apply Hne).
    + intros _ m [->|Hm]%elem_of_cons; [|by apply Hafter; [eexists|]].
      rewrite (disconnect_other e ns w1 l w2 n E); [|intros x Hx Heq; by apply (Hne x)].
      rewrite Hconn. by rewrite decide_True.
  - split; [done|]. split; [done|]. split; [done|]. split; [done|].
    destruct Hcases as [[? ?]|Hcases]; [done|]. split; [right; congruence|].
    split; [|by intros [? ?]].
    split; [by intros [? ?]|]. intros [Hnd Hall]. exfalso.
    apply NoDup_cons in Hnd as [Hfresh Hnd].
    destruct Hiff as [_ Hiff]. destruct Hiff as [? ?]; [|done].
    split; [done|]. intros m Hm. rewrite Hconn.
    rewrite decide_False; [by apply Hall, list_elem_of_further|].
    intros Heq. apply Hfresh. rewrite Heq. apply list_elem_of_fmap. eauto.
Qed.


(** [remove_element], of an element of the part: the element leaves the
    set of elements and its registration is reset, and the nodes, sections
    and materials of the part stay.  The call returns exactly when the
    nodes of the element are different objects that all have the element
    among their connected elements (it then is taken from these), and else
    raises [KeyError], the element being removed all the same. *)
Theorem remove_element_spec (e : Element) (w : World) :
  contains_element (self w) e = true →
  contains_element (self (remove_element e w).2) e = false ∧
  h_registration (heap (remove_element e w).2) !! element_id e = None ∧
  _nodes (self (remove_element e w).2) = _nodes (self w) ∧
  _sections (self (remove_element e w).2) = _sections (self w) ∧
  _materials (self (remove_element e w).2) = _materials (self w) ∧
  ((remove_element e w).1 = Return tt ∨ (remove_element e w).1 = Raise KeyError) ∧
  ((remove_element e w).1 = Return tt ↔
     NoDup (node_id <$> nodes e) ∧
     ∀ n, n ∈ nodes e → contains (connected_elements (heap w) n) e = true) ∧
  ((remove_element e w).1 = Return tt →
     ∀ n, n ∈ nodes e → contains (connected_elements (heap (remove_element e w).2) n) e = false).
Proof.
  intros Hc. unfold remove_element.
  rewrite (bind_Return _ _ _ _ _ (eq_refl : get w = (Return w, w))). rewrite Hc.
  unfold for_each. run.
  set (w1 := with_heap _ (with_self _ w)).
  destruct (disconnect_spec e (nodes e) w1) as (Hs & Hk & Hr & Hg & Hcases & Hiff & Hafter).
  destruct (traverse _ (nodes e) w1) as [[l|ex] w2] eqn:E; simpl in *.
  - rewrite Hs, Hr. split; [apply contains_remove|]. split; [apply lookup_delete_eq|].
    split; [done|]. split; [done|]. split; [done|]. split; [by left|].
    split; [split; [intros _; by apply Hiff; eexists | done]|].
    intros _. apply Hafter. by eexists.
  - rewrite Hs, Hr. split; [apply contains_remove|]. split; [apply lookup_delete_eq|].
    split; [done|]. split; [done|]. split; [done|].
    destruct Hcases as [[? ?]|Hcases]; [done|]. split; [right; congruence|].
    split; [|done]. split; [done|]. intros H. apply Hiff in H as [? ?]. done.
Qed.

Lemma remove_element_spec_witness :
  contains_element (self shell_world) shell_a = true ∧
  contains_element (self (remove_element shell_a shell_world).2) shell_a = false ∧
  h_registration (heap (remove_element shell_a shell_world).2) !! element_id shell_a = None ∧
  _nodes (self (remove_element shell_a shell_world).2) = _nodes (self shell_world) ∧
  _sections (self (remove_element shell_a shell_world).2) = _sections (self shell_world) ∧
  _materials (self (remove_element shell_a shell_world).2) = _materials (self shell_world) ∧
  ((remove_element shell_a shell_world).1 = Return tt ∨
   (remove_element shell_a shell_world).1 = Raise KeyError) ∧
  ((remove_element shell_a shell_world).1 = Return tt ↔
     NoDup (node_id <$> nodes shell_a) ∧
     ∀ n, n ∈ nodes shell_a →
          contains (connected_elements (heap shell_world) n) shell_a = true) ∧
  ((remove_element shell_a shell_world).1 = Return tt →
     ∀ n, n ∈ nodes shell_a →
          contains (connected_elements (heap (remove_element shell_a shell_world).2) n) shell_a
            = false).
Proof.
  assert (H : contains_element (self shell_world) shell_a = true) by (vm_compute; reflexivity).
  split; [exact H|]. exact (remove_element_spec shell_a shell_world H).
Defined.



(** ** [assign_keys] *)

Lemma enumerate_keys_spec (ids : list positive) (c : Z) (h : Heap) :
  NoDup ids →
  (∀ i x, ids !! i = Some x → h_key (enumerate_keys ids c h) !! x = Some (c + Z.of_nat i)%Z) ∧
  (∀ x, x ∉ ids → h_key (enumerate_keys ids c h) !! x = h_key h !! x) ∧
  h_registration (enumerate_keys ids c h) = h_registration h ∧
  h_connected (enumerate_keys ids c h) = h_connected h ∧
  h_group_registration (enumerate_keys ids c h) = h_group_registration h.
Proof.
  revert c h. induction ids as [|x ids IH]; intros c h Hnd; simpl.
  { split; [intros i x Hi; by rewrite lookup_nil in Hi|done]. }
  apply NoDup_cons in Hnd as [Hx Hnd].
  destruct (IH (c + 1)%Z (set_key x (Some c) h) Hnd) as (H1 & H2 & H3 & H4 & H5).
  split; [|split; [|done]].
  - intros [|i] y Hy; simpl in Hy.
    + injection Hy as <-. rewrite (H2 _ Hx). simpl. rewrite lookup_insert_eq. f_equal. lia.
    + rewrite (H1 i y Hy). f_equal. lia.
  - intros y [Hne Hy]%not_elem_of_cons. rewrite (H2 y Hy). simpl.
    by rewrite lookup_insert_ne.
Qed.

Lemma assign_keys_eq (start : Z) (w : World) :
  assign_keys start w =
    (Return tt,
     {| heap := enumerate_keys (material_id <$> iter (_materials (self w))) start
                  (enumerate_keys (section_id <$> iter (_sections (self w))) start
                     (enumerate_keys (element_id <$> iter (_elements (self w))) start
                        (enumerate_keys (node_id <$> iter (_nodes (self w))) start (heap w))));
        self := self w |}).
Proof. by destruct w. Qed.

Lemma assign_keys_node_keys (start : Z) (w : World) (i : nat) (n : Node) :
  NoDup (keyed_ids (self w)) →
  iter (_nodes (self w)) !! i = Some n →
  key_of (heap (assign_keys start w).2) (node_id n) = Some (start + Z.of_nat i)%Z.
Proof.
  unfold keyed_ids. intros Hnd Hi. rewrite assign_keys_eq. simpl.
  apply NoDup_app in Hnd as (Hn & Hn' & Hnd).
  apply NoDup_app in Hnd as (He & _ & Hnd).
  apply NoDup_app in Hnd as (Hs & _ & Hm).
  assert (Hel : node_id n ∈ node_id <$> iter (_nodes (self w))).
  { apply list_elem_of_fmap. exists n. split; [done|]. by eapply list_elem_of_lookup_2. }
  pose proof (Hn' _ Hel) as Hout. rewrite !elem_of_app in Hout.
  unfold key_of.
  destruct (enumerate_keys_spec _ start (heap w) Hn) as (A1 & _).
  rewrite (proj1 (proj2 (enumerate_keys_spec _ start _ Hm))) by tauto.
  rewrite (proj1 (proj2 (enumerate_keys_spec _ start _ Hs))) by tauto.
  rewrite (proj1 (proj2 (enumerate_keys_spec _ start _ He))) by tauto.
  apply A1. by rewrite list_lookup_fmap, Hi.
Qed.

Lemma assign_keys_element_keys (start : Z) (w : World) (i : nat) (e : Element) :
  NoDup (keyed_ids (self w)) →
  iter (_elements (self w)) !! i = Some e →
  key_of (heap (assign_keys start w).2) (element_id e) = Some (start + Z.of_nat i)%Z.
Proof.
  unfold keyed_ids. intros Hnd Hi. rewrite assign_keys_eq. simpl.
  apply NoDup_app in Hnd as (_ & _ & Hnd).
  apply NoDup_app in Hnd as (He & He' & Hnd).
  apply NoDup_app in Hnd as (Hs & _ & Hm).
  assert (Hel : element_id e ∈ element_id <$> iter (_elements (self w))).
  { apply list_elem_of_fmap. exists e. split; [done|]. by eapply list_elem_of_lookup_2. }
  pose proof (He' _ Hel) as Hout. rewrite !elem_of_app in Hout.
  unfold key_of.
  destruct (enumerate_keys_spec _ start
              (enumerate_keys (node_id <$> iter (_nodes (self w))) start (heap w)) He)
    as (B1 & _).
  rewrite (proj1 (proj2 (enumerate_keys_spec _ start _ Hm))) by tauto.
  rewrite (proj1 (proj2 (enumerate_keys_spec _ start _ Hs))) by tauto.
  apply B1. by rewrite list_lookup_fmap, Hi.
Qed.

(** [assign_keys(start)] numbers the nodes of the part from [start] on in
    the iteration order of the node set, and so the elements, the sections
    and the materials, each kind from [start] on; the part and the other
    attributes of the objects stay as they are. *)
Theorem assign_keys_numbers (start : Z) (w : World) :
  NoDup (keyed_ids (self w)) →
  ∃ w', assign_keys start w = (Return tt, w') ∧
        self w' = self w ∧
        h_registration (heap w') = h_registration (heap w) ∧
        h_connected (heap w') = h_connected (heap w) ∧
        (∀ i n, iter (_nodes (self w)) !! i = Some n →
           key_of (heap w') (node_id n) = Some (start + Z.of_nat i)%Z) ∧
        (∀ i e, iter (_elements (self w)) !! i = Some e →
           key_of (heap w') (element_id e) = Some (start + Z.of_nat i)%Z) ∧
        (∀ i s, iter (_sections (self w)) !! i = Some s →
           key_of (heap w') (section_id s) = Some (start + Z.of_nat i)%Z) ∧
        (∀ i m, iter (_materials (self w)) !! i = Some m →
           key_of (heap w') (material_id m) = Some (start + Z.of_nat i)%Z).
Proof.
  unfold keyed_ids. intros Hnd.
  apply NoDup_app in Hnd as (Hn & Hn' & Hnd).
  apply NoDup_app in Hnd as (He & He' & Hnd).
  apply NoDup_app in Hnd as (Hs & Hs' & Hm).
  destruct w as [h p]. unfold assign_keys. run.
  set (h1 := enumerate_keys (node_id <$> iter (_nodes p)) start h).
  set (h2 := enumerate_keys (element_id <$> iter (_elements p)) start h1).
  set (h3 := enumerate_keys (section_id <$> iter (_sections p)) start h2).
  set (h4 := enumerate_keys (material_id <$> iter (_materials p)) start h3).
  destruct (enumerate_keys_spec _ start h Hn) as (A1 & A2 & A3 & A4 & A5).
  destruct (enumerate_keys_spec _ start h1 He) as (B1 & B2 & B3 & B4 & B5).
  destruct (enumerate_keys_spec _ start h2 Hs) as (C1 & C2 & C3 & C4 & C5).
  destruct (enumerate_keys_spec _ start h3 Hm) as (D1 & D2 & D3 & D4 & D5).
  fold h1 in A1, A2, A3, A4, A5. fold h2 in B1, B2, B3, B4, B5.
  fold h3 in C1, C2, C3, C4, C5. fold h4 in D1, D2, D3, D4, D5.
  eexists. split; [done|]. simpl. fold h1 h2 h3 h4. split; [done|].
  split; [congruence|]. split; [congruence|].
  assert (Hin : ∀ {A} (f : A → positive) (l : list A) i x, l !! i = Some x →
            (f <$> l) !! i = Some (f x) ∧ f x ∈ f <$> l).
  { intros A f l i x Hx. split; [by rewrite list_lookup_fmap, Hx|].
    apply list_elem_of_fmap. exists x. split; [done|]. by eapply list_elem_of_lookup_2. }
  unfold key_of. split; [|split; [|split]].
  - intros i n Hi. destruct (Hin _ node_id _ _ _ Hi) as [Hl Hel].
    pose proof (Hn' _ Hel) as Hout.
    rewrite D2, C2, B2; [by apply A1| | |];
      intros Hx; apply Hout; rewrite !elem_of_app; auto.
  - intros i e Hi. destruct (Hin _ element_id _ _ _ Hi) as [Hl Hel].
    pose proof (He' _ Hel) as Hout.
    rewrite D2, C2; [by apply B1| |];
      intros Hx; apply Hout; rewrite !elem_of_app; auto.
  - intros i s Hi. destruct (Hin _ section_id _ _ _ Hi) as [Hl Hel].
    pose proof (Hs' _ Hel) as Hout.
    rewrite D2; [by apply C1|]. done.
  - intros i m Hi. destruct (Hin _ material_id _ _ _ Hi) as [Hl Hel]. by apply D1.
Qed.

Lemma assign_keys_numbers_witness :
  NoDup (keyed_ids (self shell_world)) ∧
  ∃ w', assign_keys 1 shell_world = (Return tt, w') ∧
        self w' = self shell_world ∧
        h_registration (heap w') = h_registration (heap shell_world) ∧
        h_connected (heap w') = h_connected (heap shell_world) ∧
        (∀ i n, iter (_nodes (self shell_world)) !! i = Some n →
           key_of (heap w') (node_id n) = Some (1 + Z.of_nat i)%Z) ∧
        (∀ i e, iter (_elements (self shell_world)) !! i = Some e →
           key_of (heap w') (element_id e) = Some (1 + Z.of_nat i)%Z) ∧
        (∀ i s, iter (_sections (self shell_world)) !! i = Some s →
           key_of (heap w') (section_id s) = Some (1 + Z.of_nat i)%Z) ∧
        (∀ i m, iter (_materials (self shell_world)) !! i = Some m →
           key_of (heap w') (material_id m) = Some (1 + Z.of_nat i)%Z).
Proof.
  assert (Hnd : NoDup (keyed_ids (self shell_world)))
    by (apply (bool_decide_unpack _); vm_compute; exact I).
  split; [exact Hnd|]. exact (assign_keys_numbers 1 shell_world Hnd).
Defined.

(** ** [find_nodes_around_node] *)





(** ** [PartBase]: nodes at one place, and the labels *)

Lemma PartBase_reorder_self (ns : list PartBase.Node) (k : Z) (w : PartBase.World) :
  PartBase.self (PartBase.reorder ns k w).2 = PartBase.self w.
Proof.
  revert k w. induction ns as [|n ns IH]; intros k w; [done|].
  simpl. run.
  destruct (PartBase.label (PartBase.heap w) !! PartBase.node_id n) as [l|]; [|done].
  case_bool_decide; simpl; by rewrite IH.
Qed.

Lemma PartBase_add_node_gkeys (node : PartBase.Node) (w : PartBase.World) :
  PartBase._nodes_gkeys (PartBase.self (PartBase.add_node node true w).2)
    = if bool_decide (PartBase.gkey node ∈ PartBase._nodes_gkeys (PartBase.self w))
      then PartBase._nodes_gkeys (PartBase.self w)
      else (PartBase._nodes_gkeys (PartBase.self w) ++ [PartBase.gkey node])%list.
Proof.
  unfold PartBase.add_node. run.
  case_bool_decide as Hc; simpl.
  - rewrite bool_decide_eq_true_2; [done|].
    destruct (decide (PartBase.gkey node ∈ PartBase._nodes_gkeys (PartBase.self w)));
      [done|]. exfalso. apply Hc. by apply PartBaseFacts.check_node_in_part_nil.
  - rewrite bool_decide_eq_false_2; [done|].
    by apply PartBaseFacts.check_node_in_part_nil.
Qed.

Lemma PartBase_remove_node_gkeys (resolves : bool) (k : Z) (w : PartBase.World) :
  PartBase._nodes_gkeys (PartBase.self (PartBase.remove_node resolves k w).2)
    `sublist_of` PartBase._nodes_gkeys (PartBase.self w).
Proof.
  unfold PartBase.remove_node, PartBase._reorder_nodes. run.
  destruct (PartBase.del k (PartBase._nodes (PartBase.self w))) as [ns|]; simpl; [|done].
  destruct resolves; simpl; [|done].
  destruct (PartBase.del k (PartBase._nodes_gkeys (PartBase.self w))) as [gks|] eqn:Ed;
    simpl; [|done].
  rewrite PartBase_reorder_self. simpl. by eapply PartBaseFacts.del_sublist.
Qed.

Lemma PartBase_run_calls_gkeys (resolves : bool) (cs : list PartBase.call) (w : PartBase.World) :
  NoDup (PartBase._nodes_gkeys (PartBase.self w)) →
  NoDup (PartBase._nodes_gkeys (PartBase.self (PartBase.run_calls resolves cs w).2)).
Proof.
  intros Hnd. unfold PartBase.run_calls, for_each.
  assert (H : NoDup (PartBase._nodes_gkeys
                       (PartBase.self (traverse (PartBase.run_call resolves) cs w).2))).
  { apply (traverse_preserves
             (λ w, NoDup (PartBase._nodes_gkeys (PartBase.self w)))); [|done].
    intros [node|k] s _ Hs; simpl.
    - rewrite PartBase_add_node_gkeys. case_bool_decide as Hin; [done|].
      apply NoDup_app. split; [done|]. split; [|apply NoDup_singleton].
      intros x Hx ->%list_elem_of_singleton. done.
    - eapply sublist_NoDup; [exact Hs | apply PartBase_remove_node_gkeys]. }
  unfold bind, ret. by destruct (traverse _ cs w) as [[l|e] w'].
Qed.

Lemma indices_length (x : string) (j : nat → nat) (gs : list string) :
  NoDup gs →
  (length (imap (λ index g, if bool_decide (g = x) then [j index] else []) gs ≫= id) ≤ 1)%nat.
Proof.
  revert j. induction gs as [|g gs IH]; intros j Hnd; [simpl; lia|].
  apply NoDup_cons in Hnd as [Hg Hnd]. csimpl. case_bool_decide as Hx; simpl.
  - subst g. apply (PartBaseFacts.indices_nil x (j ∘ S)) in Hg.
    match goal with
    | |- (S (length ?t) ≤ 1)%nat =>
        change t with (imap (λ index g, if bool_decide (g = x) then [(j ∘ S) index] else [])
                         gs ≫= id)
    end.
    rewrite Hg. simpl. lia.
  - exact (IH (j ∘ S) Hnd).
Qed.

Lemma PartBase_find_duplicate_nodes_nil (w : PartBase.World) :
  NoDup (PartBase._nodes_gkeys (PartBase.self w)) → PartBase.find_duplicate_nodes w = [].
Proof.
  intros Hnd. unfold PartBase.find_duplicate_nodes.
  generalize (PartBase._nodes (PartBase.self w)). intros ns.
  induction ns as [|n ns IH]; [done|]. simpl.
  rewrite bool_decide_eq_false_2; [exact IH|].
  pose proof (indices_length (PartBase.gkey n) (λ i, i) _ Hnd) as Hl. cbv beta in Hl.
  unfold PartBase.check_node_in_part. lia.
Qed.

(** On the list-backed part, after every sequence of checked [add_node]
    and of [remove_node] calls that runs to its end, no two nodes of the
    part have the same geometric key, and [find_duplicate_nodes] finds
    nothing. *)
Theorem PartBase_no_duplicate_nodes (resolves : bool) (cs : list PartBase.call)
    (h : PartBase.Heap) (w' : PartBase.World) :
  PartBase.one_object_per_identity (PartBase.added cs) →
  PartBase.run_calls resolves cs {| PartBase.heap := h; PartBase.self := PartBase.init |}
    = (Return tt, w') →
  NoDup (PartBase.gkey <$> PartBase._nodes (PartBase.self w')) ∧
  PartBase.find_duplicate_nodes w' = [].
Proof.
  intros HU E.
  pose proof (PartBaseFacts.run_calls_inv resolves (PartBase.added cs) cs _ w' HU
                (reflexivity _) (PartBaseFacts.init_inv _ h) E) as [_ Hgk _ _ _].
  pose proof (PartBase_run_calls_gkeys resolves cs
                {| PartBase.heap := h; PartBase.self := PartBase.init |}) as Hnd.
  rewrite E in Hnd. simpl in Hnd. specialize (Hnd (NoDup_nil_2)).
  split; [by rewrite <- Hgk | by apply PartBase_find_duplicate_nodes_nil].
Qed.

Lemma PartBase_no_duplicate_nodes_witness :
  PartBase.one_object_per_identity (PartBase.added dup_calls) ∧
  PartBase.run_calls true dup_calls
    {| PartBase.heap := PartBase.heap base_empty; PartBase.self := PartBase.init |}
    = (Return tt, dup_world) ∧
  NoDup (PartBase.gkey <$> PartBase._nodes (PartBase.self dup_world)) ∧
  PartBase.find_duplicate_nodes dup_world = [].
Proof.
  assert (H1 : PartBase.one_object_per_identity (PartBase.added dup_calls))
    by (apply (bool_decide_unpack _); vm_compute; exact I).
  assert (H2 : PartBase.run_calls true dup_calls
                 {| PartBase.heap := PartBase.heap base_empty; PartBase.self := PartBase.init |}
               = (Return tt, dup_world)) by (vm_compute; reflexivity).
  split; [exact H1|]. split; [exact H2|].
  exact (PartBase_no_duplicate_nodes true dup_calls (PartBase.heap base_empty) dup_world H1 H2).
Defined.

(** [_reorder_nodes] and the labels. *)
Lemma PartBase_reorder_labels (ns : list PartBase.Node) (k : Z) (w : PartBase.World) :
  NoDup (PartBase.node_id <$> ns) → PartBase.labelled (PartBase.heap w) ns →
  (∀ i n l, ns !! i = Some n →
     PartBase.label (PartBase.heap w) !! PartBase.node_id n = Some l →
     PartBase.label (PartBase.heap (PartBase.reorder ns k w).2) !! PartBase.node_id n
       = Some (relabel l (k + Z.of_nat i))) ∧
  (∀ j, j ∉ PartBase.node_id <$> ns →
     PartBase.label (PartBase.heap (PartBase.reorder ns k w).2) !! j
       = PartBase.label (PartBase.heap w) !! j).
Proof.
  revert k w. induction ns as [|node ns IH]; intros k w Hnd Hlab.
  { split; [intros i n l Hi; by rewrite lookup_nil in Hi | done]. }
  rewrite fmap_cons in Hnd. apply NoDup_cons in Hnd as [Hfresh Hnd].
  destruct (Hlab node (list_elem_of_here _ _)) as [l0 Hl0].
  set (h1 := if bool_decide (String.substring 0 2 l0 = "n-")
             then PartBase.set_label (PartBase.node_id node) ("n-" ++ pretty k)
                    (PartBase.set_key (PartBase.node_id node) k (PartBase.heap w))
             else PartBase.set_key (PartBase.node_id node) k (PartBase.heap w)).
  assert (E : PartBase.reorder (node :: ns) k w
              = PartBase.reorder ns (k + 1)
                  {| PartBase.heap := h1; PartBase.self := PartBase.self w |}).
  { simpl. run. rewrite Hl0. subst h1. by case_bool_decide. }
  rewrite E. clear E.
  assert (Hl1 : PartBase.label h1 !! PartBase.node_id node = Some (relabel l0 k)).
  { subst h1. unfold relabel. case_bool_decide; simpl; [by rewrite lookup_insert_eq | done]. }
  assert (Hl2 : ∀ j, j ≠ PartBase.node_id node →
                     PartBase.label h1 !! j = PartBase.label (PartBase.heap w) !! j).
  { intros j Hj. subst h1. case_bool_decide; simpl; [by rewrite lookup_insert_ne | done]. }
  destruct (IH (k + 1)%Z {| PartBase.heap := h1; PartBase.self := PartBase.self w |} Hnd)
    as [IH1 IH2].
  { intros n Hn. simpl. destruct (decide (PartBase.node_id n = PartBase.node_id node)) as [Heq|Hne].
    - rewrite Heq, Hl1. eauto.
    - rewrite Hl2 by done. apply Hlab. by apply list_elem_of_further. }
  split.
  - intros [|i] n l Hi Hl; simpl in Hi.
    + injection Hi as <-. rewrite Hl0 in Hl. injection Hl as <-.
      rewrite (IH2 _ Hfresh). simpl. rewrite Hl1. do 2 f_equal. lia.
    + assert (Hne : PartBase.node_id n ≠ PartBase.node_id node).
      { intros Heq. apply Hfresh. rewrite <- Heq. apply list_elem_of_fmap.
        exists n. split; [done|]. by eapply list_elem_of_lookup_2. }
      rewrite (IH1 i n l Hi); [do 2 f_equal; lia|]. simpl. by rewrite Hl2.
  - intros j [Hne Hj]%not_elem_of_cons. rewrite (IH2 j Hj). simpl. by apply Hl2.
Qed.

Lemma PartBase_remove_node_eq (node_key : Z) (w : PartBase.World) ns :
  PartBase._nodes_gkeys (PartBase.self w) = PartBase.gkey <$> PartBase._nodes (PartBase.self w) →
  PartBase.del node_key (PartBase._nodes (PartBase.self w)) = Some ns →
  PartBase.remove_node true node_key w
    = PartBase.reorder ns 0
        {| PartBase.heap := PartBase.heap w;
           PartBase.self := PartBase.set_nodes_gkeys (PartBase.gkey <$> ns)
                              (PartBase.set_nodes ns (PartBase.self w)) |}.
Proof.
  intros Hgk Ed. unfold PartBase.remove_node, PartBase._reorder_nodes. run.
  rewrite Hgk, PartBaseFacts.del_fmap, Ed. done.
Qed.

(** [remove_node], when [nodes_gkeys] resolves, on a part whose nodes are
    numbered and labelled.  An index out of range is an [IndexError] and
    nothing changes.  Else the node at the index (from the end for a
    negative one) is gone, the others keep their order and are numbered
    from 0 again, and a label that begins with [n-] follows the new key
    while another label stays. *)
Theorem PartBase_remove_node_renumbers (U : list PartBase.Node) (node_key : Z)
    (w : PartBase.World) :
  PartBase.inv U w →
  match PartBase.del node_key (PartBase._nodes (PartBase.self w)) with
  | None => PartBase.remove_node true node_key w = (Raise IndexError, w)
  | Some ns =>
      ∃ w', PartBase.remove_node true node_key w = (Return tt, w') ∧
            PartBase._nodes (PartBase.self w') = ns ∧
            PartBase._nodes_gkeys (PartBase.self w') = PartBase.gkey <$> ns ∧
            ∀ i n l, ns !! i = Some n →
              PartBase.label (PartBase.heap w) !! PartBase.node_id n = Some l →
              PartBase.key (PartBase.heap w') !! PartBase.node_id n = Some (Z.of_nat i) ∧
              PartBase.label (PartBase.heap w') !! PartBase.node_id n
                = Some (relabel l (Z.of_nat i))
  end.
Proof.
  intros Hinv. pose proof (PartBaseFacts.remove_node_inv U node_key w Hinv) as Hr.
  destruct (PartBase.del node_key (PartBase._nodes (PartBase.self w))) as [ns|] eqn:Ed;
    [|done].
  destruct Hr as (w' & E & Hinv' & Hns).
  destruct Hinv as [Hsub Hgk Hnd Hnum Hlab].
  exists w'. split; [done|]. split; [done|].
  split; [by rewrite (PartBase.inv_gkeys _ _ Hinv'), Hns|].
  intros i n l Hi Hl. split.
  - rewrite <- Hns in Hi. by rewrite (PartBase.inv_numbered _ _ Hinv' i n Hi).
  - pose proof (PartBaseFacts.del_sublist _ _ _ Ed) as Hsl.
    destruct (PartBase_reorder_labels ns 0
                {| PartBase.heap := PartBase.heap w;
                   PartBase.self := PartBase.set_nodes_gkeys (PartBase.gkey <$> ns)
                                      (PartBase.set_nodes ns (PartBase.self w)) |})
      as [Hl' _].
    + eapply sublist_NoDup; [exact Hnd | by apply fmap_sublist].
    + intros m Hm. simpl. apply Hlab. by eapply sublist_subseteq.
    + rewrite <- (PartBase_remove_node_eq node_key w ns Hgk Ed), E in Hl'. simpl in Hl'.
      by rewrite (Hl' i n l Hi Hl).
Qed.

Lemma base_labelled_inv : PartBase.inv [base_node_0; base_node_1; base_node_2] base_labelled.
Proof.
  split.
  - apply (bool_decide_unpack _). vm_compute. exact I.
  - vm_compute. reflexivity.
  - apply (bool_decide_unpack _). vm_compute. exact I.
  - intros i n Hi. destruct i as [|[|[|i]]]; vm_compute in Hi; try discriminate;
      injection Hi as <-; vm_compute; reflexivity.
  - intros n Hn. revert n Hn. apply Forall_forall.
    apply (bool_decide_unpack _). vm_compute. exact I.
Qed.

Lemma PartBase_remove_node_renumbers_witness :
  PartBase.inv [base_node_0; base_node_1; base_node_2] base_labelled ∧
  match PartBase.del 0 (PartBase._nodes (PartBase.self base_labelled)) with
  | None => PartBase.remove_node true 0 base_labelled = (Raise IndexError, base_labelled)
  | Some ns =>
      ∃ w', PartBase.remove_node true 0 base_labelled = (Return tt, w') ∧
            PartBase._nodes (PartBase.self w') = ns ∧
            PartBase._nodes_gkeys (PartBase.self w') = PartBase.gkey <$> ns ∧
            ∀ i n l, ns !! i = Some n →
              PartBase.label (PartBase.heap base_labelled) !! PartBase.node_id n = Some l →
              PartBase.key (PartBase.heap w') !! PartBase.node_id n = Some (Z.of_nat i) ∧
              PartBase.label (PartBase.heap w') !! PartBase.node_id n
                = Some (relabel l (Z.of_nat i))
  end.
Proof.
  split; [exact base_labelled_inv|].
  exact (PartBase_remove_node_renumbers [base_node_0; base_node_1; base_node_2] 0
           base_labelled base_labelled_inv).
Defined.

(** ** [PartBase]: materials and sections *)

Lemma PartBase_add_node_frame (node : PartBase.Node) (check : bool) (w : PartBase.World) :
  PartBase._materials (PartBase.self (PartBase.add_node node check w).2)
    = PartBase._materials (PartBase.self w) ∧
  PartBase._sections (PartBase.self (PartBase.add_node node check w).2)
    = PartBase._sections (PartBase.self w).
Proof. unfold PartBase.add_node. run. by destruct (check && _). Qed.

Lemma PartBase_remove_node_frame (resolves : bool) (k : Z) (w : PartBase.World) :
  PartBase._materials (PartBase.self (PartBase.remove_node resolves k w).2)
    = PartBase._materials (PartBase.self w) ∧
  PartBase._sections (PartBase.self (PartBase.remove_node resolves k w).2)
    = PartBase._sections (PartBase.self w).
Proof.
  unfold PartBase.remove_node, PartBase._reorder_nodes. run.
  destruct (PartBase.del k (PartBase._nodes (PartBase.self w))) as [ns|]; simpl; [|done].
  destruct resolves; simpl; [|done].
  destruct (PartBase.del k (PartBase._nodes_gkeys (PartBase.self w))) as [gks|]; simpl; [|done].
  by rewrite PartBase_reorder_self.
Qed.

Lemma PartBase_add_element_frame (e : PartBase.Element) (check : bool) (w : PartBase.World) :
  PartBase._materials (PartBase.self (PartBase.add_element e check w).2)
    = PartBase._materials (PartBase.self w) ∧
  PartBase._sections (PartBase.self (PartBase.add_element e check w).2)
    = PartBase._sections (PartBase.self w).
Proof.
  unfold PartBase.add_element. run. destruct (check && _); [done|].
  case_bool_decide; [|done].
  destruct (PartBase.elset e) as [[|c s]|]; simpl; try done.
  case_bool_decide; simpl;
    by destruct (PartBase.orientation e).
Qed.

Lemma PartBase_add_material_resolved (m : Material) (w : PartBase.World) :
  PartBase.resolved (PartBase.self w) →
  PartBase.resolved (PartBase.self (PartBase.add_material m w).2) ∧
  PartBase._materials (PartBase.self w)
    ⊆ PartBase._materials (PartBase.self (PartBase.add_material m w).2) ∧
  PartBase._sections (PartBase.self (PartBase.add_material m w).2)
    = PartBase._sections (PartBase.self w).
Proof.
  intros [Hm Hs]. unfold PartBase.add_material. run.
  case_bool_decide as Hin; [done|].
  assert (Hnone : PartBase._materials (PartBase.self w) !! material_name m = None).
  { destruct (PartBase._materials (PartBase.self w) !! material_name m) eqn:E; [|done].
    exfalso. apply Hin. eauto. }
  simpl. split; [|split; [by apply insert_subseteq | done]].
  split; simpl.
  - intros name m' [[<- <-]|[Hne Hl]]%lookup_insert_Some; [done | by apply Hm].
  - intros name sec Hl. destruct (Hs name sec Hl) as (Hn & n & Hmn & [m' Hm']).
    split; [done|]. exists n. split; [done|].
    destruct (decide (material_name m = n)) as [<-|Hne];
      [by rewrite lookup_insert_eq | rewrite lookup_insert_ne by done; eauto].
Qed.

Lemma PartBase_add_section_resolved (sec : Section) (w : PartBase.World) :
  PartBase.resolved (PartBase.self w) →
  PartBase.resolved (PartBase.self (PartBase.add_section sec w).2) ∧
  PartBase._materials (PartBase.self (PartBase.add_section sec w).2)
    = PartBase._materials (PartBase.self w) ∧
  PartBase._sections (PartBase.self w)
    ⊆ PartBase._sections (PartBase.self (PartBase.add_section sec w).2).
Proof.
  intros [Hm Hs]. unfold PartBase.add_section. run.
  case_bool_decide as Hin; [done|].
  assert (Hnone : PartBase._sections (PartBase.self w) !! section_name sec = None).
  { destruct (PartBase._sections (PartBase.self w) !! section_name sec) eqn:E; [|done].
    exfalso. apply Hin. eauto. }
  assert (Hok : ∀ n, PartBase.material_name_of sec = Some n →
             is_Some (PartBase._materials (PartBase.self w) !! n) →
             PartBase.resolved
               (PartBase.set_sections
                  (<[section_name sec := sec]> (PartBase._sections (PartBase.self w)))
                  (PartBase.self w))).
  { intros n Hn Hmat. split; simpl; [done|].
    intros name sec' [[<- <-]|[Hne Hl]]%lookup_insert_Some; [eauto | by apply Hs]. }
  unfold PartBase.material_name_of in Hok.
  destruct (material sec) as [m|name|]; simpl; [| |done].
  - case_bool_decide as Hmat; simpl; [|done].
    split; [by apply (Hok (material_name m))|]. split; [done | by apply insert_subseteq].
  - case_bool_decide as Hmat; simpl; [|done].
    split; [by apply (Hok name)|]. split; [done | by apply insert_subseteq].
Qed.

Lemma PartBase_run_api_resolved (resolves : bool) (c : PartBase.api_call)
    (w0 w : PartBase.World) :
  PartBase.resolved (PartBase.self w) ∧
  PartBase._materials (PartBase.self w0) ⊆ PartBase._materials (PartBase.self w) ∧
  PartBase._sections (PartBase.self w0) ⊆ PartBase._sections (PartBase.self w) →
  PartBase.resolved (PartBase.self (PartBase.run_api resolves c w).2) ∧
  PartBase._materials (PartBase.self w0)
    ⊆ PartBase._materials (PartBase.self (PartBase.run_api resolves c w).2) ∧
  PartBase._sections (PartBase.self w0)
    ⊆ PartBase._sections (PartBase.self (PartBase.run_api resolves c w).2).
Proof.
  intros (Hr & Hm & Hs). destruct c as [node check|k|e check|m|sec]; cbn [PartBase.run_api].
  - destruct (PartBase_add_node_frame node check w) as [E1 E2].
    unfold PartBase.resolved. by rewrite E1, E2.
  - destruct (PartBase_remove_node_frame resolves k w) as [E1 E2].
    unfold PartBase.resolved. by rewrite E1, E2.
  - destruct (PartBase_add_element_frame e check w) as [E1 E2].
    unfold PartBase.resolved. by rewrite E1, E2.
  - destruct (PartBase_add_material_resolved m w Hr) as (Hr' & Hm' & Hs').
    split; [done|]. split; [by etrans | by rewrite Hs'].
  - destruct (PartBase_add_section_resolved sec w Hr) as (Hr' & Hm' & Hs').
    split; [done|]. split; [by rewrite Hm' | by etrans].
Qed.

(** On the list-backed part, whatever is called of [add_node],
    [remove_node], [add_element], [add_material] and [add_section], and
    whether or not the calls run to their end: a material or a section
    that the part has is never replaced or taken away, each is stored
    under its own name, and the material of every section of the part is
    one of the materials of the part. *)
Theorem PartBase_sections_resolved (resolves : bool) (cs : list PartBase.api_call)
    (w : PartBase.World) :
  PartBase.resolved (PartBase.self w) →
  PartBase.resolved (PartBase.self (PartBase.run_apis resolves cs w).2) ∧
  PartBase._materials (PartBase.self w)
    ⊆ PartBase._materials (PartBase.self (PartBase.run_apis resolves cs w).2) ∧
  PartBase._sections (PartBase.self w)
    ⊆ PartBase._sections (PartBase.self (PartBase.run_apis resolves cs w).2).
Proof.
  intros Hr. unfold PartBase.run_apis, for_each.
  assert (H : (λ s, PartBase.resolved (PartBase.self s) ∧
                    PartBase._materials (PartBase.self w) ⊆ PartBase._materials (PartBase.self s) ∧
                    PartBase._sections (PartBase.self w) ⊆ PartBase._sections (PartBase.self s))
                (traverse (PartBase.run_api resolves) cs w).2).
  { apply traverse_preserves; [|done].
    intros c s _ Hs. by apply PartBase_run_api_resolved. }
  unfold bind, ret. by destruct (traverse _ cs w) as [[l|e] w'].
Qed.

Lemma PartBase_sections_resolved_witness :
  PartBase.resolved (PartBase.self base_empty) ∧
  PartBase.resolved (PartBase.self (PartBase.run_apis true build_calls base_empty).2) ∧
  PartBase._materials (PartBase.self base_empty)
    ⊆ PartBase._materials (PartBase.self (PartBase.run_apis true build_calls base_empty).2) ∧
  PartBase._sections (PartBase.self base_empty)
    ⊆ PartBase._sections (PartBase.self (PartBase.run_apis true build_calls base_empty).2).
Proof.
  assert (H : PartBase.resolved (PartBase.self base_empty)).
  { split; simpl; intros name x Hx; by rewrite lookup_empty in Hx. }
  split; [exact H|].
  exact (PartBase_sections_resolved true build_calls base_empty H).
Defined.

(** ** Looking a node up by its key *)

Lemma head_filter_first {A} (P : A → Prop) `{∀ x, Decision (P x)} (l : list A) (i : nat) (x : A) :
  l !! i = Some x → P x → (∀ j y, (j < i)%nat → l !! j = Some y → ¬ P y) →
  head (filter P l) = Some x.
Proof.
  revert i. induction l as [|a l IH]; intros i Hi Hx Hbefore; [by rewrite lookup_nil in Hi|].
  destruct i as [|i]; simpl in Hi.
  - injection Hi as ->. by rewrite filter_cons_True.
  - rewrite filter_cons_False; [|apply (Hbefore 0%nat a); [lia | done]].
    apply (IH i); [done | done |].
    intros j y Hj Hy. apply (Hbefore (S j) y); [lia | done].
Qed.

(** After [assign_keys(start)], [find_node_by_key(start + i)] is the
    node that comes at place [i] when the set of nodes is iterated. *)
Theorem find_node_by_key_after_assign_keys (start : Z) (w : World) (i : nat) (n : Node) :
  NoDup (keyed_ids (self w)) →
  iter (_nodes (self w)) !! i = Some n →
  find_node_by_key (assign_keys start w).2 (start + Z.of_nat i) = Some n.
Proof.
  intros Hnd Hi.
  pose proof (λ j m, assign_keys_node_keys start w j m Hnd) as Hkeys.
  unfold find_node_by_key.
  assert (Hself : self (assign_keys start w).2 = self w) by (by rewrite assign_keys_eq).
  rewrite Hself.
  apply (head_filter_first _ _ i); [done | by apply Hkeys |].
  intros j y Hj Hy. rewrite (Hkeys j y Hy). intros [= Heq]. lia.
Qed.

Lemma find_node_by_key_after_assign_keys_witness :
  NoDup (keyed_ids (self shell_world)) ∧
  iter (_nodes (self shell_world)) !! 1%nat = Some node_a ∧
  find_node_by_key (assign_keys 1 shell_world).2 (1 + Z.of_nat 1) = Some node_a.
Proof.
  assert (Hnd : NoDup (keyed_ids (self shell_world)))
    by (apply (bool_decide_unpack _); vm_compute; exact I).
  assert (Hi : iter (_nodes (self shell_world)) !! 1%nat = Some node_a)
    by (vm_compute; reflexivity).
  split; [exact Hnd|]. split; [exact Hi|].
  exact (find_node_by_key_after_assign_keys 1 shell_world 1 node_a Hnd Hi).
Defined.

(** ** The orientation key and the orientation of the section *)

Lemma split_free (sep : ascii) (s : string) : occurs sep s = false → split sep s = [s].
Proof.
  induction s as [|c s IH]; [done|]. simpl. intros [Hc Hs]%orb_false_elim.
  rewrite Hc. by rewrite (IH Hs).
Qed.

Lemma split_append (sep : ascii) (x rest : string) :
  occurs sep x = false →
  split sep (x ++ String sep rest) = x :: split sep rest.
Proof.
  induction x as [|c x IH]; simpl.
  { intros _. by rewrite Ascii.eqb_refl. }
  intros [Hc Hx]%orb_false_elim. rewrite Hc. by rewrite (IH Hx).
Qed.

Lemma split_concat (sep : ascii) (xs : list string) :
  xs ≠ [] → Forall (λ s, occurs sep s = false) xs →
  split sep (String.concat (String sep EmptyString) xs) = xs.
Proof.
  induction xs as [|x xs IH]; [done|]. intros _ Hall.
  apply Forall_cons in Hall as [Hx Hall].
  destruct xs as [|y xs]; [by apply split_free|].
  change (String.concat (String sep EmptyString) (x :: y :: xs))
    with (x ++ String sep (String.concat (String sep EmptyString) (y :: xs))).
  rewrite split_append by done. by rewrite IH.
Qed.

(** For an element with an orientation vector whose components are
    written without an underscore and whose key is not empty, the
    orientation handed to the section is the list of the components as
    [str] writes them: splitting the key at the underscores undoes the
    joining. *)
Theorem orientation_key_round_trip (e : Element) (v : list scalar) :
  _orientation e = Attr (Some v) →
  Forall (λ i, occurs "_" (str i) = false) v →
  String.concat "_" (str <$> v) ≠ "" →
  orientation_of e = Return (Some (String.concat "_" (str <$> v))) ∧
  aux_orientation (Some (String.concat "_" (str <$> v))) = Some (str <$> v).
Proof.
  intros Ho Hfree Hne. unfold orientation_of. rewrite Ho. split; [done|].
  unfold aux_orientation, truthy.
  destruct (String.concat "_" (str <$> v)) as [|c s] eqn:E; [done|].
  rewrite <- E. f_equal. apply (split_concat "_"%char).
  - intros Hnil. by rewrite Hnil in E.
  - by apply Forall_fmap.
Qed.

Lemma orientation_key_round_trip_witness :
  _orientation beam_x = Attr (Some [PyFloat "0.0"; PyFloat "0.0"; PyFloat "1.0"]) ∧
  Forall (λ i, occurs "_" (str i) = false) [PyFloat "0.0"; PyFloat "0.0"; PyFloat "1.0"] ∧
  String.concat "_" (str <$> [PyFloat "0.0"; PyFloat "0.0"; PyFloat "1.0"]) ≠ "" ∧
  orientation_of beam_x
    = Return (Some (String.concat "_" (str <$> [PyFloat "0.0"; PyFloat "0.0"; PyFloat "1.0"]))) ∧
  aux_orientation (Some (String.concat "_" (str <$> [PyFloat "0.0"; PyFloat "0.0"; PyFloat "1.0"])))
    = Some (str <$> [PyFloat "0.0"; PyFloat "0.0"; PyFloat "1.0"]).
Proof.
  assert (H1 : Forall (λ i, occurs "_" (str i) = false)
                 [PyFloat "0.0"; PyFloat "0.0"; PyFloat "1.0"])
    by (repeat constructor).
  assert (H2 : String.concat "_" (str <$> [PyFloat "0.0"; PyFloat "0.0"; PyFloat "1.0"]) ≠ "")
    by (vm_compute; discriminate).
  split; [reflexivity|]. split; [exact H1|]. split; [exact H2|].
  exact (orientation_key_round_trip beam_x _ eq_refl H1 H2).
Defined.

(** ** Elements, their sections and the materials of these *)

Lemma integral_ext (p p' : Part) :
  _elements p' = _elements p → _sections p' = _sections p → _materials p' = _materials p →
  integral p → integral p'.
Proof.
  intros He Hs Hm [H1 H2]. unfold integral, contains_section, contains_material.
  rewrite He, Hs, Hm. by split.
Qed.

Lemma integral_add_material (m : Material) (p : Part) :
  integral p → integral (set_materials (add m (_materials p)) p).
Proof.
  intros [H1 H2]. split; [done|]. intros s Hs. destruct (H2 s Hs) as (m' & Hm & Hc).
  exists m'. split; [done|]. unfold contains_material. simpl. by apply contains_add_mono.
Qed.

Lemma integral_add_section (sec : Section) (m : Material) (p : Part) :
  material sec = MaterialObj m → contains_material p m = true →
  integral p → integral (set_sections (add sec (_sections p)) p).
Proof.
  intros Hm Hc [H1 H2]. split.
  - intros e He. unfold contains_section. simpl. apply contains_add_mono. by apply H1.
  - intros s Hs. simpl in Hs. apply elem_of_iter_add in Hs as [->|Hs]; [eauto | by apply H2].
Qed.

Lemma integral_add_element (e : Element) (p : Part) :
  contains_section p (section e) = true →
  integral p → integral (set_elements (add e (_elements p)) p).
Proof.
  intros Hc [H1 H2]. split; [|done].
  intros e' He'. simpl in He'. apply elem_of_iter_add in He' as [->|He']; [done | by apply H1].
Qed.

Lemma integral_remove_element (e : Element) (p : Part) :
  integral p → integral (set_elements (remove e (_elements p)) p).
Proof.
  intros [H1 H2]. split; [|done].
  intros e' [i Hi]%elem_of_iter. simpl in Hi. unfold remove in Hi.
  apply lookup_delete_Some in Hi as [_ Hi]. apply (H1 e'). apply elem_of_iter. eauto.
Qed.

Lemma preserves_modify {S} (P : S → Prop) (f : S → S) :
  (∀ s, P s → P (f s)) → preserves P (modify f).
Proof. intros Hf s Hs. by apply Hf. Qed.

Lemma preserves_get {S} (P : S → Prop) : preserves P (get (S:=S)).
Proof. by intros s. Qed.

Lemma preserves_raise {S A} (P : S → Prop) (e : exn) : preserves P (raise (S:=S) (A:=A) e).
Proof. by intros s. Qed.

Lemma add_node_integral cfg node : preserves (λ w, integral (self w)) (add_node cfg node).
Proof.
  intros w Hw. destruct (add_node_frame cfg node w).
  by apply (integral_ext (self w)).
Qed.

Lemma add_nodes_integral cfg ns : preserves (λ w, integral (self w)) (add_nodes cfg ns).
Proof. apply preserves_traverse. intros n _. apply add_node_integral. Qed.

Lemma remove_node_integral node : preserves (λ w, integral (self w)) (remove_node node).
Proof.
  intros w Hw. rewrite remove_node_eq. destruct (contains_node (self w) node); [|done].
  destruct (_gkey_node (self w) !! gkey node); by apply (integral_ext (self w)).
Qed.

Lemma add_material_integral m : preserves (λ w, integral (self w)) (add_material m).
Proof.
  intros w Hw. destruct m as [mat| |]; [|done|done].
  rewrite add_material_obj. simpl. by apply integral_add_material.
Qed.

Lemma add_section_integral sec : preserves (λ w, integral (self w)) (add_section sec).
Proof.
  intros w Hw. unfold add_section. destruct (material sec) as [mat| |] eqn:Hm; [|done|done].
  run.
  apply (integral_add_section sec mat (set_materials (add mat (_materials (self w))) (self w)));
    [done| |by apply integral_add_material].
  unfold contains_material. simpl. apply contains_add.
Qed.

Lemma add_element_integral cfg e checks :
  preserves (λ w, integral (self w)) (add_element cfg e checks).
Proof.
  intros w Hw. destruct (checks && contains_element (self w) e) eqn:Hc.
  { unfold add_element. rewrite (bind_Return _ _ _ _ _ (eq_refl : get w = (Return w, w))).
    by rewrite Hc. }
  pose proof (add_nodes_integral cfg (nodes e) w Hw) as H1.
  destruct (material (section e)) as [mat| |] eqn:Hm.
  - rewrite (add_element_eq cfg e checks w mat Hc Hm).
    set (w1 := (add_nodes cfg (nodes e) w).2) in *. unfold with_element. simpl.
    set (p1 := set_materials (add mat (_materials (self w1))) (self w1)).
    set (p2 := set_sections (add (section e) (_sections (self w1))) p1).
    apply (integral_add_element e p2); [unfold contains_section; simpl; apply contains_add|].
    apply (integral_add_section (section e) mat p1); [done| |by apply integral_add_material].
    unfold contains_material. simpl. apply contains_add.
  - unfold add_element. rewrite (bind_Return _ _ _ _ _ (eq_refl : get w = (Return w, w))).
    rewrite Hc. destruct (add_nodes_returns cfg (nodes e) w) as (rs & w1 & E1).
    rewrite E1 in H1. rewrite (bind_Return _ _ _ _ _ E1).
    rewrite (bind_Return _ _ _ _ _ (for_each_connect e (nodes e) w1)).
    unfold add_section. rewrite Hm. done.
  - unfold add_element. rewrite (bind_Return _ _ _ _ _ (eq_refl : get w = (Return w, w))).
    rewrite Hc. destruct (add_nodes_returns cfg (nodes e) w) as (rs & w1 & E1).
    rewrite E1 in H1. rewrite (bind_Return _ _ _ _ _ E1).
    rewrite (bind_Return _ _ _ _ _ (for_each_connect e (nodes e) w1)).
    unfold add_section. rewrite Hm. done.
Qed.

Lemma remove_element_integral e : preserves (λ w, integral (self w)) (remove_element e).
Proof.
  intros w Hw. unfold remove_element.
  rewrite (bind_Return _ _ _ _ _ (eq_refl : get w = (Return w, w))).
  destruct (contains_element (self w) e); [|done].
  unfold for_each. run.
  set (w1 := with_heap _ (with_self _ w)).
  destruct (disconnect_spec e (nodes e) w1) as (Hs & _).
  destruct (traverse _ (nodes e) w1) as [[l|ex] w2]; simpl in *;
    rewrite Hs; by apply integral_remove_element.
Qed.

Lemma assign_keys_integral start : preserves (λ w, integral (self w)) (assign_keys start).
Proof. intros w Hw. unfold assign_keys. run. done. Qed.

(** Whatever is called of [add_node], [remove_node], [add_material],
    [add_section], [add_element], [remove_element] and [assign_keys],
    under whatever settings, and whether or not the calls
    run to their end: the section of every element of the part stays
    among the sections of the part, and the material of every section of
    the part among its materials. *)
Theorem part_stays_integral (cfg : Config) (cs : list part_call) (w : World) :
  integral (self w) → integral (self (run_part_calls cfg cs w).2).
Proof.
  revert w. apply (preserves_bind (λ w, integral (self w))); [|intros; apply preserves_ret].
  apply preserves_traverse. intros c _.
  destruct c; simpl;
    try (apply preserves_bind; [|intros; apply preserves_ret]).
  - apply add_node_integral.
  - apply remove_node_integral.
  - apply add_material_integral.
  - apply add_section_integral.
  - apply add_element_integral.
  - apply remove_element_integral.
  - apply assign_keys_integral.
Qed.

Lemma part_stays_integral_witness :
  integral (self empty_world) ∧
  integral (self (run_part_calls quiet part_calls empty_world).2).
Proof.
  assert (H : integral (self empty_world)).
  { split; simpl; intros x Hx; rewrite iter_empty in Hx; by apply elem_of_nil in Hx. }
  split; [exact H|]. exact (part_stays_integral quiet part_calls empty_world H).
Defined.

(** ** The closest nodes are the nearest ones *)

Lemma nearer_trans : Transitive nearer.
Proof. intros a b c. unfold nearer. apply Qcle_trans. Qed.

Lemma nearer_total : Total nearer.
Proof.
  intros a b. unfold nearer. destruct (Qclt_le_dec a.1 b.1) as [H|H]; [|by right].
  left. by apply Qclt_le_weak.
Qed.

Lemma StronglySorted_lookup {A} (R : relation A) `{!Reflexive R} (l : list A) i j x y :
  StronglySorted R l → (i ≤ j)%nat → l !! i = Some x → l !! j = Some y → R x y.
Proof.
  intros Hs. revert i j. induction Hs as [|a l Hs IH Hall]; intros i j Hij Hi Hj;
    [by rewrite lookup_nil in Hi|].
  destruct i as [|i]; destruct j as [|j]; simpl in *; try lia.
  - by simplify_eq.
  - injection Hi as <-. rewrite Forall_forall in Hall. apply Hall.
    by eapply list_elem_of_lookup_2.
  - apply (IH i j); [lia | done | done].
Qed.

Lemma nearer_refl : Reflexive nearer.
Proof. intros a. unfold nearer. apply Qcle_refl. Qed.

Lemma indexed_distances_lookup (pts : list point) (pt : point) (d : Qc) (i : nat) :
  (d, i) ∈ indexed_distances pts pt ↔
  ∃ q, pts !! i = Some q ∧ d = distance_point_point_sqrd q pt.
Proof.
  unfold indexed_distances. split.
  - intros [r Hr]%list_elem_of_lookup. apply lookup_zip_with_Some in Hr
      as (d' & i' & [= <- <-] & Hd & Hi).
    apply lookup_seq in Hi as [-> _]. simpl in *.
    apply list_lookup_fmap_Some in Hd as (q & -> & Hq). eauto.
  - intros (q & Hq & ->). apply list_elem_of_lookup. exists i.
    apply lookup_zip_with_Some. eexists _, _. split; [done|]. split.
    + by rewrite list_lookup_fmap, Hq.
    + apply lookup_seq. split; [done|]. by eapply lookup_lt_Some.
Qed.

(** The nodes that [find_closest_nodes_to_point] returns come nearest
    first, and no node of the part that is left out is nearer to the point
    than one that is returned. *)
Theorem find_closest_nodes_nearest (p : Part) (pt : point) (number_of_nodes : Z)
    (found : list Node) :
  find_closest_nodes_to_point p pt number_of_nodes false = Return (ClosestNodes found) →
  (∀ i j a b, (i ≤ j)%nat → found !! i = Some a → found !! j = Some b →
     (distance_point_point_sqrd (xyz a) pt ≤ distance_point_point_sqrd (xyz b) pt)%Qc) ∧
  (∀ a m, a ∈ found → m ∈ iter (_nodes p) → m ∉ found →
     (distance_point_point_sqrd (xyz a) pt ≤ distance_point_point_sqrd (xyz m) pt)%Qc).
Proof.
  unfold find_closest_nodes_to_point.
  case_bool_decide; [done|]. case_bool_decide; [done|].
  unfold kdtree_query.
  set (k := Z.to_nat number_of_nodes).
  set (L := merge_sort nearer (indexed_distances (points p) pt)).
  destruct (mapM _ (take k L).*2) as [ns|] eqn:E; [|done].
  intros [= <-]. apply mapM_Some in E.
  pose proof nearer_trans as Htrans. pose proof nearer_total as Htotal.
  pose proof nearer_refl as Hrefl.
  assert (Hsorted : StronglySorted nearer L) by apply (StronglySorted_merge_sort _).
  assert (HL : ∀ r d i, L !! r = Some (d, i) →
            ∃ n, iter (_nodes p) !! i = Some n ∧ d = distance_point_point_sqrd (xyz n) pt).
  { intros r d i Hr. apply list_elem_of_lookup_2 in Hr.
    unfold L in Hr. rewrite merge_sort_Permutation in Hr.
    apply indexed_distances_lookup in Hr as (q & Hq & ->).
    unfold points in Hq. apply list_lookup_fmap_Some in Hq as (n & -> & Hn). eauto. }
  assert (Hfound : ∀ j a, ns !! j = Some a →
            (j < k)%nat ∧ ∃ i, L !! j = Some (distance_point_point_sqrd (xyz a) pt, i) ∧
                               iter (_nodes p) !! i = Some a).
  { intros j a Hj. destruct (Forall2_lookup_r _ _ _ _ _ E Hj) as (i & Hi & Ha).
    apply list_lookup_fmap_Some in Hi as ([d i'] & -> & Hi). simpl in Ha.
    apply lookup_take_Some in Hi as [Hi Hjk]. split; [done|].
    destruct (HL j d i' Hi) as (n & Hn & ->). exists i'. split; [|done]. congruence. }
  split.
  - intros i j a b Hij Hi Hj.
    destruct (Hfound i a Hi) as (_ & ia & Hia & _).
    destruct (Hfound j b Hj) as (_ & ib & Hib & _).
    apply (StronglySorted_lookup nearer L i j _ _ Hsorted Hij Hia Hib).
  - intros a m [j Hj]%list_elem_of_lookup [q Hq]%list_elem_of_lookup Hout.
    destruct (Hfound j a Hj) as (Hjk & ia & Hia & _).
    assert (Hin : (distance_point_point_sqrd (xyz m) pt, q) ∈ L).
    { unfold L. rewrite merge_sort_Permutation. apply indexed_distances_lookup.
      exists (xyz m). split; [|done]. unfold points. by rewrite list_lookup_fmap, Hq. }
    apply list_elem_of_lookup in Hin as [r Hr].
    destruct (decide (r < k)%nat) as [Hrk|Hrk].
    + exfalso. apply Hout.
      assert (Hlen : length ns = length (take k L).*2) by (symmetry; by eapply Forall2_length).
      assert (Hr' : (take k L).*2 !! r = Some q).
      { rewrite list_lookup_fmap, lookup_take_lt by done. by rewrite Hr. }
      destruct (Forall2_lookup_l _ _ _ _ _ E Hr') as (y & Hy & Hqy).
      simpl in Hqy. rewrite Hq in Hqy. injection Hqy as <-.
      by eapply list_elem_of_lookup_2.
    + assert (Hjr : (j ≤ r)%nat) by lia.
      exact (StronglySorted_lookup nearer L j r _ _ Hsorted Hjr Hia Hr).
Qed.

Lemma find_closest_nodes_nearest_witness :
  find_closest_nodes_to_point (self two_nodes) (0, 0, 0)%Qc 2 false
    = Return (ClosestNodes [node_a; node_b]) ∧
  (∀ i j a b, (i ≤ j)%nat → [node_a; node_b] !! i = Some a → [node_a; node_b] !! j = Some b →
     (distance_point_point_sqrd (xyz a) (0, 0, 0)%Qc
        ≤ distance_point_point_sqrd (xyz b) (0, 0, 0)%Qc)%Qc) ∧
  (∀ a m, a ∈ [node_a; node_b] → m ∈ iter (_nodes (self two_nodes)) → m ∉ [node_a; node_b] →
     (distance_point_point_sqrd (xyz a) (0, 0, 0)%Qc
        ≤ distance_point_point_sqrd (xyz m) (0, 0, 0)%Qc)%Qc).
Proof.
  assert (H : find_closest_nodes_to_point (self two_nodes) (0, 0, 0)%Qc 2 false
              = Return (ClosestNodes [node_a; node_b])) by (vm_compute; reflexivity).
  split; [exact H|].
  exact (find_closest_nodes_nearest (self two_nodes) (0, 0, 0)%Qc 2 [node_a; node_b] H).
Defined.

(** ** [PartBase]: elements of one connectivity *)

Lemma PartBase_check_element_in_part_nil (w : PartBase.World) (e : PartBase.Element) :
  PartBase.check_element_in_part w e = [] ↔
  PartBase.connectivity_key e ∉ PartBase.connectivity_key <$> PartBase._elements (PartBase.self w).
Proof.
  unfold PartBase.check_element_in_part.
  generalize (PartBase._elements (PartBase.self w)). intros es.
  induction es as [|x es IH]; [split; [intros _; apply not_elem_of_nil | done]|].
  rewrite fmap_cons, not_elem_of_cons.
  destruct (decide (PartBase.connectivity_key x = PartBase.connectivity_key e)) as [Heq|Hne].
  - rewrite filter_cons_True by done. split; [done | intros [? _]; congruence].
  - rewrite filter_cons_False by done. rewrite IH. split; [intros ?; split; congruence | tauto].
Qed.

Lemma PartBase_add_element_elements (e : PartBase.Element) (w : PartBase.World) :
  PartBase._elements (PartBase.self (PartBase.add_element e true w).2)
    = PartBase._elements (PartBase.self w) ∨
  ((PartBase.connectivity_key e
      ∉ PartBase.connectivity_key <$> PartBase._elements (PartBase.self w)) ∧
   PartBase._elements (PartBase.self (PartBase.add_element e true w).2)
     = (PartBase._elements (PartBase.self w) ++ [e])%list).
Proof.
  unfold PartBase.add_element. run. case_bool_decide as Hc; simpl; [by left|].
  case_bool_decide; [|by left]. right.
  split; [by apply PartBase_check_element_in_part_nil|].
  destruct (PartBase.elset e) as [[|c s]|]; simpl; try done.
  case_bool_decide; simpl; by destruct (PartBase.orientation e).
Qed.

Lemma PartBase_run_api_elements (resolves : bool) (c : PartBase.api_call) (w : PartBase.World) :
  PartBase.checked c →
  NoDup (PartBase.connectivity_key <$> PartBase._elements (PartBase.self w)) →
  NoDup (PartBase.connectivity_key
           <$> PartBase._elements (PartBase.self (PartBase.run_api resolves c w).2)).
Proof.
  intros Hc Hnd. destruct c as [node check|k|e check|m|sec]; cbn [PartBase.run_api].
  - assert (E : PartBase._elements (PartBase.self (PartBase.add_node node check w).2)
                = PartBase._elements (PartBase.self w));
      [|by rewrite E].
    unfold PartBase.add_node. run. by destruct (check && _).
  - assert (E : PartBase._elements (PartBase.self (PartBase.remove_node resolves k w).2)
                = PartBase._elements (PartBase.self w));
      [|by rewrite E].
    unfold PartBase.remove_node, PartBase._reorder_nodes. run.
    destruct (PartBase.del k (PartBase._nodes (PartBase.self w))) as [ns|]; simpl; [|done].
    destruct resolves; simpl; [|done].
    destruct (PartBase.del k (PartBase._nodes_gkeys (PartBase.self w))) as [gks|];
      simpl; [|done].
    by rewrite PartBase_reorder_self.
  - simpl in Hc. subst check.
    destruct (PartBase_add_element_elements e w) as [->|[Hnew ->]]; [done|].
    rewrite fmap_app. apply NoDup_app. split; [done|]. split; [|apply NoDup_singleton].
    intros x Hx ->%list_elem_of_singleton. done.
  - assert (E : PartBase._elements (PartBase.self (PartBase.add_material m w).2)
                = PartBase._elements (PartBase.self w));
      [|by rewrite E].
    unfold PartBase.add_material. run. by case_bool_decide.
  - assert (E : PartBase._elements (PartBase.self (PartBase.add_section sec w).2)
                = PartBase._elements (PartBase.self w));
      [|by rewrite E].
    unfold PartBase.add_section. run. case_bool_decide; [done|].
    destruct (material sec); simpl; try done; by case_bool_decide.
Qed.

(** On the list-backed part, whatever is called of [add_node],
    [remove_node], [add_material], [add_section] and of [add_element] with
    its check on, and whether or not the calls run to their end, no two
    elements of the part have the same connectivity key. *)
Theorem PartBase_no_duplicate_elements (resolves : bool) (cs : list PartBase.api_call)
    (w : PartBase.World) :
  Forall PartBase.checked cs →
  NoDup (PartBase.connectivity_key <$> PartBase._elements (PartBase.self w)) →
  NoDup (PartBase.connectivity_key
           <$> PartBase._elements (PartBase.self (PartBase.run_apis resolves cs w).2)).
Proof.
  intros Hcs Hnd. unfold PartBase.run_apis, for_each.
  assert (H : NoDup (PartBase.connectivity_key
                       <$> PartBase._elements
                             (PartBase.self (traverse (PartBase.run_api resolves) cs w).2))).
  { apply (traverse_preserves
             (λ s, NoDup (PartBase.connectivity_key <$> PartBase._elements (PartBase.self s))));
      [|done].
    intros c s Hin Hs. apply PartBase_run_api_elements; [|done].
    rewrite Forall_forall in Hcs. by apply Hcs. }
  unfold bind, ret. by destruct (traverse _ cs w) as [[l|e] w'].
Qed.

Lemma PartBase_no_duplicate_elements_witness :
  Forall PartBase.checked beam_calls ∧
  NoDup (PartBase.connectivity_key <$> PartBase._elements (PartBase.self base_empty)) ∧
  NoDup (PartBase.connectivity_key
           <$> PartBase._elements (PartBase.self (PartBase.run_apis true beam_calls base_empty).2)).
Proof.
  assert (H1 : Forall PartBase.checked beam_calls) by (repeat constructor).
  assert (H2 : NoDup (PartBase.connectivity_key
                        <$> PartBase._elements (PartBase.self base_empty))) by constructor.
  split; [exact H1|]. split; [exact H2|].
  exact (PartBase_no_duplicate_elements true beam_calls base_empty H1 H2).
Defined.

(** ** A tolerance of zero *)

Lemma distance_point_point_sqrd_nonneg (a b : point) :
  ¬ (distance_point_point_sqrd a b < 0)%Qc.
Proof.
  apply Qcle_not_lt. destruct a as [[ax ay] az]. destruct b as [[bx by_] bz].
  unfold distance_point_point_sqrd.
  assert (Hsq : ∀ x : Qc, (0 ≤ x * x)%Qc).
  { intros x. unfold Qcle.
    assert (E : (this (x * x)%Qc == x * x)%Q) by (simpl; apply Qred_correct).
    rewrite E. destruct x as [[n m] c]. unfold Qle, Qmult. simpl. nia. }
  assert (Hadd : ∀ x y : Qc, (0 ≤ x)%Qc → (0 ≤ y)%Qc → (0 ≤ x + y)%Qc).
  { intros x y Hx Hy. replace 0%Qc with (0 + 0)%Qc by ring. by apply Qcplus_le_compat. }
  auto.
Qed.

(** Under a tolerance of zero no node is in the way of another: with
    [VERBOSE] off, [add_node] adds the node it is given and returns it,
    also when a node of the part is at the very same place. *)
Theorem add_node_zero_tolerance (cfg : Config) (node : Node) (w : World) :
  VERBOSE cfg = false → GLOBAL_TOLERANCE cfg = 0%Qc →
  (add_node cfg node w).1 = Return node ∧
  contains_node (self (add_node cfg node w).2) node = true ∧
  _gkey_node (self (add_node cfg node w).2) !! gkey node = Some node.
Proof.
  intros Hv Ht.
  assert (Hnone : existing_node cfg (self w) node = []).
  { unfold existing_node. destruct (POINT_OVERLAP cfg); [done|]. simpl.
    unfold find_nodes_around_point. rewrite Ht.
    destruct (filter _ (iter (_nodes (self w)))) as [|x rest] eqn:E; [done|].
    assert (Hx : x ∈ x :: rest) by apply list_elem_of_here.
    rewrite <- E in Hx. apply list_elem_of_filter in Hx as [Hd _].
    exfalso. apply (distance_point_point_sqrd_nonneg (xyz x) (xyz node)).
    replace 0%Qc with (0 * 0)%Qc by ring. exact Hd. }
  rewrite add_node_eq, Hv, Hnone. cbn [fst snd]. split; [done|].
  unfold contains_node. rewrite with_node_nodes, with_node_gkey_node.
  split; [apply contains_add | apply lookup_insert_eq].
Qed.

Lemma add_node_zero_tolerance_witness :
  VERBOSE {| VERBOSE := false; POINT_OVERLAP := false; GLOBAL_TOLERANCE := 0 |} = false ∧
  GLOBAL_TOLERANCE {| VERBOSE := false; POINT_OVERLAP := false; GLOBAL_TOLERANCE := 0 |} = 0%Qc ∧
  (add_node {| VERBOSE := false; POINT_OVERLAP := false; GLOBAL_TOLERANCE := 0 |}
     node_a' two_nodes).1 = Return node_a' ∧
  contains_node
    (self (add_node {| VERBOSE := false; POINT_OVERLAP := false; GLOBAL_TOLERANCE := 0 |}
             node_a' two_nodes).2) node_a' = true ∧
  _gkey_node
    (self (add_node {| VERBOSE := false; POINT_OVERLAP := false; GLOBAL_TOLERANCE := 0 |}
             node_a' two_nodes).2) !! gkey node_a' = Some node_a'.
Proof.
  split; [reflexivity|]. split; [reflexivity|].
  exact (add_node_zero_tolerance
           {| VERBOSE := false; POINT_OVERLAP := false; GLOBAL_TOLERANCE := 0 |}
           node_a' two_nodes eq_refl eq_refl).
Defined.

(** ** Keys and element lines *)

(** After [assign_keys], the line of an element of the part is made (no
    [TypeError]) when all the nodes of the element are nodes of the
    part. *)
Theorem assigned_element_is_written (start : Z) (w : World) (e : Element) :
  NoDup (keyed_ids (self w)) →
  e ∈ iter (_elements (self w)) →
  (∀ n, n ∈ nodes e → n ∈ iter (_nodes (self w))) →
  ∃ t, element_generate_jobdata (heap (assign_keys start w).2) e = Return t.
Proof.
  intros Hnd He Hn.
  unfold element_generate_jobdata.
  apply list_elem_of_lookup in He as [i Hi].
  rewrite (assign_keys_element_keys start w i e Hnd Hi).
  destruct (otraverse_returns
              (λ node, match key_of (heap (assign_keys start w).2) (node_id node) with
                       | Some nk => Return (pretty (nk + 1)%Z)
                       | None => Raise TypeError
                       end) (nodes e)) as [ks Eks].
  { intros n Hin. apply Hn in Hin. apply list_elem_of_lookup in Hin as [j Hj].
    rewrite (assign_keys_node_keys start w j n Hnd Hj). eauto. }
  rewrite Eks. simpl. eauto.
Qed.

Lemma assigned_element_is_written_witness :
  NoDup (keyed_ids (self shell_world)) ∧
  shell_a ∈ iter (_elements (self shell_world)) ∧
  (∀ n, n ∈ nodes shell_a → n ∈ iter (_nodes (self shell_world))) ∧
  ∃ t, element_generate_jobdata (heap (assign_keys 0 shell_world).2) shell_a = Return t.
Proof.
  assert (H1 : NoDup (keyed_ids (self shell_world)))
    by (apply (bool_decide_unpack _); vm_compute; exact I).
  assert (H2 : shell_a ∈ iter (_elements (self shell_world)))
    by (apply (bool_decide_unpack _); vm_compute; exact I).
  assert (H3 : Forall (λ n, n ∈ iter (_nodes (self shell_world))) (nodes shell_a))
    by (apply (bool_decide_unpack _); vm_compute; exact I).
  rewrite Forall_forall in H3.
  split; [exact H1|]. split; [exact H2|]. split; [exact H3|].
  exact (assigned_element_is_written 0 shell_world shell_a H1 H2 H3).
Defined.

(** ** [PartBase.find_duplicate_nodes] *)

Lemma indices_count (x : string) (j : nat → nat) (gs : list string) :
  length (imap (λ index g, if bool_decide (g = x) then [j index] else []) gs ≫= id)
    = length (filter (λ g, g = x) gs).
Proof.
  revert j. induction gs as [|g gs IH]; intros j; [done|].
  csimpl. specialize (IH (j ∘ S)).
  destruct (decide (g = x)) as [Hg|Hg].
  - rewrite bool_decide_eq_true_2 by done. rewrite filter_cons_True by done.
    simpl. f_equal. exact IH.
  - rewrite bool_decide_eq_false_2 by done. rewrite filter_cons_False by done.
    simpl. exact IH.
Qed.

Lemma PartBase_check_node_in_part_count (p : PartBase.t) (node : PartBase.Node) :
  PartBase._nodes_gkeys p = PartBase.gkey <$> PartBase._nodes p →
  length (PartBase.check_node_in_part p node)
    = length (filter (λ n, PartBase.gkey n = PartBase.gkey node) (PartBase._nodes p)).
Proof.
  intros Hgk. unfold PartBase.check_node_in_part.
  rewrite (indices_count (PartBase.gkey node) (λ i, i)), Hgk.
  generalize (PartBase._nodes p). intros ns. induction ns as [|n ns IH]; [done|].
  rewrite fmap_cons. destruct (decide (PartBase.gkey n = PartBase.gkey node)) as [Hg|Hg].
  - rewrite !filter_cons_True by done. simpl. by rewrite IH.
  - by rewrite !filter_cons_False.
Qed.

Lemma head_filter_app {A} (P : A → Prop) `{∀ x, Decision (P x)} (l : list A) (x y : A) :
  head (filter P l) = Some y → head (filter P (l ++ [x])%list) = Some y.
Proof.
  rewrite filter_app. destruct (filter P l) as [|a l']; [done|]. done.
Qed.

(** The dictionary after the nodes [pre] have been looked at. *)
Lemma PartBase_find_duplicates_fold (w : PartBase.World) (pre rest : list PartBase.Node)
    (acc : list (string * option Z)) :
  let step := λ (duplicates : list (string * option Z)) (node : PartBase.Node),
      if bool_decide (2 ≤ length (PartBase.check_node_in_part (PartBase.self w) node))%nat then
        if bool_decide (PartBase.gkey node ∈ duplicates.*1) then duplicates
        else (duplicates ++ [(PartBase.gkey node,
                              PartBase.key (PartBase.heap w) !! PartBase.node_id node)])%list
      else duplicates in
  let count := λ g, length (filter (λ n, PartBase.gkey n = g)
                              (PartBase._nodes (PartBase.self w))) in
  let good := λ (seen : list PartBase.Node) (d : list (string * option Z)),
      NoDup d.*1 ∧
      (∀ g, g ∈ d.*1 ↔ (∃ n, n ∈ seen ∧ PartBase.gkey n = g) ∧ (2 ≤ count g)%nat) ∧
      (∀ g k, (g, k) ∈ d →
         ∃ n, head (filter (λ n, PartBase.gkey n = g) seen) = Some n ∧
              k = PartBase.key (PartBase.heap w) !! PartBase.node_id n) in
  PartBase._nodes_gkeys (PartBase.self w)
    = PartBase.gkey <$> PartBase._nodes (PartBase.self w) →
  good pre acc → good (pre ++ rest)%list (foldl step acc rest).
Proof.
  intros step count good Hgk. revert pre acc.
  induction rest as [|x rest IH]; intros pre acc Hgood; [by rewrite app_nil_r|].
  simpl. replace (pre ++ x :: rest)%list with ((pre ++ [x]) ++ rest)%list
    by (by rewrite <- app_assoc).
  apply IH. clear IH. destruct Hgood as (Hnd & Hdom & Hval).
  assert (Hcnt : length (PartBase.check_node_in_part (PartBase.self w) x)
                 = count (PartBase.gkey x))
    by (by apply PartBase_check_node_in_part_count).
  unfold step. rewrite Hcnt.
  assert (Hmono : ∀ g k, (g, k) ∈ acc →
            ∃ n, head (filter (λ n, PartBase.gkey n = g) (pre ++ [x])%list) = Some n ∧
                 k = PartBase.key (PartBase.heap w) !! PartBase.node_id n).
  { intros g k Hin. destruct (Hval g k Hin) as (n & Hn & ->).
    exists n. split; [by apply head_filter_app | done]. }
  case_bool_decide as Hc.
  - case_bool_decide as Hin.
    + split; [done|]. split; [|done]. intros g. rewrite Hdom. split.
      * intros [(n & Hn & Hg) Hcg]. split; [|done]. exists n. split; [|done].
        apply elem_of_app. by left.
      * intros [(n & [Hn| ->%list_elem_of_singleton]%elem_of_app & Hg) Hcg].
        -- split; [eauto | done].
        -- subst g. by apply Hdom.
    + split; [|split].
      * rewrite fmap_app. apply NoDup_app. split; [done|]. split; [|apply NoDup_singleton].
        intros g Hg ->%list_elem_of_singleton. done.
      * intros g. rewrite fmap_app, elem_of_app, Hdom. simpl.
        rewrite list_elem_of_singleton. split.
        -- intros [[(n & Hn & Hg) Hcg]| ->].
           ++ split; [|done]. exists n. split; [|done]. apply elem_of_app. by left.
           ++ split; [|done]. exists x. split; [|done]. apply elem_of_app. right.
              apply list_elem_of_here.
        -- intros [(n & [Hn| ->%list_elem_of_singleton]%elem_of_app & Hg) Hcg].
           ++ left. split; [eauto | done].
           ++ by right.
      * intros g k [Hin'|Hin'%list_elem_of_singleton]%elem_of_app; [by apply Hmono|].
        injection Hin' as -> ->. exists x. split; [|done].
        rewrite filter_app.
        assert (Hnone : filter (λ n, PartBase.gkey n = PartBase.gkey x) pre = []).
        { destruct (filter _ pre) as [|y l] eqn:E; [done|]. exfalso. apply Hin.
          apply Hdom. split; [|done]. exists y.
          assert (Hy : y ∈ y :: l) by apply list_elem_of_here.
          rewrite <- E in Hy. by apply list_elem_of_filter in Hy as [? ?]. }
        rewrite Hnone. by rewrite filter_cons_True.
  - split; [done|]. split; [|done]. intros g. rewrite Hdom. split.
    + intros [(n & Hn & Hg) Hcg]. split; [|done]. exists n. split; [|done].
      apply elem_of_app. by left.
    + intros [(n & [Hn| ->%list_elem_of_singleton]%elem_of_app & Hg) Hcg].
      * split; [eauto | done].
      * subst g. done.
Qed.

(** On a part whose list of geometric keys is that of its nodes,
    [find_duplicate_nodes] answers with a dictionary whose keys are
    exactly the geometric keys that two or more nodes of the part have,
    each once, and whose value for a geometric key is the key of the first
    node of the part that has it. *)
Theorem PartBase_find_duplicate_nodes_spec (w : PartBase.World) :
  PartBase._nodes_gkeys (PartBase.self w)
    = PartBase.gkey <$> PartBase._nodes (PartBase.self w) →
  NoDup (PartBase.find_duplicate_nodes w).*1 ∧
  (∀ g, g ∈ (PartBase.find_duplicate_nodes w).*1 ↔
        (2 ≤ length (filter (λ n, PartBase.gkey n = g)
                       (PartBase._nodes (PartBase.self w))))%nat) ∧
  (∀ g k, (g, k) ∈ PartBase.find_duplicate_nodes w →
     ∃ n, head (filter (λ n, PartBase.gkey n = g) (PartBase._nodes (PartBase.self w))) = Some n ∧
          k = PartBase.key (PartBase.heap w) !! PartBase.node_id n).
Proof.
  intros Hgk.
  pose proof (PartBase_find_duplicates_fold w [] (PartBase._nodes (PartBase.self w)) [] Hgk)
    as H.
  cbv zeta in H. destruct H as (Hnd & Hdom & Hval).
  { split; [constructor|]. split.
    - intros g. split; [intros []%elem_of_nil | intros [(n & []%elem_of_nil & _) _]].
    - intros g k []%elem_of_nil. }
  split; [exact Hnd|]. split; [|exact Hval].
  intros g. rewrite (Hdom g). simpl. split; [by intros [_ ?]|].
  intros Hc. split; [|done].
  destruct (filter _ (PartBase._nodes (PartBase.self w))) as [|n l] eqn:E; [simpl in Hc; lia|].
  exists n. assert (Hn : n ∈ n :: l) by apply list_elem_of_here.
  rewrite <- E in Hn. by apply list_elem_of_filter in Hn as [? ?].
Qed.

Lemma PartBase_find_duplicate_nodes_spec_witness :
  PartBase._nodes_gkeys (PartBase.self base_unchecked)
    = PartBase.gkey <$> PartBase._nodes (PartBase.self base_unchecked) ∧
  NoDup (PartBase.find_duplicate_nodes base_unchecked).*1 ∧
  (∀ g, g ∈ (PartBase.find_duplicate_nodes base_unchecked).*1 ↔
        (2 ≤ length (filter (λ n, PartBase.gkey n = g)
                       (PartBase._nodes (PartBase.self base_unchecked))))%nat) ∧
  (∀ g k, (g, k) ∈ PartBase.find_duplicate_nodes base_unchecked →
     ∃ n, head (filter (λ n, PartBase.gkey n = g)
                  (PartBase._nodes (PartBase.self base_unchecked))) = Some n ∧
          k = PartBase.key (PartBase.heap base_unchecked) !! PartBase.node_id n).
Proof.
  assert (H : PartBase._nodes_gkeys (PartBase.self base_unchecked)
              = PartBase.gkey <$> PartBase._nodes (PartBase.self base_unchecked))
    by (vm_compute; reflexivity).
  split; [exact H|]. exact (PartBase_find_duplicate_nodes_spec base_unchecked H).
Defined.
